(** * Plant-health inference worker: secure model loading and line protocol

    A shallow embedding of the encrypted-model pipeline
    ([ai/model_encryption.py], [backend/ai/model_loader.py]) and of the
    worker ([ai/inference_server.py], [ai/inference.py]), together with the
    properties of the specification that concern them. *)

From Stdlib Require Import Floats ZArith Lia Ascii String.
From stdpp Require Import base strings pretty list sorting gmap.

Set Warnings "-inexact-float,-register-all".
#[local] Set Warnings "-clear-no-such-hyp".

Local Open Scope string_scope.
Local Open Scope list_scope.

(** ** Python string helpers *)

Module PyStr.

(** [s.startswith(p)] *)
Fixpoint startswith (p s : string) : bool :=
  match p, s with
  | EmptyString, _ => true
  | String a p', String b s' => if Ascii.eqb a b then startswith p' s' else false
  | String _ _, EmptyString => false
  end.

(** [s[n:]] *)
Fixpoint drop (n : nat) (s : string) : string :=
  match n, s with
  | O, _ => s
  | S n', String _ s' => drop n' s'
  | S _, EmptyString => EmptyString
  end.

(** Left-to-right scan of [str.replace]: [skip] counts the characters of
    the occurrence of [old] that was just matched and still has to be
    passed over, so that occurrences never overlap. *)
Fixpoint replace_go (old new : string) (skip : nat) (s : string) : string :=
  match s with
  | EmptyString => EmptyString
  | String c s' =>
      match skip with
      | S k => replace_go old new k s'
      | O =>
          if startswith old s
          then new +:+ replace_go old new (String.length old - 1) s'
          else String c (replace_go old new O s')
      end
  end.

(** With an empty [old], Python puts [new] before every character and
    once more at the end. *)
Fixpoint intersperse (new s : string) : string :=
  match s with
  | EmptyString => new
  | String c s' => new +:+ String c (intersperse new s')
  end.

(** [s.replace(old, new)]: every non-overlapping occurrence of [old],
    found from the left, is replaced. *)
Definition replace (old new s : string) : string :=
  match old with
  | EmptyString => intersperse new s
  | String _ _ => replace_go old new O s
  end.

End PyStr.

(** ** The order of binary64 floats

    Python compares floats as IEEE 754 does.  Away from NaN the comparison
    is a total preorder; this is read off the specification of the
    primitive operations ([ltb_spec] and friends), by ranking a float
    through its sign, exponent and mantissa. *)

Module FloatOrder.

Definition rank (f : spec_float) : Z * Z * Z :=
  match f with
  | S754_nan => (0, 0, 0)%Z
  | S754_zero _ => (0, 0, 0)%Z
  | S754_infinity true => (-2, 0, 0)%Z
  | S754_infinity false => (2, 0, 0)%Z
  | S754_finite true m e => (-1, - e, - Z.pos m)%Z
  | S754_finite false m e => (1, e, Z.pos m)%Z
  end.

Definition lex_compare (a b : Z * Z * Z) : comparison :=
  match (a.1.1 ?= b.1.1)%Z with
  | Eq => match (a.1.2 ?= b.1.2)%Z with
          | Eq => (a.2 ?= b.2)%Z
          | c => c
          end
  | c => c
  end.

Definition not_nan (x : float) : Prop := PrimFloat.is_nan x = false.

Definition frank (x : float) : Z * Z * Z := rank (Prim2SF x).

Lemma SFcompare_rank (f g : spec_float) :
  f ≠ S754_nan → g ≠ S754_nan →
  SFcompare f g = Some (lex_compare (rank f) (rank g)).
Proof.
  intros Hf Hg.
  destruct f as [[]|[]| |[] m1 e1], g as [[]|[]| |[] m2 e2];
    try congruence; try reflexivity; unfold lex_compare; simpl; f_equal.
  - rewrite Pos.compare_cont_spec.
    destruct (Z.compare_spec e1 e2) as [He|He|He];
      destruct (Z.compare_spec (- e1) (- e2)) as [He'|He'|He'];
      try lia; try reflexivity.
    by destruct (m1 ?= m2)%positive.
Qed.

Lemma not_nan_spec (x : float) : not_nan x → Prim2SF x ≠ S754_nan.
Proof.
  unfold not_nan, PrimFloat.is_nan. rewrite FloatAxioms.eqb_spec. intros H E.
  rewrite E in H. discriminate.
Qed.

Definition lex_lt (a b : Z * Z * Z) : Prop :=
  (a.1.1 < b.1.1 ∨ (a.1.1 = b.1.1 ∧ (a.1.2 < b.1.2 ∨ (a.1.2 = b.1.2 ∧ a.2 < b.2))))%Z.

Lemma lex_compare_Lt a b : lex_compare a b = Lt ↔ lex_lt a b.
Proof.
  unfold lex_compare, lex_lt.
  destruct (Z.compare_spec a.1.1 b.1.1), (Z.compare_spec a.1.2 b.1.2),
    (Z.compare_spec a.2 b.2); split; intros; try discriminate; try lia; reflexivity.
Qed.


Lemma ltb_lex (x y : float) :
  not_nan x → not_nan y → PrimFloat.ltb x y = true ↔ lex_lt (frank x) (frank y).
Proof.
  intros Hx%not_nan_spec Hy%not_nan_spec.
  rewrite FloatAxioms.ltb_spec. unfold SFltb. rewrite SFcompare_rank by done.
  rewrite <- lex_compare_Lt. unfold frank.
  destruct (lex_compare _ _); split; congruence.
Qed.





Lemma lex_lt_irrefl a : ¬ lex_lt a a.
Proof. unfold lex_lt. lia. Qed.


End FloatOrder.

(** ** Derived fields of a classification result *)

(** [parse_class_name], identical in [inference_server.py] and
    [inference.py].  The subtype is [None] or a string. *)
Definition parse_class_name (class_name : string) : string * option string :=
  if PyStr.startswith "Pest_" class_name then
    ("Pest", Some (PyStr.replace "Pest_" "" class_name))
  else if PyStr.startswith "Nutrient_" class_name then
    ("Nutrient Deficiency", Some (PyStr.replace "Nutrient_" "" class_name))
  else if String.eqb class_name "Healthy" then
    ("Healthy", None)
  else if String.eqb class_name "Water_Stress" then
    ("Water Stress", None)
  else if String.eqb class_name "Not_Plant" then
    ("Invalid Input", None)
  else
    (class_name, None).

(** [confidence >= t] on Python floats (IEEE 754 binary64). *)
Definition float_ge (x t : float) : bool := PrimFloat.leb t x.

(** [get_confidence_level], identical in both scripts. *)
Definition get_confidence_level (confidence : float) : string :=
  if float_ge confidence 0.85%float then "Very High"
  else if float_ge confidence 0.70%float then "High"
  else if float_ge confidence 0.55%float then "Moderate"
  else "Low".

(** The category split as the specification words it: a prefixed name
    splits into the category and the remainder after the prefix. *)
Definition parse_class_name_spec (class_name : string) : string * option string :=
  if PyStr.startswith "Pest_" class_name then
    ("Pest", Some (PyStr.drop 5 class_name))
  else if PyStr.startswith "Nutrient_" class_name then
    ("Nutrient Deficiency", Some (PyStr.drop 9 class_name))
  else if String.eqb class_name "Healthy" then ("Healthy", None)
  else if String.eqb class_name "Water_Stress" then ("Water Stress", None)
  else if String.eqb class_name "Not_Plant" then ("Invalid Input", None)
  else (class_name, None).

(** The confidence band of the specification, and the label the scripts
    print for it. *)
Inductive confidence_band := Low | Moderate | High | VeryHigh.

Definition band_label (b : confidence_band) : string :=
  match b with
  | VeryHigh => "Very High"
  | High => "High"
  | Moderate => "Moderate"
  | Low => "Low"
  end.

(** The threshold ladder of the specification, lower bounds inclusive. *)
Definition band_of (confidence : float) : confidence_band :=
  if PrimFloat.leb 0.85%float confidence then VeryHigh
  else if PrimFloat.leb 0.70%float confidence then High
  else if PrimFloat.leb 0.55%float confidence then Moderate
  else Low.

(** [CONFIG['classes']] *)
Definition classes : list string :=
  [ "Healthy"; "Pest_Fungal"; "Pest_Bacterial"; "Pest_Insect";
    "Nutrient_Nitrogen"; "Nutrient_Potassium"; "Water_Stress"; "Not_Plant" ].

(** *** Category split *)

Example parse_pest_insect : parse_class_name "Pest_Insect" = ("Pest", Some "Insect").
Proof. reflexivity. Qed.

Example parse_healthy : parse_class_name "Healthy" = ("Healthy", None).
Proof. reflexivity. Qed.

Example parse_not_plant : parse_class_name "Not_Plant" = ("Invalid Input", None).
Proof. reflexivity. Qed.

(** On the configured classes the code and the specification agree. *)
Lemma parse_class_name_configured (c : string) :
  c ∈ classes → parse_class_name c = parse_class_name_spec c.
Proof.
  unfold classes. intros Hc.
  repeat (apply elem_of_cons in Hc as [-> | Hc]; [reflexivity |]).
  by apply elem_of_nil in Hc.
Qed.

(** Without one of the two prefixes nothing is replaced, so the literal
    classes and the pass-through case are as specified for every name. *)
Lemma parse_class_name_unprefixed (c : string) :
  PyStr.startswith "Pest_" c = false →
  PyStr.startswith "Nutrient_" c = false →
  parse_class_name c = parse_class_name_spec c.
Proof.
  intros H1 H2. unfold parse_class_name, parse_class_name_spec.
  by rewrite H1, H2.
Qed.

(** C6 (defect): [str.replace] removes every occurrence of the prefix, not
    only the leading one.  For the class name "Pest_A_Pest_B" the code
    answers the subtype "A_B", while the remainder after the prefix, which
    the specification asks for, is "A_Pest_B"; the same happens under
    "Nutrient_". *)
Theorem parse_class_name_strips_every_occurrence :
  parse_class_name "Pest_A_Pest_B" = ("Pest", Some "A_B")
  ∧ parse_class_name_spec "Pest_A_Pest_B" = ("Pest", Some "A_Pest_B")
  ∧ parse_class_name "Nutrient_Nutrient_Zinc" = ("Nutrient Deficiency", Some "Zinc")
  ∧ parse_class_name_spec "Nutrient_Nutrient_Zinc"
    = ("Nutrient Deficiency", Some "Nutrient_Zinc").
Proof. repeat split; reflexivity. Qed.

(** *** Confidence banding *)

Example band_08499 : get_confidence_level 0.8499%float = "High".
Proof. reflexivity. Qed.

(** C7: the label is the one of the band that the inclusive threshold
    ladder (0.85, 0.70, 0.55) assigns, for every float, NaN included (it
    falls through to Low); 0.85 is Very High, 0.70 is High and 0.5499 is
    Low. *)
Theorem get_confidence_level_ladder :
  (∀ confidence : float,
      get_confidence_level confidence = band_label (band_of confidence))
  ∧ band_of 0.85%float = VeryHigh
  ∧ band_of 0.8499%float = High
  ∧ band_of 0.70%float = High
  ∧ band_of 0.5499%float = Low
  ∧ get_confidence_level 0.85%float = "Very High"
  ∧ get_confidence_level 0.70%float = "High"
  ∧ get_confidence_level 0.5499%float = "Low".
Proof.
  split; [| repeat split; reflexivity].
  intros c. unfold get_confidence_level, band_of, float_ge.
  repeat case_match; reflexivity.
Qed.

(** ** Exceptions

    A raised Python exception is recorded by what the worker reports of
    it: the name of its class ([type(e).__name__]) and its message
    ([str(e)]).  A computation either returns or raises. *)

Record exn := Exn { exn_type : string; exn_msg : string }.

Inductive res (A : Type) : Type :=
| Ok (a : A)
| Raise (e : exn).
Arguments Ok {A} a.
Arguments Raise {A} e.

#[global] Instance res_ret : MRet res := λ A a, Ok a.
#[global] Instance res_bind : MBind res := λ A B f m,
  match m with
  | Ok a => f a
  | Raise e => Raise e
  end.

(** A list comprehension whose element expression may raise: the first
    exception ends it. *)
Fixpoint comprehension {A B : Type} (f : A → res B) (l : list A) : res (list B) :=
  match l with
  | [] => Ok []
  | x :: r => y ← f x; ys ← comprehension f r; Ok (y :: ys)
  end.

(** ** Stable descending sort

    [list.sort(key=k, reverse=True)] compares keys with [<] only and is
    stable: entries whose keys compare equal keep their original order,
    also under [reverse=True].  On keys that [<] orders totally there is
    exactly one such arrangement; it is computed here by insertion from
    the right, an entry passing only entries with a strictly larger key. *)

Section StableSort.
Context {A : Type} (lt : A → A → bool).

Fixpoint insert_desc (x : A) (l : list A) : list A :=
  match l with
  | [] => [x]
  | y :: r => if lt x y then y :: insert_desc x r else x :: y :: r
  end.

Definition sort_desc (l : list A) : list A := foldr insert_desc [] l.

(** [a] stands before [b] in [l]. *)
Definition precedes (l : list A) (a b : A) : Prop :=
  ∃ i j, l !! i = Some a ∧ l !! j = Some b ∧ i < j.

End StableSort.

Section StableSortFacts.
Context {A : Type} (lt : A → A → bool) (ok : A → Prop).
Hypothesis lt_asym : ∀ x y, ok x → ok y → lt x y = true → lt y x = false.
Hypothesis lt_negtrans :
  ∀ x y z, ok x → ok y → ok z → lt x y = false → lt y z = false → lt x z = false.

(** Where [insert_desc] puts the new entry: after a run of entries with a
    strictly larger key, before the first one without. *)
Lemma insert_desc_split (x : A) (l : list A) :
  ∃ l1 l2, l = l1 ++ l2 ∧ insert_desc lt x l = l1 ++ x :: l2
           ∧ Forall (λ y, lt x y = true) l1
           ∧ (∀ y, head l2 = Some y → lt x y = false).
Proof.
  induction l as [|y r IH]; simpl.
  - exists [], []. repeat split; auto. intros ? [=].
  - destruct (lt x y) eqn:E.
    + destruct IH as (l1 & l2 & -> & -> & H1 & H2).
      exists (y :: l1), l2. repeat split; auto.
    + exists [], (y :: r). repeat split; auto. intros ? [= <-]. done.
Qed.

Lemma insert_desc_perm (x : A) (l : list A) : insert_desc lt x l ≡ₚ x :: l.
Proof.
  destruct (insert_desc_split x l) as (l1 & l2 & -> & -> & _).
  by rewrite Permutation_middle.
Qed.

Lemma sort_desc_perm (l : list A) : sort_desc lt l ≡ₚ l.
Proof.
  induction l as [|x l IH]; simpl; [done|].
  by rewrite insert_desc_perm, IH.
Qed.

Lemma insert_desc_sorted (x : A) (l : list A) :
  ok x → Forall ok l →
  StronglySorted (λ a b, lt a b = false) l →
  StronglySorted (λ a b, lt a b = false) (insert_desc lt x l).
Proof.
  intros Hx Hl Hs. induction Hs as [|y r Hr IH Hy]; simpl.
  - repeat constructor.
  - apply Forall_cons in Hl as [Hoy Hor].
    destruct (lt x y) eqn:E.
    + constructor; [by apply IH|].
      rewrite insert_desc_perm. constructor; [by apply lt_asym | done].
    + constructor; [by constructor|].
      constructor; [done|].
      rewrite Forall_forall in Hy, Hor. apply Forall_forall. intros z Hz.
      eapply (lt_negtrans x y z); eauto.
Qed.

Lemma sort_desc_sorted (l : list A) :
  Forall ok l → StronglySorted (λ a b, lt a b = false) (sort_desc lt l).
Proof.
  induction l as [|x l IH]; simpl; intros Hl; [constructor|].
  apply Forall_cons in Hl as [Hx Hl].
  apply insert_desc_sorted; auto.
  by rewrite sort_desc_perm.
Qed.

Lemma StronglySorted_lookup (R : A → A → Prop) (l : list A) i j a b :
  StronglySorted R l → l !! i = Some a → l !! j = Some b → (i < j)%nat → R a b.
Proof.
  intros Hs. revert i j. induction Hs as [|x r Hr IH Hx]; intros i j Hi Hj Hij.
  - done.
  - destruct j as [|j]; [lia|]. simpl in Hj. destruct i as [|i]; simpl in Hi.
    + injection Hi as ->. rewrite Forall_forall in Hx.
      apply Hx. by eapply list_elem_of_lookup_2.
    + eapply IH; eauto. lia.
Qed.

Lemma precedes_sublist (l : list A) a b : precedes l a b ↔ [a; b] `sublist_of` l.
Proof.
  split.
  - intros (i & j & Hi & Hj & Hij). revert i j Hi Hj Hij.
    induction l as [|x l IH]; intros i j Hi Hj Hij; [done|].
    destruct j as [|j]; [lia|]. simpl in Hj. destruct i as [|i]; simpl in Hi.
    + injection Hi as ->. apply sublist_skip.
      apply singleton_sublist_l. by eapply list_elem_of_lookup_2.
    + apply sublist_cons. eapply IH; eauto. lia.
  - induction l as [|x l IH]; intros H.
    + by apply sublist_nil_r in H.
    + apply sublist_cons_r in H as [H | (l' & [= <- <-] & H)].
      * destruct (IH H) as (i & j & ? & ? & ?). exists (S i), (S j). repeat split; auto. lia.
      * apply singleton_sublist_l, list_elem_of_lookup_1 in H as [j Hj].
        exists 0, (S j). repeat split; auto. lia.
Qed.

(** Stability: two entries whose keys compare equal keep the order they
    had before the sort. *)
Lemma sort_desc_stable (l : list A) a b :
  Forall ok l → lt a b = false → lt b a = false →
  precedes (sort_desc lt l) a b → precedes l a b.
Proof.
  intros Hl Hab Hba. rewrite !precedes_sublist.
  induction l as [|x l IH]; simpl; [done|].
  apply Forall_cons in Hl as [Hx Hl]. specialize (IH Hl).
  destruct (insert_desc_split x (sort_desc lt l)) as (l1 & l2 & Es & -> & H1 & _).
  rewrite Es in IH. intros H.
  apply sublist_app_r in H as (k1 & k2 & Ek & Hk1 & Hk2).
  destruct k1 as [|a' [|b' k1]]; simpl in Ek.
  - subst k2. apply sublist_cons_r in Hk2 as [H | (l' & [= <- <-] & H)].
    + apply sublist_cons, IH. by apply sublist_inserts_l.
    + apply sublist_skip. apply singleton_sublist_l.
      apply singleton_sublist_l in H.
      rewrite <- (sort_desc_perm l), Es. set_solver.
  - injection Ek as <- <-.
    apply sublist_cons_r in Hk2 as [H | (l' & [= <- <-] & H)].
    + apply sublist_cons, IH. by apply (sublist_app [a] l1 [b] l2).
    + apply singleton_sublist_l in Hk1. rewrite Forall_forall in H1.
      apply H1 in Hk1. congruence.
  - injection Ek as <- <- E. symmetry in E. apply app_eq_nil in E as [-> ->].
    apply sublist_cons, IH. by apply sublist_inserts_r.
Qed.

End StableSortFacts.

(** ** Ranked probabilities ([predict], both scripts) *)

(** An entry of [all_probabilities]: the keys "class", "confidence" and
    "confidence_percentage". *)
Record prob_entry := ProbEntry {
  pe_class : string;
  pe_confidence : float;
  pe_confidence_percentage : float
}.

(** What numpy raises for [probabilities[i]] past the end. *)
Definition IndexError (i size : nat) : exn :=
  Exn "IndexError"
      ("index " +:+ pretty i +:+ " is out of bounds for axis 0 with size " +:+ pretty size).

(** The sort key [lambda x: x['confidence']], compared with [<]. *)
Definition confidence_lt (a b : prob_entry) : bool :=
  PrimFloat.ltb (pe_confidence a) (pe_confidence b).

Section Ranking.
(** [float(p * 100)] for an entry [p] of the float32 vector, as numpy
    computes it. *)
Variable times100 : float → float.

(** The element expression of the comprehension, for index [i]:
    [probabilities] holds the entries of the vector as [float(...)] gives
    them. *)
Definition entry_at (probabilities : list float) (i : nat) : res prob_entry :=
  match classes !! i with
  | None => Raise (Exn "IndexError" "list index out of range")
  | Some c =>
      match probabilities !! i with
      | None => Raise (IndexError i (length probabilities))
      | Some p => Ok (ProbEntry c p (times100 p))
      end
  end.

(** [all_probs], built over [range(len(CONFIG['classes']))] and sorted in
    place. *)
Definition all_probabilities (probabilities : list float) : res (list prob_entry) :=
  all_probs ← comprehension (entry_at probabilities) (seq 0 (length classes));
  Ok (sort_desc confidence_lt all_probs).

End Ranking.

Example all_probabilities_ties :
  pe_class <$> match all_probabilities (λ p, p)
                       [0.125; 0.25; 0.125; 0.25; 0.0625; 0.0625; 0.125; 0]%float with
               | Ok l => l
               | Raise _ => []
               end
  = [ "Pest_Fungal"; "Pest_Insect"; "Healthy"; "Pest_Bacterial"; "Water_Stress";
      "Nutrient_Nitrogen"; "Nutrient_Potassium"; "Not_Plant" ].
Proof. reflexivity. Qed.

Lemma comprehension_spec {A B : Type} (f : A → res B) (l : list A) :
  (∀ x, x ∈ l → ∃ y, f x = Ok y) →
  ∃ ys, comprehension f l = Ok ys ∧ Forall2 (λ x y, f x = Ok y) l ys.
Proof.
  induction l as [|x l IH]; intros H; simpl.
  - exists []. split; [done | constructor].
  - destruct (H x) as [y Hy]; [set_solver|].
    destruct IH as (ys & -> & Hys); [intros; apply H; set_solver|].
    rewrite Hy. exists (y :: ys). split; [done | by constructor].
Qed.

Lemma confidence_lt_asym (x y : prob_entry) :
  FloatOrder.not_nan (pe_confidence x) → FloatOrder.not_nan (pe_confidence y) →
  confidence_lt x y = true → confidence_lt y x = false.
Proof.
  unfold confidence_lt. intros Hx Hy H.
  apply FloatOrder.ltb_lex in H; [|done..].
  apply not_true_iff_false. rewrite FloatOrder.ltb_lex by done.
  revert H. unfold FloatOrder.lex_lt. lia.
Qed.

Lemma confidence_lt_negtrans (x y z : prob_entry) :
  FloatOrder.not_nan (pe_confidence x) → FloatOrder.not_nan (pe_confidence y) →
  FloatOrder.not_nan (pe_confidence z) →
  confidence_lt x y = false → confidence_lt y z = false → confidence_lt x z = false.
Proof.
  unfold confidence_lt. intros Hx Hy Hz.
  rewrite <- !not_true_iff_false, !FloatOrder.ltb_lex by done.
  unfold FloatOrder.lex_lt. lia.
Qed.

Lemma classes_NoDup : NoDup classes.
Proof. apply (bool_decide_unpack _). by vm_compute. Qed.

(** The unsorted list pairs the classes with the entries of the vector,
    index by index. *)
Lemma unsorted_probs (times100 : float → float) (probabilities : list float) :
  (length classes ≤ length probabilities)%nat →
  ∃ ys, comprehension (entry_at times100 probabilities) (seq 0 (length classes)) = Ok ys
        ∧ pe_class <$> ys = classes
        ∧ ∀ i e, ys !! i = Some e →
                 classes !! i = Some (pe_class e)
                 ∧ probabilities !! i = Some (pe_confidence e).
Proof.
  intros Hlen.
  destruct (comprehension_spec (entry_at times100 probabilities) (seq 0 (length classes)))
    as (ys & Hys & HF).
  { intros i Hi%elem_of_seq. unfold entry_at.
    destruct (lookup_lt_is_Some_2 classes i) as [c ->]; [lia|].
    destruct (lookup_lt_is_Some_2 probabilities i) as [p ->]; [lia|]. eauto. }
  assert (Hlk : ∀ i e, ys !! i = Some e →
            classes !! i = Some (pe_class e) ∧ probabilities !! i = Some (pe_confidence e)).
  { intros i e He.
    destruct (Forall2_lookup_r _ _ _ _ _ HF He) as (k & Hk & Hf).
    apply lookup_seq in Hk as [-> _]. simpl in Hf. unfold entry_at in Hf.
    destruct (classes !! i); [|done]. destruct (probabilities !! i); [|done].
    by injection Hf as <-. }
  exists ys. split; [done|]. split; [|done].
  apply Forall2_length in HF. rewrite length_seq in HF.
  apply list_eq. intros i. rewrite list_lookup_fmap.
  destruct (ys !! i) as [e|] eqn:He; simpl.
  - by destruct (Hlk _ _ He) as [-> _].
  - symmetry. apply lookup_ge_None. apply lookup_ge_None in He. lia.
Qed.



(** ** The process and its world *)

Definition bytes : Type := list Byte.byte.

(** A regular file: its content and its permission bits. *)
Record file := File { f_data : bytes; f_mode : N }.

(** What a run reads and changes: the file system (regular files and the
    directories known to exist), the two output channels (one element per
    write call, without its final newline, in order), and a termination
    signal on its way: [Some n] when SIGINT or SIGTERM will be delivered
    to the worker after [n] more of its steps. *)
Record world := World {
  w_files : gmap string file;
  w_dirs : gset string;
  w_stdout : list string;
  w_stderr : list string;
  w_signal : option nat
}.

(** How a computation ends: it returns, it raises an [Exception], or it
    raises [SystemExit] (which [except Exception] does not catch). *)
Inductive flow (A : Type) : Type :=
| Normal (a : A)
| Raised (e : exn)
| Exiting (code : Z).
Arguments Normal {A} a.
Arguments Raised {A} e.
Arguments Exiting {A} code.

Definition io (A : Type) : Type := world → flow A * world.

Definition io_ret {A : Type} (a : A) : io A := λ w, (Normal a, w).

Definition io_bind {A B : Type} (m : io A) (k : A → io B) : io B := λ w,
  match m w with
  | (Normal a, w') => k a w'
  | (Raised e, w') => (Raised e, w')
  | (Exiting c, w') => (Exiting c, w')
  end.

Declare Scope io_scope.
Delimit Scope io_scope with io.
Notation "x <- m ;; k" := (io_bind m (λ x, k))
  (at level 100, m at next level, right associativity) : io_scope.
Notation "m ;;; k" := (io_bind m (λ _, k))
  (at level 100, right associativity) : io_scope.

Definition raise {A : Type} (e : exn) : io A := λ w, (Raised e, w).

Definition lift {A : Type} (r : res A) : io A :=
  match r with
  | Ok a => io_ret a
  | Raise e => raise e
  end.

(** The changes a step makes to the world. *)
Definition add_stdout (s : string) (w : world) : world :=
  World (w_files w) (w_dirs w) (w_stdout w ++ [s]) (w_stderr w) (w_signal w).

Definition add_stderr (s : string) (w : world) : world :=
  World (w_files w) (w_dirs w) (w_stdout w) (w_stderr w ++ [s]) (w_signal w).

Definition add_dir (d : string) (w : world) : world :=
  World (w_files w) ({[d]} ∪ w_dirs w) (w_stdout w) (w_stderr w) (w_signal w).

Definition set_file (p : string) (f : file) (w : world) : world :=
  World (<[p := f]> (w_files w)) (w_dirs w) (w_stdout w) (w_stderr w) (w_signal w).

(** [print(s)] and [sys.stdout.write(s + "\n")] *)
Definition stdout_write (s : string) : io unit := λ w, (Normal (), add_stdout s w).

(** [sys.stderr.write(s)] *)
Definition stderr_write (s : string) : io unit := λ w, (Normal (), add_stderr s w).

(** *** Paths and files

    Permission and device errors are outside the model: an operation
    fails only for the reasons listed with it.  The world is a table of
    paths as they are written: two spellings of one place ("secrets/" and
    "secrets", "./m.pth" and "m.pth") are two entries, and nothing ties
    an entry to the entries of the directories above it.  The statements
    below are about the paths the scripts use, written as the scripts
    write them. *)

Module OsPath.

(** [p[:p.rfind('/') + 1]] *)
Fixpoint head_of (p : string) : string :=
  match p with
  | EmptyString => EmptyString
  | String c r =>
      match head_of r with
      | EmptyString => if Ascii.eqb c "/"%char then String c EmptyString else EmptyString
      | h => String c h
      end
  end.

Fixpoint all_slashes (s : string) : bool :=
  match s with
  | EmptyString => true
  | String c r => Ascii.eqb c "/"%char && all_slashes r
  end.

(** [s.rstrip('/')] *)
Fixpoint rstrip_slash (s : string) : string :=
  match s with
  | EmptyString => EmptyString
  | String c r =>
      match rstrip_slash r with
      | EmptyString => if Ascii.eqb c "/"%char then EmptyString else String c EmptyString
      | r' => String c r'
      end
  end.

(** [posixpath.dirname] *)
Definition dirname (p : string) : string :=
  let head := head_of p in
  if negb (String.eqb head "") && negb (all_slashes head)
  then rstrip_slash head
  else head.

(** [os.path.isdir]: a directory known to the world, or the root. *)
Definition isdir (p : string) (w : world) : bool :=
  bool_decide (p ∈ w_dirs w) || (all_slashes p && negb (String.eqb p "")).

(** [os.path.exists] *)
Definition exists_ (p : string) (w : world) : bool :=
  bool_decide (is_Some (w_files w !! p)) || isdir p w.

End OsPath.

Example dirname_default : OsPath.dirname "./secrets/model.key" = "./secrets".
Proof. reflexivity. Qed.

Example dirname_bare : OsPath.dirname "model.key" = "".
Proof. reflexivity. Qed.

Example dirname_root : OsPath.dirname "/model.key" = "/".
Proof. reflexivity. Qed.

Definition errno_message (what path : string) : string :=
  what +:+ ": '" +:+ path +:+ "'".

Definition FileNotFoundError (path : string) : exn :=
  Exn "FileNotFoundError" (errno_message "[Errno 2] No such file or directory" path).

Definition IsADirectoryError (path : string) : exn :=
  Exn "IsADirectoryError" (errno_message "[Errno 21] Is a directory" path).

Definition FileExistsError (path : string) : exn :=
  Exn "FileExistsError" (errno_message "[Errno 17] File exists" path).

Definition os_path_exists (p : string) : io bool := λ w, (Normal (OsPath.exists_ p w), w).

(** [os.makedirs(d, exist_ok=True)]: fails on the empty path and on the
    path of a regular file; otherwise the directory exists afterwards.
    Only [d] itself is looked at and recorded: the directories above it
    are taken to be there or to be creatable, so the failure on an
    ancestor that is a regular file is not in the model. *)
Definition os_makedirs (d : string) : io unit := λ w,
  if String.eqb d "" then (Raised (FileNotFoundError d), w)
  else if OsPath.isdir d w then (Normal (), w)
  else if bool_decide (is_Some (w_files w !! d)) then (Raised (FileExistsError d), w)
  else (Normal (), add_dir d w).

(** [with open(p, 'rb') as f: return f.read()] *)
Definition read_file (p : string) : io bytes := λ w,
  match w_files w !! p with
  | Some f => (Normal (f_data f), w)
  | None =>
      if OsPath.isdir p w then (Raised (IsADirectoryError p), w)
      else (Raised (FileNotFoundError p), w)
  end.

(** [with open(p, 'wb') as f: f.write(data)]: the directory of [p] must
    exist (the empty one is the working directory); a new file gets the
    mode [create_mode], an existing one keeps its mode. *)
Definition write_file (create_mode : N) (p : string) (data : bytes) : io unit := λ w,
  if OsPath.isdir p w then (Raised (IsADirectoryError p), w)
  else if negb (String.eqb (OsPath.dirname p) "") && negb (OsPath.isdir (OsPath.dirname p) w)
  then (Raised (FileNotFoundError p), w)
  else
    let mode := match w_files w !! p with Some f => f_mode f | None => create_mode end in
    (Normal (), set_file p (File data mode) w).

(** [try: os.chmod(p, mode) except: pass] *)
Definition try_chmod (supported : bool) (p : string) (mode : N) : io unit := λ w,
  match w_files w !! p with
  | Some f =>
      if supported
      then (Normal (), set_file p (File (f_data f) mode) w)
      else (Normal (), w)
  | None => (Normal (), w)
  end.

(** ** The encrypted artifact ([model_encryption.py]) *)

(** The [metadata] dictionary of a container and the container itself
    (the [package] dictionary). *)
Record metadata := Metadata {
  original_size : nat;
  hash : string;
  version : string
}.

Record package := Package {
  pkg_metadata : metadata;
  pkg_data : bytes
}.

(** The library calls the scripts make, taken as given.

    [cryptography.fernet]: [fernet_generate_key r] is
    [Fernet.generate_key()] on the random bytes [r]; [fernet_valid_key]
    says whether [Fernet(key)] accepts the key; [fernet_encrypt key r data]
    is [Fernet(key).encrypt(data)] with [r] the time stamp and
    initialisation vector it draws; [fernet_decrypt key token] is
    [Fernet(key).decrypt(token)], [None] standing for [InvalidToken].
    [hashlib]: [sha256_hexdigest data] is [sha256(data).hexdigest()].
    [torch]: [torch_save] pickles a container and [torch_load] reads one
    back; [torch_load_buffer] unpickles a checkpoint, [checkpoint_state]
    picks the state dictionary out of it ([None] when the checkpoint is
    not a dictionary), [model_class] builds the network and
    [load_state_dict] fills and finishes it.
    The platform: whether [os.chmod] works, the mode of a new file, and
    the text of a size in megabytes with two decimals. *)
Class Libraries := {
  fernet_generate_key : bytes → bytes;
  fernet_valid_key : bytes → bool;
  fernet_encrypt : bytes → bytes → bytes → bytes;
  fernet_decrypt : bytes → bytes → option bytes;
  sha256_hexdigest : bytes → string;
  torch_save : package → bytes;
  torch_load : bytes → res package;
  checkpoint : Type;
  state_dict : Type;
  model : Type;
  torch_load_buffer : bytes → res checkpoint;
  checkpoint_state : checkpoint → option state_dict;
  model_class : res model;
  load_state_dict : model → state_dict → res model;
  chmod_supported : bool;
  create_mode : N;
  format_megabytes : nat → string
}.

(** What the libraries promise: a generated key is a valid key, a token
    decrypts under the key that made it, and a saved container loads. *)
Class LibraryLaws `{Libraries} : Prop := {
  generated_key_valid : ∀ r, fernet_valid_key (fernet_generate_key r) = true;
  decrypt_encrypt : ∀ key r data,
    fernet_decrypt key (fernet_encrypt key r data) = Some data;
  load_save : ∀ p, torch_load (torch_save p) = Ok p
}.

Definition InvalidToken : exn := Exn "InvalidToken" "".

Definition ValueError (msg : string) : exn := Exn "ValueError" msg.

(** The permission bits [0o600]: read and write for the owner only. *)
Definition mode_0o600 : N := 384.

(** An instance of [ModelEncryption]; [self.cipher] is [Fernet(self.key)]. *)
Record ModelEncryption := Build_ModelEncryption {
  key_path : string;
  key : bytes
}.

Section Encryption.
Context `{Libraries}.
Local Open Scope io_scope.

(** [ModelEncryption._ensure_key_exists]; [r] is the randomness
    [Fernet.generate_key] draws. *)
Definition _ensure_key_exists (self_key_path : string) (r : bytes) : io unit :=
  os_makedirs (OsPath.dirname self_key_path) ;;;
  present <- os_path_exists self_key_path ;;
  if negb present then
    let key := fernet_generate_key r in
    write_file create_mode self_key_path key ;;;
    stdout_write ("✅ Generated new encryption key: " +:+ self_key_path) ;;;
    try_chmod chmod_supported self_key_path mode_0o600
  else io_ret ().

(** [ModelEncryption._load_key] *)
Definition _load_key (self_key_path : string) : io bytes :=
  read_file self_key_path.

(** [ModelEncryption.__init__] *)
Definition ModelEncryption_init (key_path : string) (r : bytes) : io ModelEncryption :=
  _ensure_key_exists key_path r ;;;
  key <- _load_key key_path ;;
  if fernet_valid_key key
  then io_ret (Build_ModelEncryption key_path key)
  else raise (ValueError "Fernet key must be 32 url-safe base64-encoded bytes.").

(** The container [encrypt_model] builds from the model bytes. *)
Definition make_package (self : ModelEncryption) (r : bytes) (model_data : bytes) : package :=
  let metadata := Metadata (length model_data) (sha256_hexdigest model_data) "1.0.0" in
  let encrypted_data := fernet_encrypt (key self) r model_data in
  Package metadata encrypted_data.

(** [ModelEncryption.encrypt_model]; [r] is the randomness of the
    encryption. *)
Definition encrypt_model (self : ModelEncryption) (r : bytes)
    (model_path encrypted_path : string) : io string :=
  stdout_write ("🔐 Encrypting model: " +:+ model_path) ;;;
  model_data <- read_file model_path ;;
  let package := make_package self r model_data in
  write_file create_mode encrypted_path (torch_save package) ;;;
  stdout_write "✅ Model encrypted successfully" ;;;
  stdout_write ("   Original size: " +:+ format_megabytes (length model_data) +:+ " MB") ;;;
  stdout_write ("   Encrypted size: "
                +:+ format_megabytes (length (pkg_data package)) +:+ " MB") ;;;
  stdout_write ("   Hash: " +:+ String.substring 0 16 (hash (pkg_metadata package)) +:+ "...") ;;;
  io_ret encrypted_path.

(** [ModelEncryption.decrypt_model] *)
Definition decrypt_model (self : ModelEncryption) (encrypted_path : string) : io bytes :=
  raw <- read_file encrypted_path ;;
  package <- lift (torch_load raw) ;;
  decrypted_data <- match fernet_decrypt (key self) (pkg_data package) with
                    | Some data => io_ret data
                    | None => raise InvalidToken
                    end ;;
  let data_hash := sha256_hexdigest decrypted_data in
  if negb (String.eqb data_hash (hash (pkg_metadata package)))
  then raise (ValueError "Model integrity check failed - possible tampering")
  else io_ret decrypted_data.

End Encryption.

(** ** The secure loader ([model_loader.py]) *)

Record SecureModelLoader := Build_SecureModelLoader {
  encryptor : ModelEncryption
}.

Section Loader.
Context `{Libraries}.
Local Open Scope io_scope.

(** [SecureModelLoader.__init__] *)
Definition SecureModelLoader_init (key_path : string) (r : bytes) : io SecureModelLoader :=
  encryptor <- ModelEncryption_init key_path r ;;
  io_ret (Build_SecureModelLoader encryptor).

(** [SecureModelLoader.load_encrypted_model]; the decrypted bytes go
    through an in-memory buffer only. *)
Definition load_encrypted_model (self : SecureModelLoader) (encrypted_path : string)
    : io model :=
  decrypted_data <- decrypt_model (encryptor self) encrypted_path ;;
  checkpoint <- lift (torch_load_buffer decrypted_data) ;;
  model <- lift model_class ;;
  match checkpoint_state checkpoint with
  | Some state => lift (load_state_dict model state)
  | None => raise (ValueError "Unexpected checkpoint format")
  end.

End Loader.

(** ** A sample of the libraries

    A small instance of [Libraries] that computes: it shows that the laws
    assumed of the libraries can be met, and the theorems below are
    exercised on it.  A token is a version byte, the key and the data; the
    digest is the decimal length; a container is pickled through an
    enumeration of containers. *)

Module Sample.

#[global] Instance byte_eq_dec : EqDecision Byte.byte := Byte.byte_eq_dec.

#[global] Instance byte_countable : Countable Byte.byte :=
  inj_countable Byte.to_N Byte.of_N Byte.of_to_N.

Definition package_to_tuple (p : package) : nat * string * string * bytes :=
  (original_size (pkg_metadata p), hash (pkg_metadata p), version (pkg_metadata p), pkg_data p).

Definition package_of_tuple (t : nat * string * string * bytes) : package :=
  let '(n, h, v, d) := t in Package (Metadata n h v) d.

Lemma package_of_to_tuple (p : package) : package_of_tuple (package_to_tuple p) = p.
Proof. by destruct p as [[] ?]. Qed.

#[global] Instance package_eq_dec : EqDecision package.
Proof. unfold EqDecision, Decision. do 2 decide equality; solve_decision. Defined.

#[global] Instance package_countable : Countable package :=
  inj_countable' package_to_tuple package_of_tuple package_of_to_tuple.

Fixpoint bytes_of_positive (p : positive) : bytes :=
  match p with
  | xH => []
  | xO q => Byte.x00 :: bytes_of_positive q
  | xI q => Byte.x01 :: bytes_of_positive q
  end.

Fixpoint positive_of_bytes (b : bytes) : positive :=
  match b with
  | [] => xH
  | c :: r => if Byte.eqb c Byte.x00 then xO (positive_of_bytes r) else xI (positive_of_bytes r)
  end.

Lemma positive_of_bytes_of_positive (p : positive) :
  positive_of_bytes (bytes_of_positive p) = p.
Proof. induction p; simpl; congruence. Qed.

Definition save (p : package) : bytes := bytes_of_positive (encode p).

Definition load (b : bytes) : res package :=
  match decode (positive_of_bytes b) with
  | Some p => Ok p
  | None => Raise (Exn "UnpicklingError" "invalid load key")
  end.

(** [strip k t] is the rest of [t] after its prefix [k]. *)
Fixpoint strip (k t : bytes) : option bytes :=
  match k, t with
  | [], _ => Some t
  | a :: k', b :: t' => if Byte.eqb a b then strip k' t' else None
  | _ :: _, [] => None
  end.

Lemma strip_app (k d : bytes) : strip k (k ++ d) = Some d.
Proof.
  induction k as [|a k IH]; simpl; [done|].
  by rewrite (Byte.byte_dec_lb eq_refl).
Qed.

Lemma strip_Some (k t d : bytes) : strip k t = Some d → t = k ++ d.
Proof.
  revert t. induction k as [|a k IH]; intros t; simpl.
  - by intros [= ->].
  - destruct t as [|b t]; [done|].
    destruct (Byte.eqb a b) eqn:E; [|done].
    apply Byte.byte_dec_bl in E as ->. intros Hs. by rewrite (IH _ Hs).
Qed.

Definition encrypt (key r data : bytes) : bytes := hd Byte.x80 r :: key ++ data.

Definition decrypt (key token : bytes) : option bytes :=
  match token with
  | [] => None
  | _ :: rest => strip key rest
  end.

#[global] Instance libraries : Libraries := {|
  fernet_generate_key r := take 4 (r ++ replicate 4 Byte.x00);
  fernet_valid_key k := bool_decide (length k = 4);
  fernet_encrypt := encrypt;
  fernet_decrypt := decrypt;
  sha256_hexdigest data := pretty (length data);
  torch_save := save;
  torch_load := load;
  checkpoint := bytes;
  state_dict := bytes;
  model := bytes;
  torch_load_buffer b := Ok b;
  checkpoint_state c := Some c;
  model_class := Ok [];
  load_state_dict _ s := Ok s;
  chmod_supported := true;
  create_mode := 420;
  format_megabytes n := pretty (N.of_nat n / 1048576)%N
|}.

#[global] Instance laws : LibraryLaws.
Proof.
  split.
  - intros r. apply bool_decide_eq_true. unfold fernet_generate_key, libraries.
    rewrite length_take, length_app.
    change (length (replicate 4 Byte.x00)) with 4. lia.
  - intros key r data. simpl. apply strip_app.
  - intros p. simpl. unfold load, save.
    by rewrite positive_of_bytes_of_positive, decode_encode.
Qed.

End Sample.

(** ** Round trip and tamper detection *)

Section EncryptionFacts.
Context `{Libraries}.

(** What [decrypt_model] does with a file that holds a container. *)
Lemma decrypt_model_unfold (self : ModelEncryption) (path : string) (w : world)
    (f : file) (pkg : package) :
  w_files w !! path = Some f →
  torch_load (f_data f) = Ok pkg →
  decrypt_model self path w =
    match fernet_decrypt (key self) (pkg_data pkg) with
    | None => (Raised InvalidToken, w)
    | Some d =>
        if String.eqb (sha256_hexdigest d) (hash (pkg_metadata pkg))
        then (Normal d, w)
        else (Raised (ValueError "Model integrity check failed - possible tampering"), w)
    end.
Proof.
  intros Hf Hp. unfold decrypt_model, io_bind, read_file. rewrite Hf, Hp. simpl.
  destruct (fernet_decrypt _ _) as [d|]; simpl; [|done].
  by destruct (String.eqb _ _).
Qed.

(** The integrity check is a hard failure: when the digest of the
    decrypted bytes is not the stored one, the bytes are not returned. *)
Lemma decrypt_model_hash_mismatch (self : ModelEncryption) (path : string) (w : world)
    (f : file) (pkg : package) (d : bytes) :
  w_files w !! path = Some f →
  torch_load (f_data f) = Ok pkg →
  fernet_decrypt (key self) (pkg_data pkg) = Some d →
  sha256_hexdigest d ≠ hash (pkg_metadata pkg) →
  decrypt_model self path w
  = (Raised (ValueError "Model integrity check failed - possible tampering"), w).
Proof.
  intros Hf Hp Hd Hh. rewrite (decrypt_model_unfold _ _ _ _ _ Hf Hp), Hd.
  by apply String.eqb_neq in Hh as ->.
Qed.

(** A token that Fernet rejects ends the load with [InvalidToken]. *)
Lemma decrypt_model_invalid_token (self : ModelEncryption) (path : string) (w : world)
    (f : file) (pkg : package) :
  w_files w !! path = Some f →
  torch_load (f_data f) = Ok pkg →
  fernet_decrypt (key self) (pkg_data pkg) = None →
  decrypt_model self path w = (Raised InvalidToken, w).
Proof.
  intros Hf Hp Hd. by rewrite (decrypt_model_unfold _ _ _ _ _ Hf Hp), Hd.
Qed.

(** A load that returns has passed both checks. *)
Lemma decrypt_model_Normal (self : ModelEncryption) (path : string) (w w' : world)
    (f : file) (pkg : package) (d : bytes) :
  w_files w !! path = Some f →
  torch_load (f_data f) = Ok pkg →
  decrypt_model self path w = (Normal d, w') →
  fernet_decrypt (key self) (pkg_data pkg) = Some d
  ∧ sha256_hexdigest d = hash (pkg_metadata pkg) ∧ w' = w.
Proof.
  intros Hf Hp. rewrite (decrypt_model_unfold _ _ _ _ _ Hf Hp).
  destruct (fernet_decrypt _ _) as [d'|]; [|done].
  destruct (String.eqb _ _) eqn:E; [|done].
  apply String.eqb_eq in E. by intros [= -> ->].
Qed.

End EncryptionFacts.

Section TamperDetection.
Context `{Libraries} `{!LibraryLaws}.

(** C1, as the code has it: for every stored container, [decrypt_model]
    returns bytes only when Fernet accepts the stored ciphertext under
    the key and the SHA-256 of the decrypted bytes is the stored hash, and
    then it returns exactly those bytes.  A ciphertext Fernet rejects
    raises [InvalidToken]; a digest that differs from the stored hash
    raises the integrity [ValueError], and the bytes are not returned.  So
    a container whose stored hash is not the one the encrypt step wrote
    for its ciphertext never loads, and whatever loads under the original
    metadata has the digest of the original bytes.  What [decrypt_model]
    raises, [load_encrypted_model] raises too.  Whether a changed
    ciphertext is rejected is decided by Fernet alone: the code adds no
    check of the ciphertext itself. *)
Theorem decrypt_model_tamper_detection (self : ModelEncryption) (path : string)
    (w : world) (f : file) (pkg : package) :
  w_files w !! path = Some f →
  torch_load (f_data f) = Ok pkg →
  (fernet_decrypt (key self) (pkg_data pkg) = None →
   decrypt_model self path w = (Raised InvalidToken, w))
  ∧ (∀ d, fernet_decrypt (key self) (pkg_data pkg) = Some d →
          sha256_hexdigest d ≠ hash (pkg_metadata pkg) →
          decrypt_model self path w
          = (Raised (ValueError "Model integrity check failed - possible tampering"), w))
  ∧ (∀ d w', decrypt_model self path w = (Normal d, w') →
             w' = w ∧ fernet_decrypt (key self) (pkg_data pkg) = Some d
             ∧ sha256_hexdigest d = hash (pkg_metadata pkg))
  ∧ (∀ r data, pkg_data pkg = pkg_data (make_package self r data) →
               hash (pkg_metadata pkg) ≠ hash (pkg_metadata (make_package self r data)) →
               decrypt_model self path w
               = (Raised (ValueError "Model integrity check failed - possible tampering"), w))
  ∧ (∀ r data d w', hash (pkg_metadata pkg) = hash (pkg_metadata (make_package self r data)) →
                    decrypt_model self path w = (Normal d, w') →
                    sha256_hexdigest d = sha256_hexdigest data)
  ∧ (∀ e w', decrypt_model self path w = (Raised e, w') →
             load_encrypted_model (Build_SecureModelLoader self) path w = (Raised e, w')).
Proof.
  intros Hf Hp.
  split; [intros Hd; by apply (decrypt_model_invalid_token self path w f pkg)|].
  split; [intros d Hd Hh; by apply (decrypt_model_hash_mismatch self path w f pkg d)|].
  split.
  { intros d w' Hd.
    by destruct (decrypt_model_Normal self path w w' f pkg d Hf Hp Hd) as (? & ? & ->). }
  split.
  { intros r data Hdata Hhash.
    apply (decrypt_model_hash_mismatch self path w f pkg data); [done | done | |].
    - rewrite Hdata. simpl. apply decrypt_encrypt.
    - simpl in Hhash. congruence. }
  split.
  { intros r data d w' Hhash Hd.
    destruct (decrypt_model_Normal self path w w' f pkg d Hf Hp Hd) as (_ & -> & _).
    by rewrite Hhash. }
  intros e w' He. unfold load_encrypted_model, io_bind. cbn [encryptor]. by rewrite He.
Qed.

End TamperDetection.

Section RoundTrip.
Context `{Libraries} `{!LibraryLaws}.

(** C2: encrypting the bytes of a model file into a container and
    decrypting that container under the same key returns normally, with
    exactly the original bytes; the container stores their SHA-256, so
    the integrity check passes. *)
Theorem encrypt_decrypt_roundtrip (self self' : ModelEncryption) (r : bytes)
    (model_path encrypted_path : string) (w : world) (model_data : bytes) (mode : N) :
  key self' = key self →
  w_files w !! model_path = Some (File model_data mode) →
  OsPath.isdir encrypted_path w = false →
  OsPath.dirname encrypted_path = ""
  ∨ OsPath.isdir (OsPath.dirname encrypted_path) w = true →
  ∃ w1 f,
    encrypt_model self r model_path encrypted_path w = (Normal encrypted_path, w1)
    ∧ w_files w1 !! encrypted_path = Some f
    ∧ torch_load (f_data f) = Ok (make_package self r model_data)
    ∧ hash (pkg_metadata (make_package self r model_data)) = sha256_hexdigest model_data
    ∧ decrypt_model self' encrypted_path w1 = (Normal model_data, w1).
Proof.
  intros Hkey Hm Hnd Hdir.
  assert (Hpar : negb (String.eqb (OsPath.dirname encrypted_path) "")
                 && negb (OsPath.isdir (OsPath.dirname encrypted_path) w) = false).
  { destruct Hdir as [-> | ->]; [done|]. apply andb_false_r. }
  unfold encrypt_model, io_bind, stdout_write, read_file, write_file.
  unfold OsPath.isdir in *. simpl.
  rewrite Hm. simpl. rewrite Hnd, Hpar. simpl.
  eexists _, _. split; [reflexivity|]. simpl.
  split; [apply lookup_insert_eq|].
  split; [apply load_save|].
  split; [done|].
  erewrite decrypt_model_unfold;
    [| simpl; apply lookup_insert_eq | simpl; apply load_save].
  simpl. rewrite Hkey, decrypt_encrypt. by rewrite String.eqb_refl.
Qed.

End RoundTrip.

(** *** The two theorems on the sample libraries *)

Module SampleRun.
Import Sample.

Definition the_key : bytes := [Byte.x6b; Byte.x65; Byte.x79; Byte.x21].

Definition loader : ModelEncryption :=
  Build_ModelEncryption "./secrets/model.key" the_key.

Definition model_bytes : bytes := [Byte.x50; Byte.x4b; Byte.x03].

(** A world with a model file, ready to be encrypted. *)
Definition plain_world : world :=
  World {[ "./saved_models/best_model.pth" := File model_bytes 420 ]}
        {[ "./saved_models" ]} [] [] None.

(** The container of [model_bytes], with its stored hash replaced. *)
Definition forged : package :=
  Package (Metadata 3 "0000" "1.0.0") (pkg_data (make_package loader [] model_bytes)).

Definition forged_world : world :=
  World {[ "./saved_models/best_model.encrypted" := File (save forged) 420 ]}
        {[ "./saved_models" ]} [] [] None.

End SampleRun.

Lemma encrypt_decrypt_roundtrip_witness :
  ∃ w1 f,
    encrypt_model SampleRun.loader [] "./saved_models/best_model.pth"
      "./saved_models/best_model.encrypted" SampleRun.plain_world
    = (Normal "./saved_models/best_model.encrypted", w1)
    ∧ w_files w1 !! "./saved_models/best_model.encrypted" = Some f
    ∧ torch_load (f_data f) = Ok (make_package SampleRun.loader [] SampleRun.model_bytes)
    ∧ hash (pkg_metadata (make_package SampleRun.loader [] SampleRun.model_bytes))
      = sha256_hexdigest SampleRun.model_bytes
    ∧ decrypt_model SampleRun.loader "./saved_models/best_model.encrypted" w1
      = (Normal SampleRun.model_bytes, w1).
Proof.
  apply (encrypt_decrypt_roundtrip SampleRun.loader SampleRun.loader []
           "./saved_models/best_model.pth" "./saved_models/best_model.encrypted"
           SampleRun.plain_world SampleRun.model_bytes 420).
  - reflexivity.
  - reflexivity.
  - reflexivity.
  - right. reflexivity.
Defined.

Lemma decrypt_model_tamper_detection_witness :
  (fernet_decrypt (key SampleRun.loader) (pkg_data SampleRun.forged) = None →
   decrypt_model SampleRun.loader "./saved_models/best_model.encrypted" SampleRun.forged_world
   = (Raised InvalidToken, SampleRun.forged_world))
  ∧ (∀ d, fernet_decrypt (key SampleRun.loader) (pkg_data SampleRun.forged) = Some d →
          sha256_hexdigest d ≠ hash (pkg_metadata SampleRun.forged) →
          decrypt_model SampleRun.loader "./saved_models/best_model.encrypted"
            SampleRun.forged_world
          = (Raised (ValueError "Model integrity check failed - possible tampering"),
             SampleRun.forged_world))
  ∧ (∀ d w', decrypt_model SampleRun.loader "./saved_models/best_model.encrypted"
               SampleRun.forged_world = (Normal d, w') →
             w' = SampleRun.forged_world
             ∧ fernet_decrypt (key SampleRun.loader) (pkg_data SampleRun.forged) = Some d
             ∧ sha256_hexdigest d = hash (pkg_metadata SampleRun.forged))
  ∧ (∀ r data,
       pkg_data SampleRun.forged = pkg_data (make_package SampleRun.loader r data) →
       hash (pkg_metadata SampleRun.forged)
       ≠ hash (pkg_metadata (make_package SampleRun.loader r data)) →
       decrypt_model SampleRun.loader "./saved_models/best_model.encrypted"
         SampleRun.forged_world
       = (Raised (ValueError "Model integrity check failed - possible tampering"),
          SampleRun.forged_world))
  ∧ (∀ r data d w',
       hash (pkg_metadata SampleRun.forged)
       = hash (pkg_metadata (make_package SampleRun.loader r data)) →
       decrypt_model SampleRun.loader "./saved_models/best_model.encrypted"
         SampleRun.forged_world = (Normal d, w') →
       sha256_hexdigest d = sha256_hexdigest data)
  ∧ (∀ e w', decrypt_model SampleRun.loader "./saved_models/best_model.encrypted"
               SampleRun.forged_world = (Raised e, w') →
             load_encrypted_model (Build_SecureModelLoader SampleRun.loader)
               "./saved_models/best_model.encrypted" SampleRun.forged_world
             = (Raised e, w')).
Proof.
  apply (decrypt_model_tamper_detection SampleRun.loader
           "./saved_models/best_model.encrypted" SampleRun.forged_world
           (File (Sample.save SampleRun.forged) 420) SampleRun.forged).
  - reflexivity.
  - exact (load_save SampleRun.forged).
Defined.

(** The altered hash of the sample container is refused. *)
Example forged_container_is_refused :
  decrypt_model SampleRun.loader "./saved_models/best_model.encrypted" SampleRun.forged_world
  = (Raised (ValueError "Model integrity check failed - possible tampering"),
     SampleRun.forged_world).
Proof. vm_compute. reflexivity. Qed.

(** ** Fernet tokens as they are stored

    [Fernet.encrypt] returns the token as URL-safe base64 text, and
    [Fernet.decrypt] begins with [base64.urlsafe_b64decode(token)]: only
    the decoded bytes are authenticated and decrypted.  The decoding is
    the lenient one of [binascii.a2b_base64]: characters outside the
    alphabet are skipped, and the bits of the last character that do not
    belong to a byte are dropped. *)

Module Base64.
Local Open Scope N_scope.

(** The value of a character of the alphabet; after the translation of
    [urlsafe_b64decode] both "+" and "-" stand for 62, both "/" and "_"
    for 63. *)
Definition value (c : N) : option N :=
  if (65 <=? c) && (c <=? 90) then Some (c - 65)
  else if (97 <=? c) && (c <=? 122) then Some (c - 71)
  else if (48 <=? c) && (c <=? 57) then Some (c + 4)
  else if (c =? 43) || (c =? 45) then Some 62
  else if (c =? 47) || (c =? 95) then Some 63
  else None.

(** The loop of [binascii.a2b_base64] without [strict_mode]:
    [quad_pos] is the position in the group of four characters,
    [leftchar] the bits not yet written, [pads] the padding characters
    seen since the last character of the alphabet.  [None] stands for
    [binascii.Error]. *)
Fixpoint a2b (s : list N) (quad_pos : nat) (leftchar : N) (pads : nat) (out : list N)
    : option (list N) :=
  match s with
  | [] => match quad_pos with O => Some out | _ => None end
  | c :: rest =>
      if c =? 61 then
        if (2 <=? quad_pos)%nat then
          if (4 <=? quad_pos + S pads)%nat then Some out
          else a2b rest quad_pos leftchar (S pads) out
        else a2b rest quad_pos leftchar pads out
      else
        match value c with
        | None => a2b rest quad_pos leftchar pads out
        | Some v =>
            match quad_pos with
            | 0%nat => a2b rest 1%nat v 0%nat out
            | 1%nat =>
                a2b rest 2%nat (v mod 16) 0%nat (out ++ [(leftchar * 4 + v / 16) mod 256])
            | 2%nat =>
                a2b rest 3%nat (v mod 4) 0%nat (out ++ [(leftchar * 16 + v / 4) mod 256])
            | _ => a2b rest 0%nat 0 0%nat (out ++ [(leftchar * 64 + v) mod 256])
            end
        end
  end.

(** The character of a value, in the URL-safe alphabet. *)
Definition char (v : N) : N :=
  if v <? 26 then v + 65
  else if v <? 52 then v + 71
  else if v <? 62 then v - 4
  else if v =? 62 then 45
  else 95.

Fixpoint b2a (s : list N) : list N :=
  match s with
  | a :: b :: c :: rest =>
      char (a / 4) :: char ((a mod 4) * 16 + b / 16) :: char ((b mod 16) * 4 + c / 64)
        :: char (c mod 64) :: b2a rest
  | [a; b] => [char (a / 4); char ((a mod 4) * 16 + b / 16); char ((b mod 16) * 4); 61]
  | [a] => [char (a / 4); char ((a mod 4) * 16); 61; 61]
  | [] => []
  end.

Definition byte_of (n : N) : Byte.byte := default Byte.x00 (Byte.of_N n).

(** [base64.urlsafe_b64encode] and [base64.urlsafe_b64decode] *)
Definition urlsafe_b64encode (data : bytes) : bytes :=
  byte_of <$> b2a (Byte.to_N <$> data).

Definition urlsafe_b64decode (text : bytes) : option bytes :=
  fmap (M := list) byte_of <$> a2b (Byte.to_N <$> text) 0 0 0 [].

(** In how many bits two byte strings of the same length differ. *)
Definition bits_of (n : N) : nat :=
  length (filter (λ i, N.testbit n (N.of_nat i) = true) (seq 0 8)).

Fixpoint bit_difference (a b : bytes) : nat :=
  match a, b with
  | x :: a', y :: b' => bits_of (N.lxor (Byte.to_N x) (Byte.to_N y)) + bit_difference a' b'
  | _, _ => 0
  end.

End Base64.

Example urlsafe_b64decode_ignores_unused_bits :
  Base64.urlsafe_b64decode [Byte.x51; Byte.x55; Byte.x49; Byte.x3d] = Some [Byte.x41; Byte.x42]
  ∧ Base64.urlsafe_b64decode [Byte.x51; Byte.x55; Byte.x4b; Byte.x3d]
    = Some [Byte.x41; Byte.x42]
  ∧ Base64.urlsafe_b64encode [Byte.x41; Byte.x42] = [Byte.x51; Byte.x55; Byte.x49; Byte.x3d]
  ∧ Base64.urlsafe_b64decode [Byte.x51; Byte.x55; Byte.x49] = None.
Proof. repeat split; reflexivity. Qed.

(** Libraries whose Fernet works on the token before its encoding, put
    behind the encoding: what the scripts store and read is the base64
    text. *)
Definition fernet_over_base64 (L : Libraries) : Libraries := {|
  fernet_generate_key := @fernet_generate_key L;
  fernet_valid_key := @fernet_valid_key L;
  fernet_encrypt key r data := Base64.urlsafe_b64encode (@fernet_encrypt L key r data);
  fernet_decrypt key token :=
    match Base64.urlsafe_b64decode token with
    | Some decoded => @fernet_decrypt L key decoded
    | None => None
    end;
  sha256_hexdigest := @sha256_hexdigest L;
  torch_save := @torch_save L;
  torch_load := @torch_load L;
  checkpoint := @checkpoint L;
  state_dict := @state_dict L;
  model := @model L;
  torch_load_buffer := @torch_load_buffer L;
  checkpoint_state := @checkpoint_state L;
  model_class := @model_class L;
  load_state_dict := @load_state_dict L;
  chmod_supported := @chmod_supported L;
  create_mode := @create_mode L;
  format_megabytes := @format_megabytes L
|}.

Module TamperedToken.

Definition libraries : Libraries := fernet_over_base64 Sample.libraries.

(** What [encrypt_model] stores for the sample model, and the same
    container with one bit of the last character of its ciphertext
    flipped. *)
Definition container : package :=
  @make_package libraries SampleRun.loader [] SampleRun.model_bytes.

Definition flip_last_character (token : bytes) : bytes :=
  match reverse token with
  | pad :: c :: rest =>
      reverse (pad :: Base64.byte_of (N.lxor (Byte.to_N c) 2) :: rest)
  | _ => token
  end.

Definition tampered : package :=
  Package (pkg_metadata container) (flip_last_character (pkg_data container)).

Definition encrypted_world : world :=
  (@encrypt_model libraries SampleRun.loader [] "./saved_models/best_model.pth"
     "./saved_models/best_model.encrypted" SampleRun.plain_world).2.

Definition tampered_world : world :=
  set_file "./saved_models/best_model.encrypted" (File (Sample.save tampered) 420)
           encrypted_world.

End TamperedToken.

(** C1 (counterexample): a changed ciphertext that loads.  The container
    [encrypt_model] wrote for the sample model is replaced by one that
    differs from it in exactly one bit of the ciphertext, the metadata
    untouched; the bit is one that the base64 decoding of [Fernet.decrypt]
    drops.  [decrypt_model] raises nothing: it returns the bytes of the
    model, and [load_encrypted_model] builds the model from them. *)
Lemma ciphertext_bit_flip_loads :
  w_files TamperedToken.encrypted_world !! "./saved_models/best_model.encrypted"
  = Some (File (Sample.save TamperedToken.container) 420)
  ∧ length (pkg_data TamperedToken.tampered) = length (pkg_data TamperedToken.container)
  ∧ Base64.bit_difference (pkg_data TamperedToken.tampered)
                          (pkg_data TamperedToken.container) = 1
  ∧ pkg_metadata TamperedToken.tampered = pkg_metadata TamperedToken.container
  ∧ @decrypt_model TamperedToken.libraries SampleRun.loader
      "./saved_models/best_model.encrypted" TamperedToken.tampered_world
    = (Normal SampleRun.model_bytes, TamperedToken.tampered_world)
  ∧ @load_encrypted_model TamperedToken.libraries (Build_SecureModelLoader SampleRun.loader)
      "./saved_models/best_model.encrypted" TamperedToken.tampered_world
    = (Normal SampleRun.model_bytes, TamperedToken.tampered_world).
Proof. repeat split; vm_compute; reflexivity. Qed.

(** ** Key generation at construction *)

Module OsPathFacts.
Import OsPath.

Fixpoint ends_slash (s : string) : bool :=
  match s with
  | EmptyString => false
  | String c EmptyString => Ascii.eqb c "/"%char
  | String _ r => ends_slash r
  end.

Lemma head_of_length (p : string) : (String.length (head_of p) ≤ String.length p)%nat.
Proof.
  induction p as [|c r IH]; simpl; [lia|].
  destruct (head_of r); simpl in *; [destruct (Ascii.eqb c "/"); simpl|]; lia.
Qed.

Lemma head_of_full (p : string) :
  String.length (head_of p) = String.length p → head_of p = p.
Proof.
  induction p as [|c r IH]; simpl; [done|].
  destruct (head_of r) as [|a h]; simpl in *.
  - destruct (Ascii.eqb c "/"); simpl; [|lia].
    destruct r; simpl; [done | lia].
  - intros [= E]. by rewrite IH.
Qed.

Lemma head_of_ends (p : string) : head_of p ≠ "" → ends_slash (head_of p) = true.
Proof.
  induction p as [|c r IH]; simpl; [done|].
  destruct (head_of r) as [|a h] eqn:E.
  - destruct (Ascii.eqb c "/") eqn:Ec; [simpl; by rewrite Ec | done].
  - intros _. simpl in *. by apply IH.
Qed.

Lemma rstrip_slash_length (s : string) :
  (String.length (rstrip_slash s) ≤ String.length s)%nat.
Proof.
  induction s as [|c r IH]; simpl; [lia|].
  destruct (rstrip_slash r); simpl in *; [destruct (Ascii.eqb c "/"); simpl|]; lia.
Qed.

Lemma rstrip_slash_ends (s : string) : ends_slash (rstrip_slash s) = false.
Proof.
  induction s as [|c r IH]; simpl; [done|].
  destruct (rstrip_slash r) as [|a h] eqn:E.
  - destruct (Ascii.eqb c "/") eqn:Ec; simpl; [done | by rewrite Ec].
  - simpl in *. done.
Qed.

(** Only the empty path and the root are their own directory. *)
Lemma dirname_fixed (p : string) : dirname p = p → all_slashes p = true.
Proof.
  unfold dirname. destruct (String.eqb (head_of p) "") eqn:E1; simpl.
  - apply String.eqb_eq in E1. rewrite E1. by intros <-.
  - destruct (all_slashes (head_of p)) eqn:E2; simpl; [by intros <-|].
    intros Hp.
    pose proof (rstrip_slash_ends (head_of p)) as He. rewrite Hp in He.
    pose proof (rstrip_slash_length (head_of p)) as Hl. rewrite Hp in Hl.
    pose proof (head_of_length p) as Hl'.
    assert (Hfull : head_of p = p) by (apply head_of_full; lia).
    apply String.eqb_neq in E1. apply head_of_ends in E1.
    rewrite Hfull in E1. congruence.
Qed.

Lemma dirname_of_missing (p : string) (w : world) :
  exists_ p w = false → dirname p ≠ "" → dirname p ≠ p.
Proof.
  unfold exists_, isdir. intros Hex Hd Heq.
  apply dirname_fixed in Heq as Hs. rewrite Hs in Hex.
  rewrite Heq in Hd. apply String.eqb_neq in Hd. rewrite Hd in Hex.
  simpl in Hex. by rewrite !orb_true_r in Hex.
Qed.

End OsPathFacts.

(** Running a sequence step by step. *)
Lemma io_bind_Normal {A B : Type} (m : io A) (k : A → io B) (w w' : world) (a : A) :
  m w = (Normal a, w') → io_bind m k w = k a w'.
Proof. unfold io_bind. by intros ->. Qed.

Lemma io_bind_Raised {A B : Type} (m : io A) (k : A → io B) (w w' : world) (e : exn) :
  m w = (Raised e, w') → io_bind m k w = (Raised e, w').
Proof. unfold io_bind. by intros ->. Qed.

Lemma io_bind_Exiting {A B : Type} (m : io A) (k : A → io B) (w w' : world) (c : Z) :
  m w = (Exiting c, w') → io_bind m k w = (Exiting c, w').
Proof. unfold io_bind. by intros ->. Qed.

Lemma os_makedirs_present (d : string) (w : world) :
  d ≠ "" → OsPath.isdir d w = true → os_makedirs d w = (Normal (), w).
Proof. intros Hd%String.eqb_neq Hi. unfold os_makedirs. by rewrite Hd, Hi. Qed.

Lemma os_makedirs_new (d : string) (w : world) :
  d ≠ "" → OsPath.isdir d w = false → w_files w !! d = None →
  os_makedirs d w = (Normal (), add_dir d w).
Proof.
  intros Hd%String.eqb_neq Hi Hf. unfold os_makedirs. rewrite Hd, Hi, Hf.
  rewrite bool_decide_eq_false_2; [done | by intros [? ?]].
Qed.

Lemma write_file_new (mode : N) (p : string) (data : bytes) (w : world) :
  OsPath.isdir p w = false →
  OsPath.dirname p = "" ∨ OsPath.isdir (OsPath.dirname p) w = true →
  w_files w !! p = None →
  write_file mode p data w = (Normal (), set_file p (File data mode) w).
Proof.
  intros Hi Hd Hf. unfold write_file. rewrite Hi, Hf.
  destruct Hd as [-> | ->]; [done|]. by rewrite andb_false_r.
Qed.

Lemma read_file_present (p : string) (f : file) (w : world) :
  w_files w !! p = Some f → read_file p w = (Normal (f_data f), w).
Proof. intros Hf. unfold read_file. by rewrite Hf. Qed.

Lemma isdir_add_dir (d p : string) (w : world) :
  OsPath.isdir p (add_dir d w) = bool_decide (p = d) || OsPath.isdir p w.
Proof.
  unfold OsPath.isdir, add_dir. simpl. rewrite orb_assoc. f_equal.
  apply eq_true_iff_eq. rewrite orb_true_iff, !bool_decide_eq_true. set_solver.
Qed.

Section KeyGeneration.
Context `{Libraries} `{!LibraryLaws}.

(** The file system after [_ensure_key_exists] has generated a key. *)
Definition with_generated_key (key_path : string) (r : bytes) (w : world)
    : gmap string file :=
  <[key_path := File (fernet_generate_key r)
                     (if chmod_supported then mode_0o600 else create_mode)]> (w_files w).

(** Key generation in a world where the directory of the key path
    exists. *)
Lemma ensure_key_generates (key_path : string) (r : bytes) (w : world) :
  OsPath.exists_ key_path w = false →
  OsPath.isdir (OsPath.dirname key_path) w = true →
  ∃ w1,
    io_bind (os_path_exists key_path) (λ present,
      if negb present then
        io_bind (write_file create_mode key_path (fernet_generate_key r)) (λ _,
          io_bind (stdout_write ("✅ Generated new encryption key: " +:+ key_path)) (λ _,
            try_chmod chmod_supported key_path mode_0o600))
      else io_ret ()) w = (Normal (), w1)
    ∧ w_files w1 = with_generated_key key_path r w
    ∧ w_dirs w1 = w_dirs w
    ∧ w_stdout w1 = w_stdout w ++ ["✅ Generated new encryption key: " +:+ key_path]
    ∧ w_stderr w1 = w_stderr w.
Proof.
  intros Hex Hpar.
  assert (Hex' := Hex). unfold OsPath.exists_ in Hex'.
  apply orb_false_elim in Hex' as [Hf Hdir].
  apply bool_decide_eq_false in Hf. rewrite <- eq_None_not_Some in Hf.
  erewrite io_bind_Normal; [| reflexivity]. cbv beta. rewrite Hex. cbn [negb]. cbv iota.
  erewrite io_bind_Normal; [| by apply write_file_new; auto]. cbv beta.
  erewrite io_bind_Normal; [| reflexivity]. cbv beta.
  unfold try_chmod, with_generated_key. simpl. rewrite lookup_insert_eq.
  destruct chmod_supported; eexists; (split; [reflexivity|]); simpl;
    [by rewrite insert_insert_eq | done].
Qed.

End KeyGeneration.

(** A fresh machine: no file, no directory, nothing written yet. *)
Definition empty_world : world := World ∅ ∅ [] [] None.

Section BareKeyPath.
Context `{Libraries}.

(** C9 (defect): a key path without a directory part.  [_ensure_key_exists]
    begins with [os.makedirs(os.path.dirname(self.key_path), exist_ok=True)];
    for a bare file name the directory part is the empty string, and
    [os.makedirs('')] raises [FileNotFoundError] before the key is looked
    at.  So for every such key path, in every state of the disk (key file
    present or not), both constructors raise, nothing is generated and
    nothing is written. *)
Theorem bare_key_path_generates_nothing (key_path : string) (r : bytes) (w : world) :
  OsPath.dirname key_path = "" →
  ModelEncryption_init key_path r w = (Raised (FileNotFoundError ""), w)
  ∧ SecureModelLoader_init key_path r w = (Raised (FileNotFoundError ""), w).
Proof.
  intros Hd.
  assert (Hinit : ModelEncryption_init key_path r w = (Raised (FileNotFoundError ""), w)).
  { unfold ModelEncryption_init, _ensure_key_exists, io_bind, os_makedirs. by rewrite Hd. }
  split; [done|]. unfold SecureModelLoader_init, io_bind. by rewrite Hinit.
Qed.

End BareKeyPath.

Lemma bare_key_path_generates_nothing_witness :
  ModelEncryption_init "model.key" [] empty_world
  = (Raised (FileNotFoundError ""), empty_world)
  ∧ SecureModelLoader_init "model.key" [] empty_world
    = (Raised (FileNotFoundError ""), empty_world).
Proof. apply (bare_key_path_generates_nothing "model.key" [] empty_world). reflexivity. Defined.

(** The same file named with a directory part: the key is generated. *)
Example dotted_key_path_generates :
  (ModelEncryption_init "./model.key" [] empty_world).1
  = Normal (Build_ModelEncryption "./model.key" (fernet_generate_key []))
  ∧ w_files (ModelEncryption_init "./model.key" [] empty_world).2
    = {[ "./model.key" := File (fernet_generate_key []) mode_0o600 ]}
  ∧ exn_msg (FileNotFoundError "") = "[Errno 2] No such file or directory: ''".
Proof. repeat split; vm_compute; reflexivity. Qed.

(** ** The worker ([inference_server.py]) *)

(** JSON values, as [json.loads] builds them and [json.dumps] prints
    them; an object keeps its keys in insertion order. *)
Inductive json : Type :=
| JNull
| JBool (b : bool)
| JInt (n : Z)
| JFloat (x : float)
| JStr (s : string)
| JArr (items : list json)
| JObj (fields : list (string * json)).

(** [d.get(k)] on the fields of a dictionary *)
Fixpoint dict_get {V : Type} (k : string) (d : list (string * V)) : option V :=
  match d with
  | [] => None
  | (k', v) :: rest => if String.eqb k k' then Some v else dict_get k rest
  end.

(** [type(v).__name__] *)
Definition type_name (v : json) : string :=
  match v with
  | JNull => "NoneType"
  | JBool _ => "bool"
  | JInt _ => "int"
  | JFloat _ => "float"
  | JStr _ => "str"
  | JArr _ => "list"
  | JObj _ => "dict"
  end.

(** [bool(v)]: what [if not v] tests. *)
Definition truthy (v : json) : bool :=
  match v with
  | JNull => false
  | JBool b => b
  | JInt n => negb (Z.eqb n 0)
  | JFloat x => negb (PrimFloat.eqb x 0)
  | JStr s => negb (String.eqb s "")
  | JArr items => negb (bool_decide (items = []))
  | JObj fields => negb (bool_decide (fields = []))
  end.

(** [request.get('imagePath')]: only a dictionary has [get]; a missing
    key gives [None]. *)
Definition request_get (request : json) (k : string) : res json :=
  match request with
  | JObj fields => Ok (default JNull (dict_get k fields))
  | v => Raise (Exn "AttributeError"
                    ("'" +:+ type_name v +:+ "' object has no attribute 'get'"))
  end.

(** The environment of the worker. *)
Record config := Config {
  MODEL_PATH : string;
  MODEL_KEY_PATH : string;
  WORKER_ID : string
}.

(** The remaining library calls of the worker.

    [json_loads], [json_dumps], [str_strip] ([line.strip()]) and [repr]
    ([str(v)] of a value that is not a string) are Python's;
    [fd_open n] says whether [n] is an open file descriptor (what
    [os.path.exists] tests on an integer).  [cv2_imread] decodes an image
    from the files ([None] when it cannot), [prepare] is the rest of
    [preprocess_image] with [img.to(DEVICE)], and [infer model img] is
    [torch.softmax(model(img), dim=1)[0].cpu().numpy()], its entries as
    [float(...)] gives them.  [f32_times100 p] is [float(p * 100)] in
    float32, [format_percent x] is [f"{x:.1f}"], and [format_exc] is
    [traceback.format_exc()] for the exception being handled. *)
Class Runtime `{Libraries} := {
  json_loads : string → res json;
  json_dumps : json → string;
  str_strip : string → string;
  repr : json → string;
  fd_open : Z → bool;
  image : Type;
  tensor : Type;
  cv2_imread : gmap string file → json → res (option image);
  prepare : image → res tensor;
  infer : model → tensor → res (list float);
  f32_times100 : float → float;
  format_percent : float → string;
  format_exc : exn → string
}.

Definition LF : string := String (Ascii.ascii_of_nat 10) EmptyString.

(** [np.argmax]: the index of the first largest entry (of a vector
    without NaN). *)
Fixpoint argmax_from (best_index : nat) (best : float) (i : nat) (l : list float) : nat :=
  match l with
  | [] => best_index
  | x :: rest =>
      if PrimFloat.ltb best x then argmax_from i x (S i) rest
      else argmax_from best_index best (S i) rest
  end.

Definition argmax (l : list float) : res nat :=
  match l with
  | [] => Raise (ValueError "attempt to get argmax of an empty sequence")
  | x :: rest => Ok (argmax_from 0 x 1 rest)
  end.

(** The [explanations] table of [generate_explanation]. *)
Definition explanations : list (string * string) :=
  [ ("Healthy", "Plant appears healthy with no visible issues detected.");
    ("Pest_Fungal", "Fungal infection detected. Look for powdery spots, mold, or discoloration. Treatment: Apply fungicide and improve air circulation.");
    ("Pest_Bacterial", "Bacterial infection detected. Water-soaked lesions or wilting observed. Treatment: Use copper-based bactericide and remove infected parts.");
    ("Pest_Insect", "Insect damage detected. Holes, chewed edges, or insect presence. Treatment: Apply appropriate insecticide or use neem oil.");
    ("Nutrient_Nitrogen", "Nitrogen deficiency detected. Yellowing of older leaves, stunted growth. Treatment: Apply nitrogen-rich fertilizer.");
    ("Nutrient_Potassium", "Potassium deficiency detected. Leaf edge browning, weak stems. Treatment: Apply potassium fertilizer.");
    ("Water_Stress", "Water stress detected. Wilting or dry soil conditions. Treatment: Adjust watering schedule.");
    ("Not_Plant", "This is not a plant image. Please upload a clear image of a plant leaf for disease detection.") ].

(** The [recommendations] table of [get_recommendations]. *)
Definition recommendations : list (string * list string) :=
  [ ("Healthy", ["Continue current care routine"; "Monitor for any changes";
                 "Maintain proper watering and sunlight"]);
    ("Pest_Fungal", ["Apply fungicide (copper-based or organic)";
                     "Improve air circulation around plant"; "Remove affected leaves";
                     "Reduce humidity if possible"]);
    ("Pest_Bacterial", ["Use copper-based bactericide"; "Remove and destroy infected parts";
                        "Avoid overhead watering"; "Sterilize tools between plants"]);
    ("Pest_Insect", ["Identify specific insect pest"; "Apply appropriate insecticide";
                     "Use neem oil for organic treatment"; "Introduce beneficial insects"]);
    ("Nutrient_Nitrogen", ["Apply nitrogen-rich fertilizer"; "Use compost or manure";
                           "Consider foliar feeding"; "Test soil pH"]);
    ("Nutrient_Potassium", ["Apply potassium fertilizer"; "Use wood ash or kelp meal";
                            "Avoid over-fertilization with nitrogen"; "Monitor leaf symptoms"]);
    ("Water_Stress", ["Adjust watering schedule"; "Check soil moisture regularly";
                      "Improve drainage if waterlogged"; "Mulch to retain moisture"]);
    ("Not_Plant", ["Please upload a clear image of a plant leaf for disease detection."]) ].

(** [get_recommendations] *)
Definition get_recommendations (predicted_class : string) : list string :=
  default ["Consult agricultural expert"] (dict_get predicted_class recommendations).

Section Worker.
Context `{Libraries} `{!Runtime}.
Variable cfg : config.
Local Open Scope io_scope.

(** [sys.exit(code)] *)
Definition sys_exit {A : Type} (code : Z) : io A := λ w, (Exiting code, w).

(** [signal_handler], installed by [main] for SIGINT and SIGTERM. *)
Definition signal_handler {A : Type} : io A :=
  stderr_write (LF +:+ "Worker " +:+ WORKER_ID cfg +:+ ": Received shutdown signal") ;;;
  sys_exit 0.

(** A point where the interpreter runs the handler of a signal that has
    arrived: the worker passes one before each of its statements that
    calls out or writes. *)
Definition tick : io unit := λ w,
  match w_signal w with
  | None => (Normal (), w)
  | Some (S n) =>
      (Normal (), World (w_files w) (w_dirs w) (w_stdout w) (w_stderr w) (Some n))
  | Some O =>
      signal_handler (World (w_files w) (w_dirs w) (w_stdout w) (w_stderr w) None)
  end.

(** [try: body except Exception as e: handler(e)] *)
Definition try_except {A : Type} (body : io A) (handler : exn → io A) : io A := λ w,
  match body w with
  | (Raised e, w') => handler e w'
  | other => other
  end.

(** [str(v)], as an f-string prints a value. *)
Definition py_str (v : json) : string :=
  match v with
  | JStr s => s
  | _ => repr v
  end.

(** [os.path.exists(v)] for a value out of a request: a path is looked
    up, an integer is a file descriptor (and must fit a C [int]: past
    that [os.stat] raises [OverflowError], which [os.path.exists] does not
    catch), anything else is a type error of [os.stat]. *)
Definition os_path_exists_value (v : json) : io bool :=
  match v with
  | JStr p => os_path_exists p
  | JInt n =>
      if (n <? -2147483648)%Z then raise (Exn "OverflowError" "fd is less than minimum")
      else if (2147483647 <? n)%Z then raise (Exn "OverflowError" "fd is greater than maximum")
      else io_ret (fd_open n)
  | JBool b => io_ret (fd_open (if b then 1 else 0))
  | _ => raise (Exn "TypeError"
                    ("stat: path should be string, bytes, os.PathLike or integer, not "
                     +:+ type_name v))
  end.

(** [load_model_securely]; [r] is the randomness a key generation would
    draw. *)
Definition load_model_securely (r : bytes) : io model :=
  tick ;;;
  stderr_write ("🔐 Loading encrypted model from " +:+ MODEL_PATH cfg) ;;;
  tick ;;;
  model_present <- os_path_exists (MODEL_PATH cfg) ;;
  if negb model_present
  then raise (Exn "FileNotFoundError" ("Encrypted model not found: " +:+ MODEL_PATH cfg))
  else
    key_present <- os_path_exists (MODEL_KEY_PATH cfg) ;;
    if negb key_present
    then raise (Exn "FileNotFoundError"
                    ("Encryption key not found: " +:+ MODEL_KEY_PATH cfg))
    else
      tick ;;;
      loader <- SecureModelLoader_init (MODEL_KEY_PATH cfg) r ;;
      tick ;;;
      model <- load_encrypted_model loader (MODEL_PATH cfg) ;;
      tick ;;;
      stderr_write "✅ Model loaded securely" ;;;
      io_ret model.

(** [preprocess_image] *)
Definition preprocess_image (image_path : json) : io tensor :=
  tick ;;;
  img <- (λ w, lift (cv2_imread (w_files w) image_path) w) ;;
  match img with
  | None => raise (ValueError ("Cannot read image: " +:+ py_str image_path))
  | Some img => tick ;;; lift (prepare img)
  end.

(** [generate_explanation] *)
Definition generate_explanation (predicted_class : string) (confidence : float)
    (conf_level : string) : string :=
  let explanation :=
    default ("Plant classified as " +:+ predicted_class +:+ ".")
            (dict_get predicted_class explanations) in
  let explanation :=
    explanation +:+ " Confidence level: " +:+ conf_level +:+ " ("
    +:+ format_percent (PrimFloat.mul confidence 100) +:+ "%)." in
  if String.eqb conf_level "Low"
  then explanation +:+ " Manual inspection recommended for confirmation."
  else explanation.

Definition entry_json (e : prob_entry) : json :=
  JObj [ ("class", JStr (pe_class e));
         ("confidence", JFloat (pe_confidence e));
         ("confidence_percentage", JFloat (pe_confidence_percentage e)) ].

(** The part of [predict] after the forward pass: from the probability
    vector to the result dictionary. *)
Definition classification (probabilities : list float) : res json :=
  predicted_idx ← argmax probabilities;
  predicted_class ← match classes !! predicted_idx with
                     | Some c => Ok c
                     | None => Raise (Exn "IndexError" "list index out of range")
                     end;
  let confidence := default 0%float (probabilities !! predicted_idx) in
  let '(category, subtype) := parse_class_name predicted_class in
  let confidence_level := get_confidence_level confidence in
  all_probs ← all_probabilities f32_times100 probabilities;
  let explanation := generate_explanation predicted_class confidence confidence_level in
  Ok (JObj [ ("predicted_class", JStr predicted_class);
             ("category", JStr category);
             ("subtype", match subtype with Some s => JStr s | None => JNull end);
             ("confidence", JFloat confidence);
             ("confidence_percentage", JFloat (PrimFloat.mul confidence 100));
             ("confidence_level", JStr confidence_level);
             ("all_probabilities", JArr (entry_json <$> all_probs));
             ("explanation", JStr explanation);
             ("recommendations", JArr (JStr <$> get_recommendations predicted_class));
             ("model_version", JStr "v1.0.0");
             ("model_name", JStr "efficientnet_b2") ]).

(** [predict], with the global [_model] as an argument. *)
Definition predict (model : model) (image_path : json) : io json :=
  img <- preprocess_image image_path ;;
  tick ;;;
  probabilities <- lift (infer model img) ;;
  lift (classification probabilities).

(** The two shapes of a response. *)
Definition success_response (result : json) : json :=
  JObj [ ("success", JBool true); ("data", result) ].

Definition error_response (e : exn) : json :=
  JObj [ ("success", JBool false);
         ("error", JStr (exn_msg e));
         ("error_type", JStr (exn_type e)) ].

(** The body of the [try] in the loop of [run_server], for one line. *)
Definition request_body (model : model) (line : string) : io unit :=
  request <- lift (json_loads (str_strip line)) ;;
  image_path <- lift (request_get request "imagePath") ;;
  if negb (truthy image_path) then raise (ValueError "No imagePath provided")
  else
    tick ;;;
    present <- os_path_exists_value image_path ;;
    if negb present
    then raise (Exn "FileNotFoundError" ("Image not found: " +:+ py_str image_path))
    else
      result <- predict model image_path ;;
      tick ;;;
      stdout_write (json_dumps (success_response result)) ;;;
      tick ;;;
      stderr_write ("Worker " +:+ WORKER_ID cfg +:+ ": Prediction complete for "
                    +:+ py_str image_path).

(** The [except Exception as e] clause. *)
Definition request_handler (e : exn) : io unit :=
  tick ;;;
  stderr_write ("Worker " +:+ WORKER_ID cfg +:+ ": Error processing request: "
                +:+ exn_msg e) ;;;
  tick ;;;
  stderr_write (format_exc e) ;;;
  tick ;;;
  stdout_write (json_dumps (error_response e)).

(** [for line in sys.stdin: ...]: [lines] are the lines that arrive
    before the input ends. *)
Fixpoint serve (model : model) (lines : list string) : io unit :=
  match lines with
  | [] => io_ret ()
  | line :: rest =>
      tick ;;;
      try_except (request_body model line) request_handler ;;;
      serve model rest
  end.

(** [run_server] *)
Definition run_server (r : bytes) (lines : list string) : io unit :=
  tick ;;;
  stderr_write ("Worker " +:+ WORKER_ID cfg +:+ ": Initializing...") ;;;
  model <- load_model_securely r ;;
  tick ;;;
  stdout_write "READY" ;;;
  tick ;;;
  stderr_write ("Worker " +:+ WORKER_ID cfg +:+ ": Ready to process requests") ;;;
  serve model lines.

(** [main]; [argv] is [sys.argv[1:]]. *)
Definition main (r : bytes) (argv : list string) (lines : list string) : io unit :=
  match argv with
  | "--server-mode" :: _ => run_server r lines
  | _ =>
      try_except
        (match argv with
         | [] => raise (ValueError "No image path provided")
         | image_path :: _ =>
             tick ;;;
             present <- os_path_exists image_path ;;
             if negb present
             then raise (Exn "FileNotFoundError" ("Image not found: " +:+ image_path))
             else
               model <- load_model_securely r ;;
               result <- predict model (JStr image_path) ;;
               tick ;;;
               stdout_write (json_dumps (success_response result))
         end)
        (λ e, tick ;;; stdout_write (json_dumps (error_response e)) ;;; sys_exit 1)
  end.

(** The exit status of the process: 0 when [main] returns, 1 when an
    exception escapes it (the interpreter prints the traceback), the
    argument of [sys.exit] otherwise. *)
Definition run_process (r : bytes) (argv : list string) (lines : list string) (w : world)
    : Z * world :=
  match main r argv lines w with
  | (Normal _, w') => (0%Z, w')
  | (Raised e, w') => (1%Z, add_stderr (format_exc e) w')
  | (Exiting code, w') => (code, w')
  end.

End Worker.

(** ** The worker against a signal

    The serving code is compared with what it computes when no signal
    arrives.  [refines w0 m out r]: in any world with the files and
    directories of [w0], [m] leaves them alone and either ends as [r]
    says, having written exactly [out] to the protocol channel, or is
    stopped by the signal handler, with status 0, having written only a
    prefix of [out]. *)

Definition refines {A : Type} (w0 : world) (m : io A) (out : list string) (r : res A)
    : Prop :=
  ∀ w, w_files w = w_files w0 → w_dirs w = w_dirs w0 →
    ∃ f w' o,
      m w = (f, w') ∧ w_files w' = w_files w0 ∧ w_dirs w' = w_dirs w0
      ∧ w_stdout w' = w_stdout w ++ o
      ∧ ((o = out ∧ (w_signal w = None → w_signal w' = None)
          ∧ match r with Ok a => f = Normal a | Raise e => f = Raised e end)
         ∨ (f = Exiting 0 ∧ w_signal w ≠ None ∧ o `prefix_of` out)).

Section Refinement.
Context `{Libraries} `{!Runtime}.
Variable cfg : config.
Variable w0 : world.

Lemma refines_ret {A : Type} (a : A) : refines w0 (io_ret a) [] (Ok a).
Proof.
  intros w Hf Hd. exists (Normal a), w, []. rewrite app_nil_r.
  repeat split; auto.
Qed.

Lemma refines_raise {A : Type} (e : exn) : refines w0 (raise (A := A) e) [] (Raise e).
Proof.
  intros w Hf Hd. exists (Raised e), w, []. rewrite app_nil_r.
  repeat split; auto.
Qed.

Lemma refines_lift {A : Type} (r : res A) : refines w0 (lift r) [] r.
Proof. destruct r; [apply refines_ret | apply refines_raise]. Qed.

Lemma refines_stderr_write (s : string) : refines w0 (stderr_write s) [] (Ok ()).
Proof.
  intros w Hf Hd. exists (Normal ()), (add_stderr s w), []. simpl. rewrite app_nil_r.
  repeat split; auto.
Qed.

Lemma refines_stdout_write (s : string) : refines w0 (stdout_write s) [s] (Ok ()).
Proof.
  intros w Hf Hd. exists (Normal ()), (add_stdout s w), [s]. simpl.
  repeat split; auto.
Qed.

Lemma refines_tick : refines w0 (tick cfg) [] (Ok ()).
Proof.
  intros w Hf Hd. unfold tick. destruct (w_signal w) as [[|n]|] eqn:Hs.
  - eexists _, _, []. split; [reflexivity|]. simpl. rewrite app_nil_r.
    do 3 (split; [done|]). right. split; [done|]. split; [done | apply prefix_nil].
  - eexists _, _, []. split; [reflexivity|]. simpl. rewrite app_nil_r.
    do 3 (split; [done|]). left. by repeat split.
  - exists (Normal ()), w, []. rewrite app_nil_r.
    do 4 (split; [done|]). left. by repeat split.
Qed.

Lemma exists_same_fs (p : string) (w : world) :
  w_files w = w_files w0 → w_dirs w = w_dirs w0 → OsPath.exists_ p w = OsPath.exists_ p w0.
Proof. intros Hf Hd. unfold OsPath.exists_, OsPath.isdir. by rewrite Hf, Hd. Qed.

Lemma refines_os_path_exists (p : string) :
  refines w0 (os_path_exists p) [] (Ok (OsPath.exists_ p w0)).
Proof.
  intros w Hf Hd. exists (Normal (OsPath.exists_ p w)), w, []. rewrite app_nil_r.
  repeat split; auto. left. repeat split; auto. by rewrite (exists_same_fs p w).
Qed.

Lemma refines_bind {A B : Type} (m : io A) (k : A → io B)
    (o1 : list string) (r1 : res A) (o : list string) (r : res B) :
  refines w0 m o1 r1 →
  match r1 with
  | Ok a => ∃ o2, refines w0 (k a) o2 r ∧ o = o1 ++ o2
  | Raise e => o = o1 ∧ r = Raise e
  end →
  refines w0 (io_bind m k) o r.
Proof.
  intros Hm Hk w Hf Hd.
  destruct (Hm w Hf Hd) as (f & w' & o' & Hrun & Hf' & Hd' & Hout & Hcase).
  unfold io_bind. rewrite Hrun.
  destruct Hcase as [(-> & Hq & Hres) | (-> & Hs & Hpre)].
  - destruct r1 as [a|e]; subst f.
    + destruct Hk as (o2 & Hka & ->).
      destruct (Hka w' Hf' Hd') as (f2 & w'' & o'' & Hrun2 & Hf'' & Hd'' & Hout2 & Hcase2).
      exists f2, w'', (o1 ++ o''). rewrite Hrun2, Hout2, Hout, app_assoc.
      repeat split; auto.
      destruct Hcase2 as [(-> & Hq2 & Hres2) | (-> & Hs2 & Hpre2)].
      * left. repeat split; auto.
      * right. repeat split; auto. by apply prefix_app.
    + destruct Hk as [-> ->]. exists (Raised e), w', o1. repeat split; auto.
  - exists (Exiting 0), w', o'. repeat split; auto. right. repeat split; auto.
    destruct r1 as [a|e].
    + destruct Hk as (o2 & _ & ->). by apply prefix_app_r.
    + by destruct Hk as [-> _].
Qed.

Lemma refines_try_except {A : Type} (body : io A) (handler : exn → io A)
    (o1 : list string) (r1 : res A) (o : list string) (r : res A) :
  refines w0 body o1 r1 →
  match r1 with
  | Ok a => o = o1 ∧ r = Ok a
  | Raise e => ∃ o2, refines w0 (handler e) o2 r ∧ o = o1 ++ o2
  end →
  refines w0 (try_except body handler) o r.
Proof.
  intros Hm Hk w Hf Hd.
  destruct (Hm w Hf Hd) as (f & w' & o' & Hrun & Hf' & Hd' & Hout & Hcase).
  unfold try_except. rewrite Hrun.
  destruct Hcase as [(-> & Hq & Hres) | (-> & Hs & Hpre)].
  - destruct r1 as [a|e]; subst f.
    + destruct Hk as [-> ->]. exists (Normal a), w', o1. repeat split; auto.
    + destruct Hk as (o2 & Hka & ->).
      destruct (Hka w' Hf' Hd') as (f2 & w'' & o'' & Hrun2 & Hf'' & Hd'' & Hout2 & Hcase2).
      exists f2, w'', (o1 ++ o''). rewrite Hrun2, Hout2, Hout, app_assoc.
      repeat split; auto.
      destruct Hcase2 as [(-> & Hq2 & Hres2) | (-> & Hs2 & Hpre2)].
      * left. repeat split; auto.
      * right. repeat split; auto. by apply prefix_app.
  - exists (Exiting 0), w', o'. repeat split; auto. right. repeat split; auto.
    destruct r1 as [a|e].
    + by destruct Hk as [-> _].
    + destruct Hk as (o2 & _ & ->). by apply prefix_app_r.
Qed.

End Refinement.

(** *** What a request line is answered with *)

Section Responses.
Context `{Libraries} `{!Runtime}.
Variable cfg : config.

(** [os.path.exists] of a request value, files and directories as in
    [w0]. *)
Definition exists_value (w0 : world) (v : json) : res bool :=
  match v with
  | JStr p => Ok (OsPath.exists_ p w0)
  | JInt n =>
      if (n <? -2147483648)%Z then Raise (Exn "OverflowError" "fd is less than minimum")
      else if (2147483647 <? n)%Z then Raise (Exn "OverflowError" "fd is greater than maximum")
      else Ok (fd_open n)
  | JBool b => Ok (fd_open (if b then 1 else 0))
  | _ => Raise (Exn "TypeError"
                    ("stat: path should be string, bytes, os.PathLike or integer, not "
                     +:+ type_name v))
  end.

(** What [predict] returns or raises. *)
Definition predict_result (model : model) (w0 : world) (image_path : json) : res json :=
  img ← cv2_imread (w_files w0) image_path;
  match img with
  | None => Raise (ValueError ("Cannot read image: " +:+ py_str image_path))
  | Some img =>
      t ← prepare img;
      probabilities ← infer model t;
      classification probabilities
  end.

(** What handling a request line comes to: the classification result, or
    the exception raised on the way. *)
Definition request_result (model : model) (w0 : world) (line : string) : res json :=
  request ← json_loads (str_strip line);
  image_path ← request_get request "imagePath";
  if negb (truthy image_path) then Raise (ValueError "No imagePath provided")
  else
    present ← exists_value w0 image_path;
    if negb present
    then Raise (Exn "FileNotFoundError" ("Image not found: " +:+ py_str image_path))
    else predict_result model w0 image_path.

(** The response to a line, and the line written for it. *)
Definition response_to (model : model) (w0 : world) (line : string) : json :=
  match request_result model w0 line with
  | Ok data => success_response data
  | Raise e => error_response e
  end.

Definition response_line (model : model) (w0 : world) (line : string) : string :=
  json_dumps (response_to model w0 line).

Lemma refines_exists_value (w0 : world) (v : json) :
  refines w0 (os_path_exists_value v) [] (exists_value w0 v).
Proof.
  destruct v; simpl; repeat case_match;
    first [apply refines_os_path_exists | apply refines_ret | apply refines_raise].
Qed.

Lemma refines_imread (w0 : world) (image_path : json) :
  refines w0 (λ w, lift (cv2_imread (w_files w) image_path) w) []
          (cv2_imread (w_files w0) image_path).
Proof.
  intros w Hf Hd. rewrite Hf. by apply refines_lift.
Qed.

Lemma refines_predict (model : model) (w0 : world) (image_path : json) :
  refines w0 (predict cfg model image_path) [] (predict_result model w0 image_path).
Proof.
  unfold predict, preprocess_image, predict_result.
  eapply refines_bind.
  - (* preprocess_image *)
    eapply refines_bind with
      (r := img ← cv2_imread (w_files w0) image_path;
            match img with
            | None => Raise (ValueError ("Cannot read image: " +:+ py_str image_path))
            | Some img => prepare img
            end); [apply refines_tick |].
    exists []. split; [|done].
    eapply refines_bind; [apply refines_imread |].
    destruct (cv2_imread (w_files w0) image_path) as [[img|]|e]; simpl.
    + exists []. split; [|done].
      eapply refines_bind; [apply refines_tick |]. exists []. split; [|done].
      apply refines_lift.
    + exists []. split; [|done]. apply refines_raise.
    + done.
  - destruct (cv2_imread (w_files w0) image_path) as [[img|]|e]; simpl; [| done..].
    destruct (prepare img) as [t|e]; simpl; [|done].
    exists []. split; [|done].
    eapply refines_bind; [apply refines_tick |]. exists []. split; [|done].
    eapply refines_bind; [apply refines_lift |].
    destruct (infer model t) as [probabilities|e]; simpl; [|done].
    exists []. split; [|done]. apply refines_lift.
Qed.

(** The body of the [try] writes the success line when the request
    succeeds and nothing when it raises. *)
Lemma refines_request_body (model : model) (w0 : world) (line : string) :
  refines w0 (request_body cfg model line)
    (match request_result model w0 line with
     | Ok data => [json_dumps (success_response data)]
     | Raise _ => []
     end)
    (match request_result model w0 line with
     | Ok _ => Ok ()
     | Raise e => Raise e
     end).
Proof.
  unfold request_body, request_result.
  eapply refines_bind; [apply refines_lift |].
  destruct (json_loads (str_strip line)) as [request|e]; simpl; [|done].
  eexists. split; [|reflexivity].
  eapply refines_bind; [apply refines_lift |].
  destruct (request_get request "imagePath") as [image_path|e]; simpl; [|done].
  eexists. split; [|reflexivity].
  destruct (truthy image_path); simpl; [|apply refines_raise].
  eapply refines_bind; [apply refines_tick |]. eexists. split; [|reflexivity].
  eapply refines_bind; [apply refines_exists_value |].
  destruct (exists_value w0 image_path) as [[|]|e]; simpl; [| | done].
  - eexists. split; [|reflexivity].
    eapply refines_bind; [apply refines_predict |].
    destruct (predict_result model w0 image_path) as [result|e]; simpl; [|done].
    eexists. split; [|reflexivity].
    eapply refines_bind; [apply refines_tick |]. eexists. split; [|reflexivity].
    eapply refines_bind; [apply refines_stdout_write |]. eexists. split; [|reflexivity].
    eapply refines_bind; [apply refines_tick |]. eexists. split; [|reflexivity].
    apply refines_stderr_write.
  - eexists. split; [|reflexivity]. apply refines_raise.
Qed.

Lemma refines_request_handler (w0 : world) (e : exn) :
  refines w0 (request_handler cfg e) [json_dumps (error_response e)] (Ok ()).
Proof.
  unfold request_handler.
  eapply refines_bind; [apply refines_tick |]. eexists. split; [|reflexivity].
  eapply refines_bind; [apply refines_stderr_write |]. eexists. split; [|reflexivity].
  eapply refines_bind; [apply refines_tick |]. eexists. split; [|reflexivity].
  eapply refines_bind; [apply refines_stderr_write |]. eexists. split; [|reflexivity].
  eapply refines_bind; [apply refines_tick |]. eexists. split; [|reflexivity].
  apply refines_stdout_write.
Qed.

(** A request, handled: exactly its response line, and the loop goes on. *)
Lemma refines_request (model : model) (w0 : world) (line : string) :
  refines w0 (try_except (request_body cfg model line) (request_handler cfg))
          [response_line model w0 line] (Ok ()).
Proof.
  eapply refines_try_except; [apply refines_request_body |].
  unfold response_line, response_to.
  destruct (request_result model w0 line) as [data|e]; [done|].
  eexists. split; [apply refines_request_handler | done].
Qed.

Lemma refines_serve (model : model) (w0 : world) (lines : list string) :
  refines w0 (serve cfg model lines) (response_line model w0 <$> lines) (Ok ()).
Proof.
  induction lines as [|line rest IH]; simpl.
  - apply refines_ret.
  - eapply refines_bind; [apply refines_tick |]. eexists. split; [|reflexivity].
    eapply refines_bind; [apply refines_request |]. eexists. split; [exact IH | done].
Qed.

(** From the readiness marker on. *)
Definition ready_and_serve (model : model) (lines : list string) : io unit :=
  io_bind (tick cfg) (λ _,
    io_bind (stdout_write "READY") (λ _,
      io_bind (tick cfg) (λ _,
        io_bind (stderr_write ("Worker " +:+ WORKER_ID cfg +:+ ": Ready to process requests"))
          (λ _, serve cfg model lines)))).

Lemma refines_ready_and_serve (model : model) (w0 : world) (lines : list string) :
  refines w0 (ready_and_serve model lines)
          ("READY" :: (response_line model w0 <$> lines)) (Ok ()).
Proof.
  unfold ready_and_serve.
  eapply refines_bind; [apply refines_tick |]. eexists. split; [|reflexivity].
  eapply refines_bind; [apply refines_stdout_write |]. eexists. split; [|reflexivity].
  eapply refines_bind; [apply refines_tick |]. eexists. split; [|reflexivity].
  eapply refines_bind; [apply refines_stderr_write |]. eexists. split; [|reflexivity].
  apply refines_serve.
Qed.

End Responses.

(** *** The loader and signals

    The loader has no delivery point of its own: it neither exits nor
    touches the pending signal. *)

Definition keeps_signal {A : Type} (m : io A) : Prop :=
  ∀ w, w_signal (m w).2 = w_signal w ∧ ∀ c, (m w).1 ≠ Exiting c.

Lemma keeps_ret {A : Type} (a : A) : keeps_signal (io_ret a).
Proof. by intros w. Qed.

Lemma keeps_raise {A : Type} (e : exn) : keeps_signal (raise (A := A) e).
Proof. by intros w. Qed.

Lemma keeps_lift {A : Type} (r : res A) : keeps_signal (lift r).
Proof. destruct r; [apply keeps_ret | apply keeps_raise]. Qed.

Lemma keeps_bind {A B : Type} (m : io A) (k : A → io B) :
  keeps_signal m → (∀ a, keeps_signal (k a)) → keeps_signal (io_bind m k).
Proof.
  intros Hm Hk w. unfold io_bind. destruct (Hm w) as [Hs Hx].
  destruct (m w) as [[a|e|c] w']; simpl in *.
  - destruct (Hk a w') as [Hs' Hx']. split; [congruence | done].
  - done.
  - by destruct (Hx c).
Qed.

Lemma keeps_stdout_write (s : string) : keeps_signal (stdout_write s).
Proof. by intros w. Qed.

Lemma keeps_stderr_write (s : string) : keeps_signal (stderr_write s).
Proof. by intros w. Qed.

Lemma keeps_os_path_exists (p : string) : keeps_signal (os_path_exists p).
Proof. by intros w. Qed.

Lemma keeps_os_makedirs (d : string) : keeps_signal (os_makedirs d).
Proof. intros w. unfold os_makedirs. by repeat case_match. Qed.

Lemma keeps_read_file (p : string) : keeps_signal (read_file p).
Proof. intros w. unfold read_file. by repeat case_match. Qed.

Lemma keeps_write_file (mode : N) (p : string) (data : bytes) :
  keeps_signal (write_file mode p data).
Proof. intros w. unfold write_file. by repeat case_match. Qed.

Lemma keeps_try_chmod (supported : bool) (p : string) (mode : N) :
  keeps_signal (try_chmod supported p mode).
Proof. intros w. unfold try_chmod. by repeat case_match. Qed.

Create HintDb keeps.
#[global] Hint Resolve keeps_ret keeps_raise keeps_lift keeps_stdout_write
  keeps_stderr_write keeps_os_path_exists keeps_os_makedirs keeps_read_file
  keeps_write_file keeps_try_chmod : keeps.

Ltac keeps :=
  repeat first
    [ apply keeps_bind; [| intros ?]
    | progress eauto with keeps
    | match goal with |- keeps_signal (if ?b then _ else _) => destruct b end
    | match goal with |- keeps_signal (match ?x with _ => _ end) => destruct x end ].

Section LoaderSignals.
Context `{Libraries}.

Lemma keeps_ModelEncryption_init (key_path : string) (r : bytes) :
  keeps_signal (ModelEncryption_init key_path r).
Proof. unfold ModelEncryption_init, _ensure_key_exists, _load_key. keeps. Qed.

Lemma keeps_decrypt_model (self : ModelEncryption) (path : string) :
  keeps_signal (decrypt_model self path).
Proof. unfold decrypt_model. keeps. Qed.

Lemma keeps_SecureModelLoader_init (key_path : string) (r : bytes) :
  keeps_signal (SecureModelLoader_init key_path r).
Proof.
  unfold SecureModelLoader_init.
  apply keeps_bind; [apply keeps_ModelEncryption_init | intros; apply keeps_ret].
Qed.

Lemma keeps_load_encrypted_model (self : SecureModelLoader) (path : string) :
  keeps_signal (load_encrypted_model self path).
Proof.
  unfold load_encrypted_model.
  apply keeps_bind; [apply keeps_decrypt_model | intros ?]. keeps.
Qed.

End LoaderSignals.

(** With no signal on its way, nothing exits and none appears. *)
Definition quiet {A : Type} (m : io A) : Prop :=
  ∀ w, w_signal w = None → w_signal (m w).2 = None ∧ ∀ c, (m w).1 ≠ Exiting c.

Lemma keeps_quiet {A : Type} (m : io A) : keeps_signal m → quiet m.
Proof. intros Hm w Hw. destruct (Hm w) as [Hs Hx]. split; [congruence | done]. Qed.

Lemma quiet_bind {A B : Type} (m : io A) (k : A → io B) :
  quiet m → (∀ a, quiet (k a)) → quiet (io_bind m k).
Proof.
  intros Hm Hk w Hw. unfold io_bind. destruct (Hm w Hw) as [Hs Hx].
  destruct (m w) as [[a|e|c] w']; simpl in *.
  - by apply Hk.
  - done.
  - by destruct (Hx c).
Qed.

Section Startup.
Context `{Libraries} `{!Runtime}.
Variable cfg : config.

Lemma tick_no_signal (w : world) : w_signal w = None → tick cfg w = (Normal (), w).
Proof. intros Hw. unfold tick. by rewrite Hw. Qed.

Lemma quiet_tick : quiet (tick cfg).
Proof. intros w Hw. by rewrite tick_no_signal. Qed.

Lemma quiet_load_model_securely (r : bytes) : quiet (load_model_securely cfg r).
Proof.
  unfold load_model_securely.
  repeat first
    [ apply quiet_tick
    | apply keeps_quiet;
      first [ apply keeps_SecureModelLoader_init | apply keeps_load_encrypted_model
            | solve [eauto with keeps] ]
    | apply quiet_bind; [| intros ?]
    | match goal with |- quiet (if ?b then _ else _) => destruct b end ].
Qed.

(** [run_server] up to the call that loads the model. *)
Definition startup (r : bytes) : io model :=
  io_bind (tick cfg) (λ _,
    io_bind (stderr_write ("Worker " +:+ WORKER_ID cfg +:+ ": Initializing..."))
      (λ _, load_model_securely cfg r)).

Lemma quiet_startup (r : bytes) : quiet (startup r).
Proof.
  unfold startup.
  apply quiet_bind; [apply quiet_tick | intros ?].
  apply quiet_bind; [apply keeps_quiet, keeps_stderr_write | intros ?].
  apply quiet_load_model_securely.
Qed.

Lemma run_server_startup (r : bytes) (lines : list string) (w : world) :
  run_server cfg r lines w
  = io_bind (startup r) (λ model, ready_and_serve cfg model lines) w.
Proof.
  unfold run_server, startup, ready_and_serve, io_bind.
  destruct (tick cfg w) as [[[]|e|c] w1]; [|done..].
  destruct (stderr_write _ w1) as [[[]|e|c] w2]; [|done..].
  by destruct (load_model_securely cfg r w2) as [[m|e|c] w3].
Qed.

(** What [run_server] does once the model is loaded, whatever signal is
    on its way. *)
Lemma run_server_ready (r : bytes) (lines : list string) (w w1 : world) (model : model) :
  startup r w = (Normal model, w1) →
  ∃ f w' out,
    run_server cfg r lines w = (f, w')
    ∧ w_stdout w' = w_stdout w1 ++ out
    ∧ ((out = "READY" :: (response_line model w1 <$> lines)
        ∧ (w_signal w1 = None → w_signal w' = None) ∧ f = Normal ())
       ∨ (f = Exiting 0 ∧ w_signal w1 ≠ None
          ∧ out `prefix_of` "READY" :: (response_line model w1 <$> lines))).
Proof.
  intros Hs. rewrite run_server_startup. unfold io_bind at 1. rewrite Hs.
  destruct (refines_ready_and_serve cfg model w1 lines w1 eq_refl eq_refl)
    as (f & w' & out & Hrun & _ & _ & Hout & Hcase).
  exists f, w', out. by repeat split.
Qed.

End Startup.

(** ** The protocol of the worker *)

Section Protocol.
Context `{Libraries} `{!Runtime}.
Variable cfg : config.

(** The failures of a request and the responses they get. *)
Lemma failure_responses (model : model) (w1 : world) (line : string) :
  (∀ e, json_loads (str_strip line) = Raise e →
        response_to model w1 line = error_response e)
  ∧ (∀ fields, json_loads (str_strip line) = Ok (JObj fields) →
        dict_get "imagePath" fields = None →
        response_to model w1 line = error_response (ValueError "No imagePath provided"))
  ∧ (∀ fields p, json_loads (str_strip line) = Ok (JObj fields) →
        dict_get "imagePath" fields = Some (JStr p) → p ≠ "" →
        OsPath.exists_ p w1 = false →
        response_to model w1 line
        = error_response (Exn "FileNotFoundError" ("Image not found: " +:+ p)))
  ∧ (∀ fields p, json_loads (str_strip line) = Ok (JObj fields) →
        dict_get "imagePath" fields = Some (JStr p) → p ≠ "" →
        OsPath.exists_ p w1 = true →
        cv2_imread (w_files w1) (JStr p) = Ok None →
        response_to model w1 line
        = error_response (ValueError ("Cannot read image: " +:+ p)))
  ∧ (∀ fields p img t e, json_loads (str_strip line) = Ok (JObj fields) →
        dict_get "imagePath" fields = Some (JStr p) → p ≠ "" →
        OsPath.exists_ p w1 = true →
        cv2_imread (w_files w1) (JStr p) = Ok (Some img) →
        prepare img = Ok t → infer model t = Raise e →
        response_to model w1 line = error_response e).
Proof.
  unfold response_to, request_result. repeat split.
  - by intros e ->.
  - intros fields -> Hg. simpl. by rewrite Hg.
  - intros fields p -> Hg Hp%String.eqb_neq Hex. simpl. rewrite Hg. simpl.
    by rewrite Hp, Hex.
  - intros fields p -> Hg Hp%String.eqb_neq Hex Him. simpl. rewrite Hg. simpl.
    rewrite Hp, Hex. simpl. unfold predict_result. by rewrite Him.
  - intros fields p img t e -> Hg Hp%String.eqb_neq Hex Him Ht Hi. simpl.
    rewrite Hg. simpl. rewrite Hp, Hex. simpl. unfold predict_result.
    rewrite Him. simpl. rewrite Ht. simpl. by rewrite Hi.
Qed.

(** C3: once the model is loaded and with no termination signal, the
    worker answers every request line with exactly one line on the
    protocol channel, in order, and runs to the end of the input: it
    returns normally, and the process exits with status 0.  A request
    that fails (malformed JSON, no [imagePath], a missing or unreadable
    image, an error of the inference) is answered with the failure
    response of its exception, like any other. *)
Theorem one_response_per_request (r : bytes) (lines : list string) (w w1 : world)
    (model : model) :
  w_signal w = None →
  startup cfg r w = (Normal model, w1) →
  ∃ w',
    run_server cfg r lines w = (Normal (), w')
    ∧ w_stdout w' = w_stdout w1 ++ "READY" :: (response_line model w1 <$> lines)
    ∧ length (response_line model w1 <$> lines) = length lines
    ∧ (run_process cfg r ["--server-mode"] lines w).1 = 0%Z
    ∧ (∀ i line, lines !! i = Some line →
         (response_line model w1 <$> lines) !! i
         = Some (json_dumps
                   match request_result model w1 line with
                   | Ok data => success_response data
                   | Raise e => error_response e
                   end))
    ∧ (∀ line e, json_loads (str_strip line) = Raise e →
         response_to model w1 line = error_response e)
    ∧ (∀ line fields, json_loads (str_strip line) = Ok (JObj fields) →
         dict_get "imagePath" fields = None →
         response_to model w1 line = error_response (ValueError "No imagePath provided"))
    ∧ (∀ line fields p, json_loads (str_strip line) = Ok (JObj fields) →
         dict_get "imagePath" fields = Some (JStr p) → p ≠ "" →
         OsPath.exists_ p w1 = false →
         response_to model w1 line
         = error_response (Exn "FileNotFoundError" ("Image not found: " +:+ p))).
Proof.
  intros Hw Hs.
  destruct (quiet_startup cfg r w Hw) as [Hw1 _]. rewrite Hs in Hw1. simpl in Hw1.
  destruct (run_server_ready cfg r lines w w1 model Hs)
    as (f & w' & out & Hrun & Hout & [(-> & _ & ->) | (_ & Hne & _)]); [|done].
  exists w'. split; [done|]. split; [done|]. split; [apply length_fmap|].
  split; [unfold run_process, main; by rewrite Hrun|].
  split; [intros i line Hi; by rewrite list_lookup_fmap, Hi|].
  split; [intros line; apply (failure_responses model w1 line)|].
  split; intros line; apply (failure_responses model w1 line).
Qed.

(** The shape of a response line: a JSON object with [success] true and
    the result under [data], or with [success] false and the message and
    the class name of the exception under [error] and [error_type]. *)
Definition response_shaped (model : model) (w1 : world) (lines : list string)
    (s : string) : Prop :=
  ∃ line, line ∈ lines
    ∧ ((∃ data, request_result model w1 line = Ok data
                ∧ s = json_dumps (JObj [ ("success", JBool true); ("data", data) ]))
       ∨ (∃ e, request_result model w1 line = Raise e
               ∧ s = json_dumps (JObj [ ("success", JBool false);
                                        ("error", JStr (exn_msg e));
                                        ("error_type", JStr (exn_type e)) ]))).

Lemma response_line_shaped (model : model) (w1 : world) (lines : list string)
    (line : string) :
  line ∈ lines → response_shaped model w1 lines (response_line model w1 line).
Proof.
  intros Hin. exists line. split; [done|]. unfold response_line, response_to.
  destruct (request_result model w1 line) as [data|e]; [left | right]; eauto.
Qed.

(** C10: whatever the worker writes to the protocol channel once the
    model is loaded is the readiness marker followed by response lines
    of one of the two shapes, also when a signal stops it. *)
Theorem responses_are_well_formed (r : bytes) (lines : list string) (w w1 w' : world)
    (model : model) (f : flow unit) :
  startup cfg r w = (Normal model, w1) →
  run_server cfg r lines w = (f, w') →
  w_stdout w' = w_stdout w1
  ∨ ∃ responses,
      w_stdout w' = w_stdout w1 ++ "READY" :: responses
      ∧ Forall (response_shaped model w1 lines) responses.
Proof.
  intros Hs Hrun.
  destruct (run_server_ready cfg r lines w w1 model Hs)
    as (f' & w'' & out & Hrun' & Hout & Hcase).
  rewrite Hrun in Hrun'. injection Hrun' as <- <-.
  assert (Hall : Forall (response_shaped model w1 lines) (response_line model w1 <$> lines)).
  { apply Forall_fmap, Forall_forall. intros line Hin. by apply response_line_shaped. }
  assert (Hpre : out `prefix_of` "READY" :: (response_line model w1 <$> lines)).
  { destruct Hcase as [(-> & _) | (_ & _ & Hp)]; done. }
  destruct out as [|s responses].
  - left. by rewrite Hout, app_nil_r.
  - right. destruct Hpre as [rest Hrest]. injection Hrest as <- Hrest.
    exists responses. split; [done|].
    rewrite Hrest in Hall. by apply Forall_app in Hall as [Hall _].
Qed.

End Protocol.

(** ** Where a signal stops the worker

    A run without a signal passes a fixed sequence of delivery points and
    writes to the protocol channel; a signal that is on its way is
    delivered at one of the delivery points, and the handler ends the run
    there. *)

Inductive event : Type :=
| Tick
| Out (s : string).

(** The delivery points of a trace, and what it writes. *)
Fixpoint ticks (tr : list event) : nat :=
  match tr with
  | [] => 0
  | Tick :: rest => S (ticks rest)
  | Out _ :: rest => ticks rest
  end.


(** What has been written when the run reaches its delivery point number
    [n], counted from 0. *)
Fixpoint cut (n : nat) (tr : list event) : list string :=
  match tr with
  | [] => []
  | Tick :: rest => match n with O => [] | S k => cut k rest end
  | Out s :: rest => s :: cut n rest
  end.









Section Traces.
Context `{Libraries} `{!Runtime}.
Variable cfg : config.












End Traces.

Section WorkerTraces.
Context `{Libraries} `{!Runtime}.
Variable cfg : config.

(** The delivery points [predict] passes: before [cv2.imread], before the
    rest of [preprocess_image], before the forward pass. *)
Definition predict_trace (w0 : world) (image_path : json) : list event :=
  match cv2_imread (w_files w0) image_path with
  | Ok (Some img) =>
      match prepare img with
      | Ok _ => [Tick; Tick; Tick]
      | Raise _ => [Tick; Tick]
      end
  | _ => [Tick]
  end.

(** The body of the [try] for a line: no delivery point before the
    request is parsed and checked, one before [os.path.exists], those of
    [predict], one before the response is written and one before the log
    line. *)
Definition request_trace (model : model) (w0 : world) (line : string) : list event :=
  match json_loads (str_strip line) with
  | Raise _ => []
  | Ok request =>
      match request_get request "imagePath" with
      | Raise _ => []
      | Ok image_path =>
          if negb (truthy image_path) then []
          else
            Tick ::
            match exists_value w0 image_path with
            | Ok true =>
                predict_trace w0 image_path ++
                match predict_result model w0 image_path with
                | Ok data => [Tick; Out (json_dumps (success_response data)); Tick]
                | Raise _ => []
                end
            | _ => []
            end
      end
  end.

(** The [except] clause: two log lines, then the failure response. *)
Definition handler_trace (e : exn) : list event :=
  [Tick; Tick; Tick; Out (json_dumps (error_response e))].

(** One pass through the loop: the delivery point at the head of the
    loop, the body, and the [except] clause when the body raised. *)
Definition exchange_trace (model : model) (w0 : world) (line : string) : list event :=
  Tick :: request_trace model w0 line ++
  match request_result model w0 line with
  | Ok _ => []
  | Raise e => handler_trace e
  end.

Definition serve_trace (model : model) (w0 : world) (lines : list string) : list event :=
  concat (exchange_trace model w0 <$> lines).

(** From the readiness marker on. *)
Definition ready_trace (model : model) (w0 : world) (lines : list string) : list event :=
  [Tick; Out "READY"; Tick] ++ serve_trace model w0 lines.
















End WorkerTraces.



Section SignalFacts.
Context `{Libraries} `{!Runtime}.




End SignalFacts.

Section SignalTheorem.
Context `{Libraries} `{!Runtime}.
Variable cfg : config.


End SignalTheorem.


Section StartupFailure.
Context `{Libraries} `{!Runtime}.
Variable cfg : config.

(** What [load_model_securely] raises when the model or the key is not
    there; the model is looked for first. *)
Definition startup_error (w : world) : exn :=
  if OsPath.exists_ (MODEL_PATH cfg) w
  then Exn "FileNotFoundError" ("Encryption key not found: " +:+ MODEL_KEY_PATH cfg)
  else Exn "FileNotFoundError" ("Encrypted model not found: " +:+ MODEL_PATH cfg).

(** Without the key file the loader is never reached, and nothing is
    written to the protocol channel, signal or not. *)
Lemma refines_missing_key (r : bytes) (lines : list string) (w : world) :
  OsPath.exists_ (MODEL_KEY_PATH cfg) w = false →
  refines w (run_server cfg r lines) [] (Raise (startup_error w)).
Proof.
  intros Hkey. unfold run_server, load_model_securely, startup_error.
  eapply refines_bind; [apply (refines_tick cfg) |]. eexists. split; [|reflexivity].
  eapply refines_bind; [apply refines_stderr_write |]. eexists. split; [|reflexivity].
  eapply refines_bind with (r1 := Raise _); [|done].
  eapply refines_bind; [apply (refines_tick cfg) |]. eexists. split; [|reflexivity].
  eapply refines_bind; [apply refines_stderr_write |]. eexists. split; [|reflexivity].
  eapply refines_bind; [apply (refines_tick cfg) |]. eexists. split; [|reflexivity].
  eapply refines_bind; [apply refines_os_path_exists |]. eexists. split; [|reflexivity].
  destruct (OsPath.exists_ (MODEL_PATH cfg) w); simpl; [|apply refines_raise].
  eapply refines_bind; [apply refines_os_path_exists |]. eexists. split; [|reflexivity].
  rewrite Hkey. simpl. apply refines_raise.
Qed.

(** C5: when the key file does not exist as the worker starts in server
    mode (and no signal arrives), [load_model_securely] raises
    [FileNotFoundError] before the readiness marker: [run_server] writes
    nothing to the protocol channel, the exception escapes [main], and the
    process exits with status 1. *)
Theorem missing_key_aborts_startup (r : bytes) (lines : list string) (w : world) :
  OsPath.exists_ (MODEL_KEY_PATH cfg) w = false →
  w_signal w = None →
  ∃ w',
    run_server cfg r lines w = (Raised (startup_error w), w')
    ∧ exn_type (startup_error w) = "FileNotFoundError"
    ∧ w_stdout w' = w_stdout w
    ∧ (run_process cfg r ["--server-mode"] lines w).1 = 1%Z
    ∧ w_stdout (run_process cfg r ["--server-mode"] lines w).2 = w_stdout w
    ∧ "READY" ∉ drop (length (w_stdout w))
                     (w_stdout (run_process cfg r ["--server-mode"] lines w).2).
Proof.
  intros Hkey Hw.
  destruct (refines_missing_key r lines w Hkey w eq_refl eq_refl)
    as (f & w' & o & Hrun & _ & _ & Hout & [(-> & _ & ->) | (_ & Hne & _)]); [|done].
  rewrite app_nil_r in Hout. exists w'.
  split; [done|]. split; [unfold startup_error; by case_match|]. split; [done|].
  unfold run_process, main. rewrite Hrun. simpl.
  split; [done|]. split; [done|].
  rewrite Hout, drop_all. apply not_elem_of_nil.
Qed.

End StartupFailure.

(** ** A sample worker

    The sample libraries, completed for the worker: a request line is the
    path of its image ("{}" is a request without [imagePath], the empty
    line is not JSON), an image is readable when its file is not empty,
    and the network answers every image with the same probabilities. *)

Module SampleWorker.
Import Sample.

Definition quote (s : string) : string :=
  String (Ascii.ascii_of_nat 34) s +:+ String (Ascii.ascii_of_nat 34) EmptyString.

Definition join (l : list string) : string :=
  match l with
  | [] => ""
  | s :: rest => foldl (λ acc t, acc +:+ ", " +:+ t) s rest
  end.

Fixpoint dumps (j : json) : string :=
  match j with
  | JNull => "null"
  | JBool b => if b then "true" else "false"
  | JInt n => pretty n
  | JFloat _ => "0.0"
  | JStr s => quote s
  | JArr items => "[" +:+ join (map dumps items) +:+ "]"
  | JObj fields =>
      "{" +:+ join ((fix go (l : list (string * json)) : list string :=
                       match l with
                       | [] => []
                       | (k, v) :: rest => (quote k +:+ ": " +:+ dumps v) :: go rest
                       end) fields) +:+ "}"
  end.

Definition loads (s : string) : res json :=
  if String.eqb s "" then
    Raise (Exn "JSONDecodeError" "Expecting value: line 1 column 1 (char 0)")
  else if String.eqb s "{}" then Ok (JObj [])
  else Ok (JObj [("imagePath", JStr s)]).

Definition imread (files : gmap string file) (v : json) : res (option bytes) :=
  match v with
  | JStr p =>
      match files !! p with
      | Some (File (_ :: _ as data) _) => Ok (Some data)
      | _ => Ok None
      end
  | _ => Raise (Exn "TypeError" "Can't convert object to 'str' for 'filename'")
  end.

#[global] Instance runtime : Runtime := {|
  json_loads := loads;
  json_dumps := dumps;
  str_strip s := s;
  repr v := dumps v;
  fd_open _ := false;
  image := bytes;
  tensor := bytes;
  cv2_imread := imread;
  prepare img := Ok img;
  infer _ _ := Ok [0.0625; 0.75; 0.0625; 0.03125; 0.03125; 0.03125; 0.015625; 0.015625]%float;
  f32_times100 p := PrimFloat.mul p 100;
  format_percent _ := "75.0";
  format_exc e := "Traceback (most recent call last): " +:+ exn_type e +:+ ": " +:+ exn_msg e
|}.

Definition cfg : config :=
  Config "./saved_models/best_model.encrypted" "./secrets/model.key" "0".

(** A machine set up for the worker: the encrypted model, the key and one
    image; [signal] is the signal on its way, if any. *)
Definition server_world (signal : option nat) : world :=
  World (<[ "./saved_models/best_model.encrypted" :=
              File (save (make_package SampleRun.loader [] SampleRun.model_bytes)) 420 ]>
         (<[ "./secrets/model.key" := File SampleRun.the_key 384 ]>
          {[ "leaf.jpg" := File [Byte.xff; Byte.xd8] 420 ]}))
        {[ "./secrets"; "./saved_models" ]} [] [] signal.

(** The same machine before the key was installed. *)
Definition keyless_world : world :=
  World {[ "./saved_models/best_model.encrypted" :=
             File (save (make_package SampleRun.loader [] SampleRun.model_bytes)) 420 ]}
        {[ "./saved_models" ]} [] [] None.

(** Three requests, the second without [imagePath]. *)
Definition requests : list string := ["leaf.jpg"; "{}"; "leaf.jpg"].

(** The world and the model when the worker is ready. *)
Definition ready_world (signal : option nat) : world :=
  (startup cfg [] (server_world signal)).2.

Definition the_model : model := SampleRun.model_bytes.

Definition final (signal : option nat) (lines : list string) : flow unit * world :=
  run_server cfg [] lines (server_world signal).

End SampleWorker.

Example sample_startup :
  startup SampleWorker.cfg [] (SampleWorker.server_world None)
  = (Normal SampleWorker.the_model, SampleWorker.ready_world None).
Proof. vm_compute. reflexivity. Qed.

Example sample_three_requests :
  w_stdout (SampleWorker.final None SampleWorker.requests).2
  = [ "READY";
      SampleWorker.dumps (response_to SampleWorker.the_model
                            (SampleWorker.ready_world None) "leaf.jpg");
      SampleWorker.dumps (error_response (ValueError "No imagePath provided"));
      SampleWorker.dumps (response_to SampleWorker.the_model
                            (SampleWorker.ready_world None) "leaf.jpg") ].
Proof. vm_compute. reflexivity. Qed.

(** *** The protocol theorems on the sample worker *)

Lemma one_response_per_request_witness :
  ∃ w',
    run_server SampleWorker.cfg [] SampleWorker.requests (SampleWorker.server_world None)
    = (Normal (), w')
    ∧ w_stdout w'
      = w_stdout (SampleWorker.ready_world None)
        ++ "READY" :: (response_line SampleWorker.the_model (SampleWorker.ready_world None)
                       <$> SampleWorker.requests)
    ∧ (run_process SampleWorker.cfg [] ["--server-mode"] SampleWorker.requests
         (SampleWorker.server_world None)).1 = 0%Z.
Proof.
  assert (Hs : startup SampleWorker.cfg [] (SampleWorker.server_world None)
               = (Normal SampleWorker.the_model, SampleWorker.ready_world None))
    by (vm_compute; reflexivity).
  pose proof (one_response_per_request SampleWorker.cfg [] SampleWorker.requests
                (SampleWorker.server_world None) (SampleWorker.ready_world None)
                SampleWorker.the_model eq_refl Hs) as (w' & H1 & H2 & _ & H4 & _).
  exists w'. by repeat split.
Defined.

Lemma responses_are_well_formed_witness :
  w_stdout (SampleWorker.final None SampleWorker.requests).2
  = w_stdout (SampleWorker.ready_world None)
  ∨ ∃ responses,
      w_stdout (SampleWorker.final None SampleWorker.requests).2
      = w_stdout (SampleWorker.ready_world None) ++ "READY" :: responses
      ∧ Forall (response_shaped SampleWorker.the_model (SampleWorker.ready_world None)
                  SampleWorker.requests) responses.
Proof.
  apply (responses_are_well_formed SampleWorker.cfg [] SampleWorker.requests
           (SampleWorker.server_world None) (SampleWorker.ready_world None)
           (SampleWorker.final None SampleWorker.requests).2 SampleWorker.the_model
           (SampleWorker.final None SampleWorker.requests).1).
  - vm_compute; reflexivity.
  - apply surjective_pairing.
Defined.


(** The sample run of the counterexample below, as the theorem describes
    it: the signal is delivered at the delivery point before the forward
    pass of the only request, and the channel holds the readiness marker
    alone. *)
Example sample_signal_before_forward_pass :
  ticks (ready_trace SampleWorker.the_model (SampleWorker.ready_world (Some 12))
           ["leaf.jpg"]) = 9%nat
  ∧ cut 6 (ready_trace SampleWorker.the_model (SampleWorker.ready_world (Some 12))
             ["leaf.jpg"]) = ["READY"]
  ∧ w_signal (SampleWorker.ready_world (Some 12)) = Some 6%nat.
Proof. repeat split; vm_compute; reflexivity. Qed.

Lemma missing_key_aborts_startup_witness :
  ∃ w',
    run_server SampleWorker.cfg [] SampleWorker.requests SampleWorker.keyless_world
    = (Raised (startup_error SampleWorker.cfg SampleWorker.keyless_world), w')
    ∧ exn_type (startup_error SampleWorker.cfg SampleWorker.keyless_world)
      = "FileNotFoundError"
    ∧ w_stdout w' = w_stdout SampleWorker.keyless_world
    ∧ (run_process SampleWorker.cfg [] ["--server-mode"] SampleWorker.requests
         SampleWorker.keyless_world).1 = 1%Z
    ∧ w_stdout (run_process SampleWorker.cfg [] ["--server-mode"] SampleWorker.requests
                  SampleWorker.keyless_world).2
      = w_stdout SampleWorker.keyless_world
    ∧ "READY" ∉ drop (length (w_stdout SampleWorker.keyless_world))
                     (w_stdout (run_process SampleWorker.cfg [] ["--server-mode"]
                                  SampleWorker.requests SampleWorker.keyless_world).2).
Proof.
  apply (missing_key_aborts_startup SampleWorker.cfg [] SampleWorker.requests
           SampleWorker.keyless_world).
  - vm_compute; reflexivity.
  - reflexivity.
Defined.


(** * Further properties of the code *)

(** ** The loader and the key store *)

(** A computation that leaves the world as it found it, however it
    ends. *)
Definition readonly {A : Type} (m : io A) : Prop := ∀ w, (m w).2 = w.

Lemma readonly_ret {A : Type} (a : A) : readonly (io_ret a).
Proof. by intros w. Qed.

Lemma readonly_raise {A : Type} (e : exn) : readonly (raise (A := A) e).
Proof. by intros w. Qed.

Lemma readonly_lift {A : Type} (r : res A) : readonly (lift r).
Proof. destruct r; [apply readonly_ret | apply readonly_raise]. Qed.

Lemma readonly_read_file (p : string) : readonly (read_file p).
Proof. intros w. unfold read_file. by repeat case_match. Qed.

Lemma readonly_os_path_exists (p : string) : readonly (os_path_exists p).
Proof. by intros w. Qed.

Lemma readonly_bind {A B : Type} (m : io A) (k : A → io B) :
  readonly m → (∀ a, readonly (k a)) → readonly (io_bind m k).
Proof.
  intros Hm Hk w. unfold io_bind. specialize (Hm w).
  destruct (m w) as [[a|e|c] w']; simpl in *; subst; [apply Hk | done..].
Qed.

Section LoaderFacts.
Context `{Libraries}.

Lemma readonly_decrypt_model (self : ModelEncryption) (path : string) :
  readonly (decrypt_model self path).
Proof.
  unfold decrypt_model.
  apply readonly_bind; [apply readonly_read_file | intros raw].
  apply readonly_bind; [apply readonly_lift | intros pkg].
  apply readonly_bind; [by destruct (fernet_decrypt _ _) | intros d].
  simpl. by destruct (negb _).
Qed.

Lemma readonly_load_encrypted_model (self : SecureModelLoader) (path : string) :
  readonly (load_encrypted_model self path).
Proof.
  unfold load_encrypted_model.
  apply readonly_bind; [apply readonly_decrypt_model | intros d].
  apply readonly_bind; [apply readonly_lift | intros ck].
  apply readonly_bind; [apply readonly_lift | intros m].
  destruct (checkpoint_state ck); [apply readonly_lift | apply readonly_raise].
Qed.

(** X1: loading an encrypted model goes through memory only.  Whatever
    the outcome (a model, a decryption or integrity error, a bad
    checkpoint), [load_encrypted_model] and [decrypt_model] leave every
    file and directory as it was and write nothing to either channel: the
    decrypted bytes never reach the disk. *)
Theorem loading_writes_nothing (self : SecureModelLoader) (encrypted_path : string)
    (w : world) :
  (load_encrypted_model self encrypted_path w).2 = w
  ∧ (decrypt_model (encryptor self) encrypted_path w).2 = w.
Proof.
  split.
  - apply readonly_load_encrypted_model.
  - apply readonly_decrypt_model.
Qed.

(** [os.makedirs] on the directory of the key path, when that directory
    is not a regular file: it succeeds, and changes at most the set of
    directories. *)
Lemma makedirs_key_directory (d : string) (w : world) :
  d ≠ "" → w_files w !! d = None →
  ∃ w0, os_makedirs d w = (Normal (), w0)
        ∧ OsPath.isdir d w0 = true
        ∧ w_files w0 = w_files w ∧ w_stdout w0 = w_stdout w ∧ w_stderr w0 = w_stderr w
        ∧ w_signal w0 = w_signal w
        ∧ (w_dirs w0 = w_dirs w ∨ w_dirs w0 = {[d]} ∪ w_dirs w).
Proof.
  intros Hd Hf. destruct (OsPath.isdir d w) eqn:Hisd.
  - exists w. split; [by apply os_makedirs_present|]. repeat split; auto.
  - exists (add_dir d w). split; [by apply os_makedirs_new|].
    split; [rewrite isdir_add_dir; by rewrite bool_decide_eq_true_2|].
    repeat split; auto.
Qed.

(** Construction when the key file is there: the key is read, nothing is
    generated. *)
Lemma init_with_key_present (key_path : string) (r : bytes) (w : world) (f : file) :
  w_files w !! key_path = Some f →
  OsPath.dirname key_path ≠ "" →
  w_files w !! OsPath.dirname key_path = None →
  ∃ w',
    ModelEncryption_init key_path r w
    = (if fernet_valid_key (f_data f)
       then Normal (Build_ModelEncryption key_path (f_data f))
       else Raised (ValueError "Fernet key must be 32 url-safe base64-encoded bytes."),
       w')
    ∧ w_files w' = w_files w ∧ w_stdout w' = w_stdout w ∧ w_stderr w' = w_stderr w
    ∧ w_signal w' = w_signal w.
Proof.
  intros Hf Hd Hdf.
  destruct (makedirs_key_directory _ w Hd Hdf)
    as (w0 & Hmk & _ & Hf0 & Ho0 & He0 & Hs0 & _).
  exists w0. split; [|done].
  unfold ModelEncryption_init, _ensure_key_exists, _load_key.
  erewrite io_bind_Normal; cycle 1.
  { erewrite io_bind_Normal; [| exact Hmk]. cbv beta.
    erewrite io_bind_Normal; [| reflexivity]. cbv beta.
    unfold OsPath.exists_. rewrite Hf0, Hf.
    rewrite bool_decide_eq_true_2 by eauto. reflexivity. }
  cbv beta.
  erewrite io_bind_Normal; [| apply read_file_present; by rewrite Hf0].
  cbv beta. by destruct (fernet_valid_key (f_data f)).
Qed.

(** X2: an existing key file is never replaced.  When the key file is
    there, the key path has a directory part (it is not a bare file name
    such as model.key, for which the construction raises
    [FileNotFoundError] before it looks at the key) and that directory
    part is not itself a regular file, constructing the loader reads the
    file and generates nothing, whatever randomness is at hand: the files
    and both channels are as before, and the loader holds the content of
    the file if Fernet accepts it as a key; if not, the construction
    raises [ValueError]. *)
Theorem existing_key_is_kept (key_path : string) (r : bytes) (w : world) (f : file) :
  w_files w !! key_path = Some f →
  OsPath.dirname key_path ≠ "" →
  w_files w !! OsPath.dirname key_path = None →
  ∃ w',
    w_files w' = w_files w ∧ w_stdout w' = w_stdout w ∧ w_stderr w' = w_stderr w
    ∧ (fernet_valid_key (f_data f) = true →
       SecureModelLoader_init key_path r w
       = (Normal (Build_SecureModelLoader (Build_ModelEncryption key_path (f_data f))), w'))
    ∧ (fernet_valid_key (f_data f) = false →
       SecureModelLoader_init key_path r w
       = (Raised (ValueError "Fernet key must be 32 url-safe base64-encoded bytes."), w')).
Proof.
  intros Hf Hd Hdf.
  destruct (init_with_key_present key_path r w f Hf Hd Hdf)
    as (w' & Hinit & Hf' & Ho' & He' & _).
  exists w'. do 3 (split; [done|]).
  unfold SecureModelLoader_init, io_bind. rewrite Hinit.
  split; intros ->; reflexivity.
Qed.

End LoaderFacts.

Section KeyStore.
Context `{Libraries} `{!LibraryLaws}.

(** Construction when nothing exists at the key path. *)
Lemma init_with_key_missing (key_path : string) (r : bytes) (w : world) :
  OsPath.exists_ key_path w = false →
  OsPath.dirname key_path ≠ "" →
  w_files w !! OsPath.dirname key_path = None →
  ∃ w1,
    ModelEncryption_init key_path r w
    = (Normal (Build_ModelEncryption key_path (fernet_generate_key r)), w1)
    ∧ w_files w1 = with_generated_key key_path r w
    ∧ w_stdout w1 = w_stdout w ++ ["✅ Generated new encryption key: " +:+ key_path]
    ∧ w_stderr w1 = w_stderr w
    ∧ (w_dirs w1 = w_dirs w ∨ w_dirs w1 = {[OsPath.dirname key_path]} ∪ w_dirs w).
Proof.
  intros Hex Hd Hdf.
  pose proof (OsPathFacts.dirname_of_missing _ _ Hex Hd) as Hne.
  destruct (makedirs_key_directory _ w Hd Hdf)
    as (w0 & Hmk & Hpar0 & Hf0 & Ho0 & He0 & _ & Hdirs0).
  assert (Hex0 : OsPath.exists_ key_path w0 = false).
  { unfold OsPath.exists_, OsPath.isdir in *. rewrite Hf0.
    destruct Hdirs0 as [-> | ->]; [done|].
    apply orb_false_elim in Hex as [Hex1 Hex2].
    apply orb_false_elim in Hex2 as [Hex2 Hex3].
    rewrite Hex1, Hex3. simpl. rewrite orb_false_r.
    apply bool_decide_eq_false. apply bool_decide_eq_false in Hex2. set_solver. }
  destruct (ensure_key_generates key_path r w0 Hex0 Hpar0)
    as (w1 & Hgen & Hf1 & Hd1 & Ho1 & He1).
  exists w1. split.
  - unfold ModelEncryption_init, _ensure_key_exists.
    erewrite io_bind_Normal; [| erewrite io_bind_Normal; [exact Hgen | exact Hmk]].
    unfold _load_key.
    erewrite io_bind_Normal;
      [| apply read_file_present; rewrite Hf1; apply lookup_insert_eq].
    simpl. by rewrite generated_key_valid.
  - unfold with_generated_key in *. rewrite Hf1, Hf0, Ho1, Ho0, He1, He0, Hd1.
    by repeat split.
Qed.

(** X3: the key is generated once.  After a construction that generated
    the key, a second construction on the same key path, with whatever
    fresh randomness, returns a loader with the same key, leaves the key
    file as it is and prints nothing. *)
Theorem key_is_generated_once (key_path : string) (r r' : bytes) (w : world) :
  OsPath.exists_ key_path w = false →
  OsPath.dirname key_path ≠ "" →
  w_files w !! OsPath.dirname key_path = None →
  ∃ self w1 w2,
    ModelEncryption_init key_path r w = (Normal self, w1)
    ∧ key self = fernet_generate_key r
    ∧ ModelEncryption_init key_path r' w1 = (Normal self, w2)
    ∧ w_files w2 = w_files w1
    ∧ w_stdout w2 = w_stdout w1.
Proof.
  intros Hex Hd Hdf.
  pose proof (OsPathFacts.dirname_of_missing _ _ Hex Hd) as Hne.
  destruct (init_with_key_missing key_path r w Hex Hd Hdf)
    as (w1 & Hinit & Hf1 & _).
  destruct (init_with_key_present key_path r' w1
              (File (fernet_generate_key r)
                    (if chmod_supported then mode_0o600 else create_mode)))
    as (w2 & Hinit2 & Hf2 & Ho2 & _); [| done | |].
  - rewrite Hf1. apply lookup_insert_eq.
  - rewrite Hf1. unfold with_generated_key. by rewrite lookup_insert_ne.
  - simpl in Hinit2. rewrite generated_key_valid in Hinit2.
    eexists _, w1, w2. by repeat split.
Qed.

End KeyStore.

Lemma existing_key_is_kept_witness :
  ∃ w',
    w_files w' = w_files (SampleWorker.server_world None)
    ∧ w_stdout w' = w_stdout (SampleWorker.server_world None)
    ∧ w_stderr w' = w_stderr (SampleWorker.server_world None)
    ∧ (fernet_valid_key (f_data (File SampleRun.the_key 384)) = true →
       SecureModelLoader_init "./secrets/model.key" [Byte.x2a] (SampleWorker.server_world None)
       = (Normal (Build_SecureModelLoader
                    (Build_ModelEncryption "./secrets/model.key"
                       (f_data (File SampleRun.the_key 384)))), w'))
    ∧ (fernet_valid_key (f_data (File SampleRun.the_key 384)) = false →
       SecureModelLoader_init "./secrets/model.key" [Byte.x2a] (SampleWorker.server_world None)
       = (Raised (ValueError "Fernet key must be 32 url-safe base64-encoded bytes."), w')).
Proof.
  apply (existing_key_is_kept "./secrets/model.key" [Byte.x2a]
           (SampleWorker.server_world None) (File SampleRun.the_key 384)).
  - reflexivity.
  - discriminate.
  - reflexivity.
Defined.

Lemma key_is_generated_once_witness :
  ∃ self w1 w2,
    ModelEncryption_init "./secrets/model.key" [Byte.x01] empty_world = (Normal self, w1)
    ∧ key self = fernet_generate_key [Byte.x01]
    ∧ ModelEncryption_init "./secrets/model.key" [Byte.x02] w1 = (Normal self, w2)
    ∧ w_files w2 = w_files w1
    ∧ w_stdout w2 = w_stdout w1.
Proof.
  apply (key_is_generated_once "./secrets/model.key" [Byte.x01] [Byte.x02] empty_world).
  - reflexivity.
  - discriminate.
  - reflexivity.
Defined.

(** ** Encrypting the existing model ([encrypt_existing_model]) *)

Section EncryptExisting.
Context `{Libraries}.
Local Open Scope io_scope.

(** The default of [ModelEncryption()] and the two paths of the script. *)
Definition default_key_path : string := "./secrets/model.key".
Definition original_model : string := "./saved_models/best_model.pth".
Definition encrypted_model : string := "./saved_models/best_model.encrypted".

(** [encrypt_existing_model]; [r_key] and [r_enc] are the randomness of a
    key generation and of the encryption. *)
Definition encrypt_existing_model (r_key r_enc : bytes) : io unit :=
  encryptor <- ModelEncryption_init default_key_path r_key ;;
  present <- os_path_exists original_model ;;
  if negb present then
    stdout_write ("❌ Model not found: " +:+ original_model)
  else
    encrypt_model encryptor r_enc original_model encrypted_model ;;;
    stdout_write (LF +:+ "✅ Encryption complete!") ;;;
    stdout_write ("   Encrypted file: " +:+ encrypted_model) ;;;
    stdout_write ("   Key file: " +:+ key_path encryptor) ;;;
    stdout_write (LF +:+ "⚠️  IMPORTANT:") ;;;
    stdout_write ("   1. Keep " +:+ key_path encryptor +:+ " SECRET and SECURE") ;;;
    stdout_write "   2. Add it to .gitignore" ;;;
    stdout_write "   3. Use environment variables in production" ;;;
    stdout_write "   4. Delete original .pth file after verification".

(** What [load_encrypted_model] makes of the decrypted bytes. *)
Definition construct_model (data : bytes) : res model :=
  checkpoint ← torch_load_buffer data;
  model ← model_class;
  match checkpoint_state checkpoint with
  | Some state => load_state_dict model state
  | None => Raise (ValueError "Unexpected checkpoint format")
  end.

End EncryptExisting.

Section EncryptExistingFacts.
Context `{Libraries} `{!LibraryLaws}.

(** What [encrypt_model] leaves behind when it can read the model and
    write the container. *)
Lemma encrypt_model_writes (self : ModelEncryption) (r : bytes)
    (model_path encrypted_path : string) (w : world) (model_data : bytes) (mode : N) :
  w_files w !! model_path = Some (File model_data mode) →
  OsPath.isdir encrypted_path w = false →
  OsPath.dirname encrypted_path = ""
  ∨ OsPath.isdir (OsPath.dirname encrypted_path) w = true →
  ∃ w1 mode',
    encrypt_model self r model_path encrypted_path w = (Normal encrypted_path, w1)
    ∧ w_files w1
      = <[encrypted_path := File (torch_save (make_package self r model_data)) mode']>
          (w_files w)
    ∧ w_dirs w1 = w_dirs w ∧ w_stderr w1 = w_stderr w ∧ w_signal w1 = w_signal w.
Proof.
  intros Hm Hnd Hdir.
  assert (Hpar : negb (String.eqb (OsPath.dirname encrypted_path) "")
                 && negb (OsPath.isdir (OsPath.dirname encrypted_path) w) = false).
  { destruct Hdir as [-> | ->]; [done|]. apply andb_false_r. }
  unfold encrypt_model, io_bind, stdout_write, read_file, write_file.
  unfold OsPath.isdir in *. simpl.
  rewrite Hm. simpl. rewrite Hnd, Hpar. simpl.
  eexists _, _. split; [reflexivity|]. by repeat split.
Qed.

Lemma load_after_decrypt (self : SecureModelLoader) (path : string) (w : world)
    (data : bytes) :
  decrypt_model (encryptor self) path w = (Normal data, w) →
  load_encrypted_model self path w = lift (construct_model data) w.
Proof.
  intros Hd. unfold load_encrypted_model, construct_model.
  erewrite io_bind_Normal; [| exact Hd]. cbv beta. unfold io_bind.
  destruct (torch_load_buffer data) as [ck|e]; simpl; [|done].
  destruct model_class as [m|e]; simpl; [|done].
  by destruct (checkpoint_state ck).
Qed.

(** A path other than the key path and its directory exists after a
    construction exactly if it did before. *)
Lemma exists_after_init (p key_path : string) (r : bytes) (w w1 : world) :
  p ≠ key_path → p ≠ OsPath.dirname key_path →
  w_files w1 = with_generated_key key_path r w →
  w_dirs w1 = w_dirs w ∨ w_dirs w1 = {[OsPath.dirname key_path]} ∪ w_dirs w →
  (w_files w1 !! p = w_files w !! p) ∧ OsPath.isdir p w1 = OsPath.isdir p w.
Proof.
  intros Hp Hpd Hf Hd. split.
  - rewrite Hf. unfold with_generated_key. by rewrite lookup_insert_ne.
  - unfold OsPath.isdir. f_equal. destruct Hd as [-> | ->]; [done|].
    apply eq_true_iff_eq. rewrite !bool_decide_eq_true. set_solver.
Qed.

(** X4: the encryption script makes a key even when there is no model to
    encrypt.  On a machine with neither key nor model file,
    [encrypt_existing_model] returns normally; it has generated and
    stored the key (the only file that changes), and has printed the line
    about the key and then that the model was not found. *)
Theorem encryption_without_model_still_makes_key (r_key r_enc : bytes) (w : world) :
  OsPath.exists_ default_key_path w = false →
  w_files w !! "./secrets" = None →
  OsPath.exists_ original_model w = false →
  ∃ w',
    encrypt_existing_model r_key r_enc w = (Normal (), w')
    ∧ w_files w' = with_generated_key default_key_path r_key w
    ∧ w_files w' !! encrypted_model = w_files w !! encrypted_model
    ∧ w_stdout w'
      = w_stdout w ++ [ "✅ Generated new encryption key: " +:+ default_key_path;
                        "❌ Model not found: " +:+ original_model ].
Proof.
  intros Hkey Hsec Horig.
  destruct (init_with_key_missing default_key_path r_key w Hkey)
    as (w1 & Hinit & Hf1 & Ho1 & He1 & Hd1); [discriminate | exact Hsec |].
  destruct (exists_after_init original_model default_key_path r_key w w1)
    as [Hfo Hdo]; [discriminate | discriminate | done | done |].
  assert (Horig1 : OsPath.exists_ original_model w1 = false).
  { unfold OsPath.exists_ in *. by rewrite Hfo, Hdo. }
  unfold encrypt_existing_model.
  erewrite io_bind_Normal; [| exact Hinit]. cbv beta.
  erewrite io_bind_Normal; [| reflexivity]. cbv beta.
  rewrite Horig1. simpl.
  eexists. split; [reflexivity|]. simpl.
  split; [done|]. split.
  - rewrite Hf1. unfold with_generated_key. by rewrite lookup_insert_ne.
  - rewrite Ho1. by rewrite <- app_assoc.
Qed.

(** X5: what the encryption script writes, a later process loads.  On a
    machine without a key, with the model file in place:
    [encrypt_existing_model] returns normally, and afterwards any
    construction of the secure loader on the default key path (with
    whatever randomness) succeeds, [decrypt_model] on the container
    returns exactly the bytes of the model file, and
    [load_encrypted_model] builds what those bytes build. *)
Theorem offline_encryption_feeds_loader (r_key r_enc : bytes) (w : world)
    (model_data : bytes) (mode : N) :
  OsPath.exists_ default_key_path w = false →
  w_files w !! "./secrets" = None →
  w_files w !! original_model = Some (File model_data mode) →
  OsPath.isdir "./saved_models" w = true →
  OsPath.isdir encrypted_model w = false →
  ∃ w1,
    encrypt_existing_model r_key r_enc w = (Normal (), w1)
    ∧ ∀ r', ∃ loader w2,
        SecureModelLoader_init default_key_path r' w1 = (Normal loader, w2)
        ∧ decrypt_model (encryptor loader) encrypted_model w2 = (Normal model_data, w2)
        ∧ load_encrypted_model loader encrypted_model w2
          = lift (construct_model model_data) w2.
Proof.
  intros Hkey Hsec Horig Hdir Henc.
  destruct (init_with_key_missing default_key_path r_key w Hkey)
    as (wa & Hinit & Hfa & _ & _ & Hda); [discriminate | exact Hsec |].
  set (self := Build_ModelEncryption default_key_path (fernet_generate_key r_key)) in *.
  destruct (exists_after_init original_model default_key_path r_key w wa)
    as [Hfo Hdo]; [discriminate | discriminate | done | done |].
  destruct (exists_after_init encrypted_model default_key_path r_key w wa)
    as [_ Hde]; [discriminate | discriminate | done | done |].
  destruct (exists_after_init "./saved_models" default_key_path r_key w wa)
    as [_ Hds]; [discriminate | discriminate | done | done |].
  destruct (encrypt_model_writes self r_enc original_model encrypted_model wa
              model_data mode) as (wb & mode' & Hrun & Hfb & Hdb & _).
  { by rewrite Hfo. }
  { by rewrite Hde. }
  { right. change (OsPath.dirname encrypted_model) with "./saved_models".
    by rewrite Hds. }
  assert (Hexo : OsPath.exists_ original_model wa = true).
  { unfold OsPath.exists_. rewrite Hfo, Horig.
    by rewrite bool_decide_eq_true_2 by eauto. }
  unfold encrypt_existing_model.
  erewrite io_bind_Normal; [| exact Hinit]. cbv beta.
  erewrite io_bind_Normal; [| reflexivity]. cbv beta.
  rewrite Hexo. cbn [negb]. cbv iota.
  erewrite io_bind_Normal; [| exact Hrun]. cbv beta.
  eexists. split; [reflexivity|]. simpl.
  intros r'.
  set (w1 := add_stdout _ _).
  assert (Hf1 : w_files w1
                = <[encrypted_model := File (torch_save (make_package self r_enc model_data))
                                            mode']>
                    (with_generated_key default_key_path r_key w)).
  { subst w1. simpl. by rewrite Hfb, Hfa. }
  destruct (init_with_key_present default_key_path r' w1
              (File (fernet_generate_key r_key)
                    (if chmod_supported then mode_0o600 else create_mode)))
    as (w2 & Hinit2 & Hf2 & _); [| discriminate | |].
  { rewrite Hf1, lookup_insert_ne by discriminate. apply lookup_insert_eq. }
  { rewrite Hf1, lookup_insert_ne by discriminate.
    unfold with_generated_key. by rewrite lookup_insert_ne by discriminate. }
  simpl in Hinit2. rewrite generated_key_valid in Hinit2.
  assert (Hdec : decrypt_model self encrypted_model w2 = (Normal model_data, w2)).
  { erewrite decrypt_model_unfold;
      [| rewrite Hf2, Hf1; apply lookup_insert_eq | simpl; apply load_save].
    simpl. rewrite decrypt_encrypt. by rewrite String.eqb_refl. }
  exists (Build_SecureModelLoader self), w2.
  split; [unfold SecureModelLoader_init; by erewrite io_bind_Normal; [| exact Hinit2]|].
  split; [exact Hdec|].
  by apply load_after_decrypt.
Qed.

End EncryptExistingFacts.

Lemma encryption_without_model_still_makes_key_witness :
  ∃ w',
    encrypt_existing_model [Byte.x01] [Byte.x02] empty_world = (Normal (), w')
    ∧ w_files w' = with_generated_key default_key_path [Byte.x01] empty_world
    ∧ w_files w' !! encrypted_model = w_files empty_world !! encrypted_model
    ∧ w_stdout w'
      = w_stdout empty_world
        ++ [ "✅ Generated new encryption key: " +:+ default_key_path;
             "❌ Model not found: " +:+ original_model ].
Proof.
  apply (encryption_without_model_still_makes_key [Byte.x01] [Byte.x02] empty_world);
    reflexivity.
Defined.

Lemma offline_encryption_feeds_loader_witness :
  ∃ w1,
    encrypt_existing_model [Byte.x01] [Byte.x02] SampleRun.plain_world = (Normal (), w1)
    ∧ ∀ r', ∃ loader w2,
        SecureModelLoader_init default_key_path r' w1 = (Normal loader, w2)
        ∧ decrypt_model (encryptor loader) encrypted_model w2
          = (Normal SampleRun.model_bytes, w2)
        ∧ load_encrypted_model loader encrypted_model w2
          = lift (construct_model SampleRun.model_bytes) w2.
Proof.
  apply (offline_encryption_feeds_loader [Byte.x01] [Byte.x02] SampleRun.plain_world
           SampleRun.model_bytes 420); reflexivity.
Defined.

(** ** Startup and the protocol channel *)

Lemma stdout_bind {A B : Type} (m : io A) (k : A → io B) (w : world) :
  w_stdout (m w).2 = w_stdout w →
  (∀ a w', m w = (Normal a, w') → w_stdout (k a w').2 = w_stdout w') →
  w_stdout (io_bind m k w).2 = w_stdout w.
Proof.
  intros Hm Hk. unfold io_bind. destruct (m w) as [[a|e|c] w'] eqn:E; simpl in *;
    [|done..]. rewrite <- Hm. by apply Hk.
Qed.

Lemma exit_bind {A B : Type} (m : io A) (k : A → io B) (w : world) (c : Z) :
  (∀ c', (m w).1 = Exiting c' → c' = 0%Z) →
  (∀ a w' c', m w = (Normal a, w') → (k a w').1 = Exiting c' → c' = 0%Z) →
  (io_bind m k w).1 = Exiting c → c = 0%Z.
Proof.
  intros Hm Hk. unfold io_bind. destruct (m w) as [[a|e|c'] w'] eqn:E; simpl in *.
  - by apply Hk.
  - done.
  - intros [= <-]. by apply Hm.
Qed.

Section StartupFacts.
Context `{Libraries} `{!Runtime}.
Variable cfg : config.

(** A delivery point changes the pending signal and, when the handler
    runs, the diagnostic channel; nothing else. *)
Lemma tick_frame (w : world) :
  w_files (tick cfg w).2 = w_files w ∧ w_dirs (tick cfg w).2 = w_dirs w
  ∧ w_stdout (tick cfg w).2 = w_stdout w
  ∧ ∀ c, (tick cfg w).1 = Exiting c → c = 0%Z.
Proof.
  unfold tick. destruct (w_signal w) as [[|n]|]; simpl; repeat split; auto;
    try discriminate. by intros c [= <-].
Qed.

Lemma exists_after_tick (p : string) (w w' : world) (u : unit) :
  tick cfg w = (Normal u, w') → OsPath.exists_ p w' = OsPath.exists_ p w.
Proof.
  intros Ht. destruct (tick_frame w) as (Hf & Hd & _). rewrite Ht in Hf, Hd.
  unfold OsPath.exists_, OsPath.isdir. simpl in *. by rewrite Hf, Hd.
Qed.

(** With the key in place, constructing the loader prints nothing. *)
Lemma loader_init_stdout (key_path : string) (r : bytes) (w : world) :
  OsPath.exists_ key_path w = true →
  w_stdout (SecureModelLoader_init key_path r w).2 = w_stdout w.
Proof.
  intros Hex. unfold SecureModelLoader_init, ModelEncryption_init.
  apply stdout_bind; [|by intros].
  apply stdout_bind; [|intros [] w1 _].
  2:{ apply stdout_bind; [apply (f_equal w_stdout (readonly_read_file _ _)) |].
      intros k w2 _. by destruct (fernet_valid_key k). }
  unfold _ensure_key_exists.
  apply stdout_bind; [unfold os_makedirs; by repeat case_match |].
  intros [] w1 Hmk.
  assert (Hex1 : OsPath.exists_ key_path w1 = true).
  { unfold os_makedirs in Hmk. repeat case_match; simplify_eq; try done.
    unfold OsPath.exists_ in *. rewrite isdir_add_dir.
    simpl. apply orb_true_iff in Hex as [-> | ->]; [done|].
    by rewrite !orb_true_r. }
  apply stdout_bind; [done|]. intros present w2 [= <- <-]. by rewrite Hex1.
Qed.

(** [load_model_securely] writes nothing to the protocol channel, however
    it ends, and exits only with status 0 (through the signal handler). *)
Lemma load_model_securely_frame (r : bytes) (w : world) :
  w_stdout (load_model_securely cfg r w).2 = w_stdout w
  ∧ ∀ c, (load_model_securely cfg r w).1 = Exiting c → c = 0%Z.
Proof.
  unfold load_model_securely. split.
  - apply stdout_bind; [apply tick_frame | intros [] w1 _].
    apply stdout_bind; [done | intros [] w2 _].
    apply stdout_bind; [apply tick_frame | intros [] w3 _].
    apply stdout_bind; [done | intros mp w4 _].
    destruct (negb mp); [done|].
    apply stdout_bind; [done | intros kp w5 [= <- <-]].
    destruct (OsPath.exists_ (MODEL_KEY_PATH cfg) w4) eqn:Hkey; [|done]. simpl.
    apply stdout_bind; [apply tick_frame | intros [] w6 Ht].
    apply stdout_bind;
      [apply loader_init_stdout; by rewrite (exists_after_tick _ _ _ _ Ht) |].
    intros loader w7 _.
    apply stdout_bind; [apply tick_frame | intros [] w8 _].
    apply stdout_bind; [by rewrite readonly_load_encrypted_model |].
    intros m w9 _.
    apply stdout_bind; [apply tick_frame | intros [] w10 _].
    by apply stdout_bind.
  - intros c.
    apply exit_bind; [apply tick_frame | intros [] w1 c1 _].
    apply exit_bind; [done | intros [] w2 c2 _].
    apply exit_bind; [apply tick_frame | intros [] w3 c3 _].
    apply exit_bind; [done | intros mp w4 c4 _].
    destruct (negb mp); [done|].
    apply exit_bind; [done | intros kp w5 c5 _].
    destruct (negb kp); [done|].
    apply exit_bind; [apply tick_frame | intros [] w6 c6 _].
    apply exit_bind;
      [intros c' Hc;
       by destruct (proj2 (keeps_SecureModelLoader_init (MODEL_KEY_PATH cfg) r w6) c') |].
    intros loader w7 c7 _.
    apply exit_bind; [apply tick_frame | intros [] w8 c8 _].
    apply exit_bind;
      [intros c' Hc;
       by destruct (proj2 (keeps_load_encrypted_model loader (MODEL_PATH cfg) w8) c') |].
    intros m w9 c9 _.
    apply exit_bind; [apply tick_frame | intros [] w10 c10 _].
    by apply exit_bind.
Qed.

End StartupFacts.

Section ServerFacts.
Context `{Libraries} `{!Runtime}.
Variable cfg : config.

Lemma startup_frame (r : bytes) (w : world) :
  w_stdout (startup cfg r w).2 = w_stdout w
  ∧ ∀ c, (startup cfg r w).1 = Exiting c → c = 0%Z.
Proof.
  unfold startup. split.
  - apply stdout_bind; [apply tick_frame | intros [] w1 _].
    apply stdout_bind; [done | intros [] w2 _].
    apply load_model_securely_frame.
  - intros c.
    apply exit_bind; [apply tick_frame | intros [] w1 c1 _].
    apply exit_bind; [done | intros [] w2 c2 _].
    apply load_model_securely_frame.
Qed.

(** X6: the readiness marker is the first thing on the protocol channel.
    In every world, for every input and whatever signal is on its way,
    [run_server] either adds nothing to what the channel held, or what it
    adds begins with the line READY: nothing the startup prints, and no
    response, can come before it. *)
Theorem ready_marker_comes_first (r : bytes) (lines : list string) (w : world) :
  w_stdout (run_server cfg r lines w).2 = w_stdout w
  ∨ ∃ rest, w_stdout (run_server cfg r lines w).2 = w_stdout w ++ "READY" :: rest.
Proof.
  destruct (startup_frame r w) as [Hout _].
  destruct (startup cfg r w) as [[model|e|c] w1] eqn:Hs; simpl in Hout.
  - destruct (run_server_ready cfg r lines w w1 model Hs)
      as (f & w' & out & -> & Hout' & Hcase). simpl. rewrite Hout', Hout.
    assert (Hpre : out `prefix_of` "READY" :: (response_line model w1 <$> lines)).
    { destruct Hcase as [(-> & _) | (_ & _ & Hp)]; done. }
    destruct out as [|s rest].
    + left. apply app_nil_r.
    + right. destruct Hpre as [k Hk]. injection Hk as <- _. by exists rest.
  - left. rewrite run_server_startup. unfold io_bind. by rewrite Hs.
  - left. rewrite run_server_startup. unfold io_bind. by rewrite Hs.
Qed.

(** X7: the exit status of the worker, from the moment [main] has
    installed its two signal handlers and for request lines that were
    read from the input as text.  In server mode such a run of [main]
    ends with status 1 exactly when the startup raised, and then the
    protocol channel holds nothing new; when the startup did not raise
    (the input ended, or a signal stopped the worker through the handler,
    during startup or later) the status is 0.  No request line, whatever
    its handling raises, changes the status.  Two things are outside this
    statement, since [run_process] starts with the handlers in place and
    takes the lines decoded: a signal that arrives before the handlers
    are installed ends the process by the signal itself, and input bytes
    that do not decode raise out of [for line in sys.stdin], which is
    not inside the [try]. *)
Theorem server_exit_status (r : bytes) (rest lines : list string) (w : world) :
  match (startup cfg r w).1 with
  | Raised e =>
      (run_process cfg r ("--server-mode" :: rest) lines w).1 = 1%Z
      ∧ w_stdout (run_process cfg r ("--server-mode" :: rest) lines w).2 = w_stdout w
  | _ => (run_process cfg r ("--server-mode" :: rest) lines w).1 = 0%Z
  end.
Proof.
  destruct (startup_frame r w) as [Hout Hexit].
  unfold run_process, main.
  destruct (startup cfg r w) as [[model|e|c] w1] eqn:Hs; simpl in *.
  - destruct (run_server_ready cfg r lines w w1 model Hs)
      as (f & w' & out & -> & _ & [(_ & _ & ->) | (-> & _)]); done.
  - rewrite run_server_startup. unfold io_bind. by rewrite Hs.
  - rewrite run_server_startup. unfold io_bind. rewrite Hs. by apply Hexit.
Qed.

End ServerFacts.

Section TamperedStartup.
Context `{Libraries} `{!Runtime} `{!LibraryLaws}.
Variable cfg : config.

(** X8: a worker started on an artifact with an altered hash never
    becomes ready.  With a valid key in place at a key path that has a
    directory part (not a bare file name), that directory part not being
    a regular file, and a container whose ciphertext is genuine but whose
    stored hash is not the digest of the model bytes (and no signal),
    [run_server] raises the integrity [ValueError] out of the startup:
    the process exits with status 1 and has written nothing to the
    protocol channel. *)
Theorem tampered_artifact_stops_startup (r r0 : bytes) (lines : list string) (w : world)
    (kf cf : file) (pkg : package) (data : bytes) :
  w_signal w = None →
  w_files w !! MODEL_KEY_PATH cfg = Some kf →
  fernet_valid_key (f_data kf) = true →
  OsPath.dirname (MODEL_KEY_PATH cfg) ≠ "" →
  w_files w !! OsPath.dirname (MODEL_KEY_PATH cfg) = None →
  w_files w !! MODEL_PATH cfg = Some cf →
  torch_load (f_data cf) = Ok pkg →
  pkg_data pkg = fernet_encrypt (f_data kf) r0 data →
  hash (pkg_metadata pkg) ≠ sha256_hexdigest data →
  (run_server cfg r lines w).1
  = Raised (ValueError "Model integrity check failed - possible tampering")
  ∧ w_stdout (run_server cfg r lines w).2 = w_stdout w
  ∧ (run_process cfg r ["--server-mode"] lines w).1 = 1%Z
  ∧ w_stdout (run_process cfg r ["--server-mode"] lines w).2 = w_stdout w.
Proof.
  intros Hsig Hkey Hvalid Hd Hdf Hmodel Hload Hdata Hhash.
  set (wa := add_stderr ("Worker " +:+ WORKER_ID cfg +:+ ": Initializing...") w).
  set (wb := add_stderr ("🔐 Loading encrypted model from " +:+ MODEL_PATH cfg) wa).
  assert (Hexm : OsPath.exists_ (MODEL_PATH cfg) wb = true).
  { unfold OsPath.exists_. simpl. rewrite Hmodel.
    by rewrite bool_decide_eq_true_2 by eauto. }
  assert (Hexk : OsPath.exists_ (MODEL_KEY_PATH cfg) wb = true).
  { unfold OsPath.exists_. simpl. rewrite Hkey.
    by rewrite bool_decide_eq_true_2 by eauto. }
  destruct (init_with_key_present (MODEL_KEY_PATH cfg) r wb kf)
    as (wc & Hinit & Hfc & Hoc & _ & Hsc); [done..|].
  rewrite Hvalid in Hinit.
  set (self := Build_ModelEncryption (MODEL_KEY_PATH cfg) (f_data kf)) in *.
  assert (Hdec : decrypt_model self (MODEL_PATH cfg) wc
            = (Raised (ValueError "Model integrity check failed - possible tampering"), wc)).
  { eapply decrypt_model_hash_mismatch; [by rewrite Hfc | exact Hload | | ].
    - rewrite Hdata. apply decrypt_encrypt.
    - congruence. }
  assert (Hrun : load_model_securely cfg r wa
            = (Raised (ValueError "Model integrity check failed - possible tampering"), wc)).
  { unfold load_model_securely.
    erewrite io_bind_Normal; [| by apply tick_no_signal]. cbv beta.
    erewrite io_bind_Normal; [| reflexivity]. cbv beta. fold wb.
    erewrite io_bind_Normal; [| by apply tick_no_signal]. cbv beta.
    erewrite io_bind_Normal; [| reflexivity]. cbv beta. rewrite Hexm. cbn [negb]. cbv iota.
    erewrite io_bind_Normal; [| reflexivity]. cbv beta. rewrite Hexk. cbn [negb]. cbv iota.
    erewrite io_bind_Normal; [| by apply tick_no_signal]. cbv beta.
    erewrite io_bind_Normal;
      [| unfold SecureModelLoader_init; erewrite io_bind_Normal; [reflexivity | exact Hinit]].
    cbv beta.
    erewrite io_bind_Normal; [| apply tick_no_signal; by rewrite Hsc]. cbv beta.
    apply io_bind_Raised. unfold load_encrypted_model.
    by apply io_bind_Raised. }
  assert (Hserver : run_server cfg r lines w
            = (Raised (ValueError "Model integrity check failed - possible tampering"), wc)).
  { unfold run_server.
    erewrite io_bind_Normal; [| by apply tick_no_signal]. cbv beta.
    erewrite io_bind_Normal; [| reflexivity]. cbv beta. fold wa.
    by apply io_bind_Raised. }
  unfold run_process, main. rewrite Hserver. simpl. by rewrite Hoc.
Qed.

End TamperedStartup.

(** The sample machine with the stored hash of the container replaced. *)
Definition tampered_server_world : world :=
  World (<[ "./saved_models/best_model.encrypted" := File (Sample.save SampleRun.forged) 420 ]>
         {[ "./secrets/model.key" := File SampleRun.the_key 384 ]})
        {[ "./secrets"; "./saved_models" ]} [] [] None.

Lemma tampered_artifact_stops_startup_witness :
  (run_server SampleWorker.cfg [] SampleWorker.requests tampered_server_world).1
  = Raised (ValueError "Model integrity check failed - possible tampering")
  ∧ w_stdout (run_server SampleWorker.cfg [] SampleWorker.requests tampered_server_world).2
    = w_stdout tampered_server_world
  ∧ (run_process SampleWorker.cfg [] ["--server-mode"] SampleWorker.requests
       tampered_server_world).1 = 1%Z
  ∧ w_stdout (run_process SampleWorker.cfg [] ["--server-mode"] SampleWorker.requests
                tampered_server_world).2
    = w_stdout tampered_server_world.
Proof.
  apply (tampered_artifact_stops_startup SampleWorker.cfg [] [] SampleWorker.requests
           tampered_server_world (File SampleRun.the_key 384)
           (File (Sample.save SampleRun.forged) 420) SampleRun.forged SampleRun.model_bytes).
  - reflexivity.
  - reflexivity.
  - reflexivity.
  - discriminate.
  - reflexivity.
  - reflexivity.
  - exact (load_save SampleRun.forged).
  - reflexivity.
  - discriminate.
Defined.

(** ** Single-shot mode ([main] without [--server-mode]) *)

Section SingleShot.
Context `{Libraries} `{!Runtime}.
Variable cfg : config.
Local Open Scope io_scope.

(** Whether [main] takes the server branch:
    [len(sys.argv) > 1 and sys.argv[1] == "--server-mode"]. *)
Definition server_mode (argv : list string) : bool :=
  match argv with
  | s :: _ => String.eqb s "--server-mode"
  | [] => false
  end.

(** The other branch of [main], on its own. *)
Definition single_shot (r : bytes) (argv : list string) : io unit :=
  try_except
    (match argv with
     | [] => raise (ValueError "No image path provided")
     | image_path :: _ =>
         tick cfg ;;;
         present <- os_path_exists image_path ;;
         if negb present
         then raise (Exn "FileNotFoundError" ("Image not found: " +:+ image_path))
         else
           model <- load_model_securely cfg r ;;
           result <- predict cfg model (JStr image_path) ;;
           tick cfg ;;;
           stdout_write (json_dumps (success_response result))
     end)
    (λ e, tick cfg ;;; stdout_write (json_dumps (error_response e)) ;;; sys_exit 1).

Lemma main_single_shot (r : bytes) (argv lines : list string) :
  server_mode argv = false → main cfg r argv lines = single_shot r argv.
Proof.
  destruct argv as [|p rest]; [reflexivity|]. simpl. intros Hp.
  unfold main, single_shot.
  generalize (run_server cfg r lines).
  match goal with |- ∀ _, _ = ?b => generalize b end.
  intros b a.
  repeat match goal with
         | |- context [match ?x with _ => _ end] => is_var x; destruct x; try reflexivity
         end.
  discriminate.
Qed.

Lemma single_shot_handler (e : exn) (w : world) :
  w_signal w = None →
  (tick cfg ;;; stdout_write (json_dumps (error_response e)) ;;; sys_exit (A := unit) 1) w
  = (Exiting 1, add_stdout (json_dumps (error_response e)) w).
Proof. intros Hw. unfold io_bind. by rewrite tick_no_signal. Qed.

(** X9: single-shot mode answers once.  Started without [--server-mode]
    and with no signal on its way, the script writes exactly one line to
    the protocol channel, whatever happens: the success response and exit
    status 0, or the failure response of the exception and exit status 1.
    Without an argument the failure is "No image path provided"; for an
    image path that does not exist it is "Image not found", and the model
    is not looked for.  The standard input is never read. *)
Theorem single_shot_answers_once (r : bytes) (argv lines : list string) (w : world) :
  server_mode argv = false →
  w_signal w = None →
  ∃ response,
    w_stdout (run_process cfg r argv lines w).2 = w_stdout w ++ [json_dumps response]
    ∧ (((run_process cfg r argv lines w).1 = 0%Z ∧ ∃ data, response = success_response data)
       ∨ ((run_process cfg r argv lines w).1 = 1%Z ∧ ∃ e, response = error_response e))
    ∧ (argv = [] → response = error_response (ValueError "No image path provided"))
    ∧ (∀ p rest, argv = p :: rest → OsPath.exists_ p w = false →
         response = error_response (Exn "FileNotFoundError" ("Image not found: " +:+ p))
         ∧ w_files (run_process cfg r argv lines w).2 = w_files w
         ∧ w_dirs (run_process cfg r argv lines w).2 = w_dirs w
         ∧ w_stderr (run_process cfg r argv lines w).2 = w_stderr w).
Proof.
  intros Hmode Hw. unfold run_process. rewrite (main_single_shot r argv lines Hmode).
  assert (Hrun : ∃ response f w',
    single_shot r argv w = (f, w')
    ∧ w_stdout w' = w_stdout w ++ [json_dumps response]
    ∧ ((f = Normal () ∧ ∃ data, response = success_response data)
       ∨ (f = Exiting 1 ∧ ∃ e, response = error_response e))
    ∧ (argv = [] → response = error_response (ValueError "No image path provided"))
    ∧ (∀ p rest, argv = p :: rest → OsPath.exists_ p w = false →
         response = error_response (Exn "FileNotFoundError" ("Image not found: " +:+ p))
         ∧ w_files w' = w_files w ∧ w_dirs w' = w_dirs w ∧ w_stderr w' = w_stderr w)).
  { clear Hmode. unfold single_shot, try_except.
    destruct argv as [|p rest].
    { simpl. rewrite single_shot_handler by done.
      eexists _, _, _. split; [reflexivity|]. simpl.
      split; [done|]. split; [right; eauto|]. split; [done|]. by intros p rest. }
    erewrite io_bind_Normal; [| by apply tick_no_signal]. cbv beta.
    erewrite io_bind_Normal; [| reflexivity]. cbv beta.
    destruct (OsPath.exists_ p w) eqn:Hex; cbn [negb]; cbv iota.
    2:{ unfold raise. rewrite single_shot_handler by done.
        eexists _, _, _. split; [reflexivity|]. simpl.
        split; [done|]. split; [right; eauto|]. split; [intros [=]|].
        by intros p' rest' [= <- <-] _. }
    destruct (quiet_load_model_securely cfg r w Hw) as [Hw1 Hx1].
    destruct (load_model_securely_frame cfg r w) as [Ho1 _].
    unfold io_bind at 1.
    destruct (load_model_securely cfg r w) as [[model|e|c] w1]; simpl in Hw1, Hx1, Ho1.
    - destruct (refines_predict cfg model w1 (JStr p) w1 eq_refl eq_refl)
        as (f & w2 & o & Hrun & _ & _ & Ho2 & [(-> & Hw2 & Hres) | (_ & Hne & _)]); [|done].
      rewrite app_nil_r in Ho2. specialize (Hw2 Hw1).
      unfold io_bind at 1. rewrite Hrun.
      destruct (predict_result model w1 (JStr p)) as [data|e]; subst f.
      + unfold io_bind. rewrite tick_no_signal by done.
        eexists (success_response data), _, _. split; [reflexivity|]. simpl.
        rewrite Ho2, Ho1.
        split; [done|]. split; [left; eauto|]. split; [intros [=]|].
        intros p' rest' [= <- <-] Hex'. congruence.
      + rewrite single_shot_handler by done.
        eexists (error_response e), _, _. split; [reflexivity|]. simpl.
        rewrite Ho2, Ho1.
        split; [done|]. split; [right; eauto|]. split; [intros [=]|].
        intros p' rest' [= <- <-] Hex'. congruence.
    - rewrite single_shot_handler by done.
      eexists (error_response e), _, _. split; [reflexivity|]. simpl.
      rewrite Ho1.
      split; [done|]. split; [right; eauto|]. split; [intros [=]|].
      intros p' rest' [= <- <-] Hex'. congruence.
    - by destruct (Hx1 c). }
  destruct Hrun as (response & f & w' & -> & Hout & Hcase & Hnone & Hmissing).
  exists response.
  destruct Hcase as [[-> Hd] | [-> He]]; simpl.
  - split; [done|]. split; [by left|]. split; done.
  - split; [done|]. split; [by right|]. split; done.
Qed.

End SingleShot.

Section LoopFacts.
Context `{Libraries} `{!Runtime}.
Variable cfg : config.

(** X10: no request line can bring the worker down or make it touch the
    disk.  In every world, for every list of request lines read from the
    input as text, and whatever signal is on its way, the handling of the
    lines ends in one of two ways only: the loop returns after the last
    line, or the signal handler stops it with status 0.  No exception
    raised while a line is handled escapes the loop, and the loop leaves
    every file and directory as it was.  The reading itself is not
    covered: [for line in sys.stdin] stands outside the [try], and input
    bytes that do not decode raise [UnicodeDecodeError] there; [serve]
    takes the lines already decoded. *)
Theorem request_loop_never_raises (model : model) (lines : list string) (w : world) :
  ((serve cfg model lines w).1 = Normal ()
   ∨ ((serve cfg model lines w).1 = Exiting 0 ∧ w_signal w ≠ None))
  ∧ w_files (serve cfg model lines w).2 = w_files w
  ∧ w_dirs (serve cfg model lines w).2 = w_dirs w.
Proof.
  destruct (refines_serve cfg model w lines w eq_refl eq_refl)
    as (f & w' & o & -> & Hf & Hd & _ & Hcase). simpl.
  split; [|done].
  destruct Hcase as [(_ & _ & ->) | (-> & Hne & _)]; [by left | by right].
Qed.

End LoopFacts.

(** ** The classification result *)

(** [np.argmax] on a vector without NaN: the index it returns holds a
    largest entry, and every entry before it is strictly smaller. *)
Lemma argmax_from_spec (v : list float) (rest : list float) (best_index i : nat)
    (best : float) :
  Forall FloatOrder.not_nan v →
  v !! best_index = Some best →
  (best_index < i)%nat →
  drop i v = rest →
  (∀ j x, (j < i)%nat → v !! j = Some x → PrimFloat.ltb best x = false) →
  (∀ j x, (j < best_index)%nat → v !! j = Some x → PrimFloat.ltb x best = true) →
  ∃ m, v !! argmax_from best_index best i rest = Some m
       ∧ (∀ j x, v !! j = Some x → PrimFloat.ltb m x = false)
       ∧ (∀ j x, (j < argmax_from best_index best i rest)%nat → v !! j = Some x →
            PrimFloat.ltb x m = true).
Proof.
  intros Hnan. revert best_index i best.
  induction rest as [|x rest IH]; intros best_index i best Hb Hlt Hdrop Hmax Hfirst; simpl.
  - exists best. split; [done|]. split; [|done].
    intros j y Hj. apply Hmax with j; [|done].
    apply lookup_lt_Some in Hj.
    apply (f_equal length) in Hdrop. rewrite length_drop in Hdrop. simpl in Hdrop. lia.
  - assert (Hi : v !! i = Some x).
    { pose proof (lookup_drop v i 0) as Hl. rewrite Hdrop, Nat.add_0_r in Hl. done. }
    assert (Hrest : drop (S i) v = rest).
    { rewrite (drop_S v x i Hi) in Hdrop. by injection Hdrop. }
    rewrite Forall_forall in Hnan.
    assert (Hnb : FloatOrder.not_nan best) by (apply Hnan; by eapply list_elem_of_lookup_2).
    assert (Hnx : FloatOrder.not_nan x) by (apply Hnan; by eapply list_elem_of_lookup_2).
    destruct (PrimFloat.ltb best x) eqn:E.
    + apply IH; auto.
      * intros j y Hj Hy.
        assert (Hny : FloatOrder.not_nan y) by (apply Hnan; by eapply list_elem_of_lookup_2).
        destruct (decide (j = i)) as [-> | Hne].
        { rewrite Hi in Hy. injection Hy as <-.
          apply not_true_iff_false. rewrite FloatOrder.ltb_lex by done.
          apply FloatOrder.lex_lt_irrefl. }
        assert (Hby : PrimFloat.ltb best y = false) by (apply Hmax with j; [lia | done]).
        apply not_true_iff_false in Hby. rewrite FloatOrder.ltb_lex in Hby by done.
        apply FloatOrder.ltb_lex in E; [|done..].
        apply not_true_iff_false. rewrite FloatOrder.ltb_lex by done.
        revert Hby E. unfold FloatOrder.lex_lt. lia.
      * intros j y Hj Hy.
        assert (Hny : FloatOrder.not_nan y) by (apply Hnan; by eapply list_elem_of_lookup_2).
        assert (Hby : PrimFloat.ltb best y = false) by (apply Hmax with j; [lia | done]).
        apply not_true_iff_false in Hby. rewrite FloatOrder.ltb_lex in Hby by done.
        apply FloatOrder.ltb_lex in E; [|done..].
        rewrite FloatOrder.ltb_lex by done.
        revert Hby E. unfold FloatOrder.lex_lt. lia.
    + apply IH; auto.
      intros j y Hj Hy.
      destruct (decide (j = i)) as [-> | Hne]; [congruence|].
      apply Hmax with j; [lia | done].
Qed.

Lemma argmax_spec (probabilities : list float) (i : nat) :
  Forall FloatOrder.not_nan probabilities →
  argmax probabilities = Ok i →
  ∃ m, probabilities !! i = Some m
       ∧ (∀ j x, probabilities !! j = Some x → PrimFloat.ltb m x = false)
       ∧ (∀ j x, (j < i)%nat → probabilities !! j = Some x → PrimFloat.ltb x m = true).
Proof.
  intros Hnan Harg. destruct probabilities as [|x rest]; [done|].
  simpl in Harg. injection Harg as <-.
  apply (argmax_from_spec (x :: rest) rest 0 1 x); auto.
  - intros j y Hj Hy. assert (j = 0)%nat as -> by lia. injection Hy as <-.
    apply Forall_cons in Hnan as [Hx _].
    apply not_true_iff_false. rewrite FloatOrder.ltb_lex by done.
    apply FloatOrder.lex_lt_irrefl.
  - intros j y Hj. lia.
Qed.

Lemma comprehension_Ok_inv {A B : Type} (f : A → res B) (l : list A) (ys : list B) :
  comprehension f l = Ok ys → ∀ x, x ∈ l → ∃ y, f x = Ok y.
Proof.
  revert ys. induction l as [|a l IH]; intros ys Hc x Hx; [by apply elem_of_nil in Hx|].
  simpl in Hc. destruct (f a) as [y|e] eqn:Ha; simpl in Hc; [|done].
  destruct (comprehension f l) as [ys'|e] eqn:Hl; simpl in Hc; [|done].
  apply elem_of_cons in Hx as [-> | Hx]; [eauto | by eapply IH].
Qed.

(** The ranking can be built only from a vector with an entry for every
    class. *)
Lemma all_probabilities_Ok_length (times100 : float → float) (probabilities : list float)
    (ranked : list prob_entry) :
  all_probabilities times100 probabilities = Ok ranked →
  (length classes ≤ length probabilities)%nat.
Proof.
  unfold all_probabilities. intros Hall.
  destruct (comprehension _ _) as [ys|e] eqn:Hc; simpl in Hall; [|done].
  destruct (decide (length classes ≤ length probabilities)%nat) as [|Hlt]; [done|].
  destruct (comprehension_Ok_inv _ _ _ Hc (length probabilities)) as [y Hy].
  { apply elem_of_seq. lia. }
  unfold entry_at in Hy. destruct (classes !! length probabilities); [|done].
  by rewrite (proj2 (lookup_ge_None probabilities (length probabilities))) in Hy by lia.
Qed.

(** The first entry of the ranking is the entry of the index [np.argmax]
    picks. *)
Lemma ranking_head (times100 : float → float) (probabilities : list float) (i : nat)
    (c : string) (ranked : list prob_entry) :
  Forall FloatOrder.not_nan probabilities →
  argmax probabilities = Ok i →
  classes !! i = Some c →
  all_probabilities times100 probabilities = Ok ranked →
  ∃ top rest, ranked = top :: rest ∧ pe_class top = c
              ∧ probabilities !! i = Some (pe_confidence top).
Proof.
  intros Hnan Harg Hc Hall.
  pose proof (all_probabilities_Ok_length _ _ _ Hall) as Hlen.
  destruct (unsorted_probs times100 probabilities Hlen) as (ys & Hys & Hcls & Hlk).
  unfold all_probabilities in Hall. rewrite Hys in Hall. simpl in Hall.
  injection Hall as <-.
  destruct (argmax_spec probabilities i Hnan Harg) as (m & Hm & Hmax & Hfirst).
  set (ok := λ e : prob_entry, FloatOrder.not_nan (pe_confidence e)).
  assert (Hok : Forall ok ys).
  { apply Forall_forall. intros e [j He]%list_elem_of_lookup_1.
    destruct (Hlk _ _ He) as [_ Hp]. rewrite Forall_forall in Hnan.
    apply Hnan. by eapply list_elem_of_lookup_2. }
  assert (Hasym : ∀ x y, ok x → ok y → confidence_lt x y = true → confidence_lt y x = false)
    by (intros; by apply confidence_lt_asym).
  assert (Hneg : ∀ x y z, ok x → ok y → ok z → confidence_lt x y = false →
                          confidence_lt y z = false → confidence_lt x z = false)
    by (intros x y z ?????; by apply (confidence_lt_negtrans x y z)).
  pose proof (sort_desc_perm confidence_lt ys) as Hperm.
  pose proof (sort_desc_sorted confidence_lt ok Hasym Hneg ys Hok) as Hsorted.
  (* the entry of the predicted index *)
  destruct (lookup_lt_is_Some_2 ys i) as [e He].
  { rewrite <- (length_fmap pe_class ys), Hcls. by eapply lookup_lt_Some. }
  destruct (Hlk _ _ He) as [Hce Hpe].
  assert (pe_class e = c) as Hclass by congruence.
  assert (pe_confidence e = m) as Hconf by congruence.
  assert (Hin : e ∈ sort_desc confidence_lt ys).
  { rewrite Hperm. by eapply list_elem_of_lookup_2. }
  apply list_elem_of_lookup_1 in Hin as [k Hk].
  destruct (sort_desc confidence_lt ys) as [|top rest] eqn:Hs; [done|].
  exists top, rest. split; [done|].
  destruct k as [|k].
  { injection Hk as ->. by rewrite Hconf. }
  exfalso.
  assert (Htop : top ∈ ys) by (rewrite <- Hperm; set_solver).
  apply list_elem_of_lookup_1 in Htop as [it Hit].
  destruct (Hlk _ _ Hit) as [Hct Hpt].
  assert (Hte : confidence_lt top e = false).
  { apply (StronglySorted_lookup (λ a b, confidence_lt a b = false) (top :: rest)
             0 (S k) top e); auto. lia. }
  assert (Het : confidence_lt e top = false).
  { unfold confidence_lt. rewrite Hconf. by eapply Hmax. }
  destruct (sort_desc_stable confidence_lt ok Hasym Hneg ys top e Hok Hte Het)
    as (ia & ib & Hia & Hib & Hlt).
  { rewrite Hs. exists 0%nat, (S k). repeat split; auto. lia. }
  assert (ib = i) as ->.
  { destruct (Hlk _ _ Hib) as [Hcb _].
    eapply NoDup_lookup; [apply classes_NoDup | exact Hcb | exact Hce]. }
  destruct (Hlk _ _ Hia) as [_ Hpa].
  assert (confidence_lt top e = true); [|congruence].
  unfold confidence_lt. rewrite Hconf. by eapply Hfirst.
Qed.

Section ResultFacts.
Context `{Libraries} `{!Runtime}.

(** [result.get(k)] *)
Definition result_field (k : string) (result : json) : option json :=
  match result with
  | JObj fields => dict_get k fields
  | _ => None
  end.

(** X11: the predicted class is the top of the ranking.  Whenever
    [predict] builds a result from a probability vector without NaN, the
    list under [all_probabilities] is not empty, and its first entry
    carries the class and the confidence reported as [predicted_class] and
    [confidence]: [np.argmax] and the stable descending sort agree, also
    when the largest probability occurs more than once. *)
Theorem predicted_class_tops_ranking (probabilities : list float) (result : json) :
  Forall FloatOrder.not_nan probabilities →
  classification probabilities = Ok result →
  ∃ top rest,
    result_field "all_probabilities" result = Some (JArr (entry_json top :: rest))
    ∧ result_field "predicted_class" result = Some (JStr (pe_class top))
    ∧ result_field "confidence" result = Some (JFloat (pe_confidence top)).
Proof.
  intros Hnan Hres. unfold classification in Hres.
  destruct (argmax probabilities) as [i|e] eqn:Harg; simpl in Hres; [|done].
  destruct (classes !! i) as [c|] eqn:Hc; simpl in Hres; [|done].
  destruct (parse_class_name c) as [category subtype].
  destruct (all_probabilities f32_times100 probabilities) as [ranked|e] eqn:Hall;
    simpl in Hres; [|done].
  injection Hres as <-.
  destruct (ranking_head _ _ _ _ _ Hnan Harg Hc Hall) as (top & rest & -> & <- & Hp).
  exists top, (entry_json <$> rest). rewrite Hp. by repeat split.
Qed.

End ResultFacts.

Lemma argmax_from_bound (best_index i : nat) (best : float) (rest : list float) :
  (best_index < i)%nat → (argmax_from best_index best i rest < i + length rest)%nat.
Proof.
  revert best_index i best. induction rest as [|x rest IH]; intros best_index i best Hlt; simpl.
  - lia.
  - destruct (PrimFloat.ltb best x).
    + specialize (IH i (S i) x). lia.
    + specialize (IH best_index (S i) best). lia.
Qed.

(** [np.argmax] fails on the empty vector only, and answers an index of
    the vector. *)
Lemma argmax_bound (probabilities : list float) :
  match argmax probabilities with
  | Ok i => (i < length probabilities)%nat
  | Raise e => probabilities = []
               ∧ e = ValueError "attempt to get argmax of an empty sequence"
  end.
Proof.
  destruct probabilities as [|x rest]; simpl; [done|].
  pose proof (argmax_from_bound 0 1 x rest). lia.
Qed.

Lemma comprehension_first_failure {A B : Type} (f : A → res B) (l1 l2 : list A) (x : A)
    (e : exn) :
  (∀ y, y ∈ l1 → ∃ z, f y = Ok z) → f x = Raise e →
  comprehension f (l1 ++ x :: l2) = Raise e.
Proof.
  intros Hl1 Hx. induction l1 as [|y l1 IH]; simpl.
  - by rewrite Hx.
  - destruct (Hl1 y) as [z ->]; [set_solver|]. simpl.
    rewrite IH; [done|]. intros; apply Hl1; set_solver.
Qed.

(** On a vector with fewer entries than classes the comprehension stops
    at the first index past its end. *)
Lemma all_probabilities_short (times100 : float → float) (probabilities : list float) :
  (length probabilities < length classes)%nat →
  all_probabilities times100 probabilities
  = Raise (IndexError (length probabilities) (length probabilities)).
Proof.
  intros Hlt. unfold all_probabilities.
  set (n := length probabilities) in *.
  assert (Hseq : seq 0 (length classes) = seq 0 n ++ n :: seq (S n) (length classes - S n)).
  { replace (length classes) with (n + S (length classes - S n))%nat at 1 by lia.
    by rewrite seq_app. }
  rewrite Hseq.
  rewrite (comprehension_first_failure _ _ _ _ (IndexError n n)); [done | |].
  - intros i Hi%elem_of_seq. unfold entry_at.
    destruct (lookup_lt_is_Some_2 classes i) as [c ->]; [lia|].
    destruct (lookup_lt_is_Some_2 probabilities i) as [p ->]; [subst n; lia|]. eauto.
  - unfold entry_at.
    destruct (lookup_lt_is_Some_2 classes n) as [c ->]; [lia|].
    by rewrite (proj2 (lookup_ge_None probabilities n)) by (subst n; lia).
Qed.

Lemma get_confidence_level_band (confidence : float) :
  get_confidence_level confidence = band_label (band_of confidence).
Proof.
  unfold get_confidence_level, band_of, float_ge. repeat case_match; reflexivity.
Qed.

(** Both tables have an entry for every configured class, and no list of
    recommendations is empty. *)
Lemma tables_cover_classes (c : string) :
  c ∈ classes →
  (∃ text, dict_get c explanations = Some text)
  ∧ (∃ advice, dict_get c recommendations = Some advice ∧ advice ≠ []).
Proof.
  unfold classes. intros Hc.
  repeat (apply elem_of_cons in Hc as [-> | Hc];
          [split; eexists; [reflexivity | split; [reflexivity | discriminate]] |]).
  by apply elem_of_nil in Hc.
Qed.

Lemma append_assoc (a b c : string) : (a +:+ b) +:+ c = a +:+ (b +:+ c).
Proof.
  induction a as [|x a IH]; [done|].
  change (String x ((a +:+ b) +:+ c) = String x (a +:+ (b +:+ c))). by rewrite IH.
Qed.

Section ResultShape.
Context `{Libraries} `{!Runtime}.

Lemma generate_explanation_prefix (predicted_class : string) (confidence : float)
    (conf_level : string) :
  ∃ tail,
    generate_explanation predicted_class confidence conf_level
    = default ("Plant classified as " +:+ predicted_class +:+ ".")
              (dict_get predicted_class explanations) +:+ tail.
Proof.
  unfold generate_explanation. cbv zeta.
  destruct (String.eqb conf_level "Low"); eexists; rewrite ?append_assoc; reflexivity.
Qed.

(** X12: when [predict] cannot build a result.  From the probability
    vector on, the empty vector raises the [ValueError] of [np.argmax]; a
    vector shorter than the class list raises numpy's [IndexError] at the
    first missing index (after the prediction itself was made); a longer
    vector whose largest entry lies past the class list raises the
    [IndexError] of the list; and in every other case, a vector with an
    entry per class whose largest entry belongs to a class, a result is
    returned. *)
Theorem classification_outcomes (probabilities : list float) :
  (probabilities = [] →
   classification probabilities
   = Raise (ValueError "attempt to get argmax of an empty sequence"))
  ∧ (probabilities ≠ [] → (length probabilities < length classes)%nat →
     classification probabilities
     = Raise (IndexError (length probabilities) (length probabilities)))
  ∧ (∀ i, argmax probabilities = Ok i → (length classes ≤ i)%nat →
     classification probabilities = Raise (Exn "IndexError" "list index out of range"))
  ∧ (∀ i, argmax probabilities = Ok i → (i < length classes)%nat →
     (length classes ≤ length probabilities)%nat →
     ∃ result, classification probabilities = Ok result).
Proof.
  pose proof (argmax_bound probabilities) as Hbound.
  split; [by intros ->|]. split; [|split].
  - intros Hne Hlt. unfold classification.
    destruct (argmax probabilities) as [i|e]; [|by destruct Hbound].
    simpl. destruct (lookup_lt_is_Some_2 classes i) as [c ->]; [lia|]. simpl.
    destruct (parse_class_name c) as [category subtype].
    by rewrite all_probabilities_short.
  - intros i Harg Hi. unfold classification. rewrite Harg. simpl.
    by rewrite (proj2 (lookup_ge_None classes i)) by lia.
  - intros i Harg Hi Hlen. unfold classification. rewrite Harg. simpl.
    destruct (lookup_lt_is_Some_2 classes i) as [c ->]; [lia|]. simpl.
    destruct (parse_class_name c) as [category subtype].
    destruct (unsorted_probs f32_times100 probabilities Hlen) as (ys & Hys & _).
    unfold all_probabilities. rewrite Hys. simpl. eauto.
Qed.

(** X13: the derived fields of a result.  Every result [predict] returns
    names a configured class, and for it: the category and the subtype are
    the ones the specification gives (the remainder after the prefix: the
    repeated-prefix slip of [str.replace] cannot occur on a configured
    class), the confidence level is the label of the band of the reported
    confidence, the recommendations are the non-empty list of the table
    (the "Consult agricultural expert" default is never used), the
    explanation opens with the text of the table (never with the "Plant
    classified as" default), and the result has the eleven keys of the
    dictionary in the order of the source. *)
Theorem result_fields_are_consistent (probabilities : list float) (result : json) :
  classification probabilities = Ok result →
  ∃ c confidence text tail advice,
    c ∈ classes
    ∧ result_field "predicted_class" result = Some (JStr c)
    ∧ result_field "confidence" result = Some (JFloat confidence)
    ∧ result_field "confidence_percentage" result
      = Some (JFloat (PrimFloat.mul confidence 100))
    ∧ result_field "category" result = Some (JStr (parse_class_name_spec c).1)
    ∧ result_field "subtype" result
      = Some (match (parse_class_name_spec c).2 with Some s => JStr s | None => JNull end)
    ∧ result_field "confidence_level" result
      = Some (JStr (band_label (band_of confidence)))
    ∧ dict_get c explanations = Some text
    ∧ result_field "explanation" result = Some (JStr (text +:+ tail))
    ∧ dict_get c recommendations = Some advice ∧ advice ≠ []
    ∧ result_field "recommendations" result = Some (JArr (JStr <$> advice))
    ∧ match result with
      | JObj fields =>
          fields.*1 = [ "predicted_class"; "category"; "subtype"; "confidence";
                        "confidence_percentage"; "confidence_level"; "all_probabilities";
                        "explanation"; "recommendations"; "model_version"; "model_name" ]
      | _ => False
      end.
Proof.
  intros Hres. unfold classification in Hres.
  destruct (argmax probabilities) as [i|e] eqn:Harg; simpl in Hres; [|done].
  destruct (classes !! i) as [c|] eqn:Hc; simpl in Hres; [|done].
  apply list_elem_of_lookup_2 in Hc.
  rewrite (parse_class_name_configured c Hc) in Hres.
  destruct (parse_class_name_spec c) as [category subtype] eqn:Hparse.
  destruct (all_probabilities f32_times100 probabilities) as [ranked|e] eqn:Hall;
    simpl in Hres; [|done].
  injection Hres as <-.
  destruct (tables_cover_classes c Hc) as [[text Htext] (advice & Hadvice & Hne)].
  destruct (generate_explanation_prefix c (default 0%float (probabilities !! i))
              (get_confidence_level (default 0%float (probabilities !! i))))
    as [tail Htail].
  rewrite Htext in Htail. simpl in Htail.
  exists c, (default 0%float (probabilities !! i)), text, tail, advice.
  rewrite Hparse. unfold get_recommendations.
  rewrite Hadvice, Htail, get_confidence_level_band.
  by repeat split.
Qed.

End ResultShape.

Section OddRequests.
Context `{Libraries} `{!Runtime}.
Variable cfg : config.

(** One pass through the body of the loop with no signal on its way: it
    returns, and has written the response line. *)
Lemma exchange_calm (model : model) (line : string) (w : world) :
  w_signal w = None →
  ∃ w', try_except (request_body cfg model line) (request_handler cfg) w = (Normal (), w')
        ∧ w_stdout w' = w_stdout w ++ [response_line model w line].
Proof.
  intros Hw.
  destruct (refines_request cfg model w line w eq_refl eq_refl)
    as (f & w' & o & Hrun & _ & _ & Hout & [(-> & _ & ->) | (_ & Hne & _)]); [|done].
  by exists w'.
Qed.

(** X14: odd requests get a failure response too.  With no signal on its
    way, a line that parses as JSON but is not a usable request is
    answered with one line and the loop goes on: a value that is not an
    object with the [AttributeError] of its missing [get]; an object whose
    [imagePath] is falsy (absent, null, false, 0, 0.0, the empty string,
    list or object) with "No imagePath provided"; and an [imagePath] that
    is a number with a fraction, a list or an object with the [TypeError]
    of [os.stat]. *)
Theorem odd_requests_are_answered (model : model) (line : string) (w : world) (v : json) :
  w_signal w = None →
  json_loads (str_strip line) = Ok v →
  ∃ w',
    try_except (request_body cfg model line) (request_handler cfg) w = (Normal (), w')
    ∧ w_stdout w'
      = w_stdout w ++ [json_dumps match request_result model w line with
                                  | Ok data => success_response data
                                  | Raise e => error_response e
                                  end]
    ∧ ((∀ fields, v ≠ JObj fields) →
       request_result model w line
       = Raise (Exn "AttributeError"
                    ("'" +:+ type_name v +:+ "' object has no attribute 'get'")))
    ∧ (∀ fields, v = JObj fields →
       truthy (default JNull (dict_get "imagePath" fields)) = false →
       request_result model w line = Raise (ValueError "No imagePath provided"))
    ∧ (∀ fields p, v = JObj fields → dict_get "imagePath" fields = Some p →
       truthy p = true →
       match p with JFloat _ | JArr _ | JObj _ => True | _ => False end →
       request_result model w line
       = Raise (Exn "TypeError"
                    ("stat: path should be string, bytes, os.PathLike or integer, not "
                     +:+ type_name p))).
Proof.
  intros Hw Hv.
  destruct (exchange_calm model line w Hw) as (w' & Hrun & Hout).
  exists w'.
  split; [done|]. split; [done|].
  unfold request_result. rewrite Hv. simpl.
  split; [|split].
  - intros Hno. destruct v; try done. by destruct (Hno fields).
  - intros fields -> Hfalsy. simpl. by rewrite Hfalsy.
  - intros fields p -> Hp Htrue Hkind. simpl. rewrite Hp. simpl. rewrite Htrue. simpl.
    by destruct p.
Qed.

End OddRequests.

(** ** The standalone script ([inference.py]) *)

Module Inference.

(** The [explanations] table of this script's [generate_explanation]. *)
Definition explanations : list (string * string) :=
  [ ("Healthy", "Plant appears healthy. No visible issues detected.");
    ("Pest_Fungal", "Fungal infection detected. Look for powdery spots, mold, or discoloration. Treatment: fungicide.");
    ("Pest_Bacterial", "Bacterial infection detected. Water-soaked lesions or wilting. Treatment: copper-based spray.");
    ("Pest_Insect", "Insect damage detected. Holes, chewed edges, or insect presence. Treatment: insecticide or natural predators.");
    ("Nutrient_Nitrogen", "Nitrogen deficiency detected. Yellowing of older leaves, stunted growth. Treatment: nitrogen fertilizer.");
    ("Nutrient_Potassium", "Potassium deficiency detected. Leaf edge browning, weak stems. Treatment: potassium fertilizer.");
    ("Water_Stress", "Water stress detected. Wilting or dry soil. Treatment: adjust watering schedule.");
    ("Not_Plant", "This is not a plant image. Please upload a clear image of a plant leaf for disease detection.") ].

(** The fallback paths of [initialize_model], in the order they are
    tried. *)
Definition alt_paths : list string :=
  [ "./models/model_final.pth"; "./saved_models/best_model.pth";
    "./saved_models/model_final.pth" ].

(** [for alt_path in alt_paths: if os.path.exists(alt_path): ... break] *)
Fixpoint first_existing (paths : list string) (w : world) : option string :=
  match paths with
  | [] => None
  | alt_path :: rest =>
      if OsPath.exists_ alt_path w then Some alt_path else first_existing rest w
  end.

Section Script.
Context `{Libraries} `{!Runtime}.
Local Open Scope io_scope.

(** [load_model]: the model it returns.  [torch.load(model_path)] reads
    the file and unpickles it. *)
Definition load_model (model_path : string) : io model :=
  model <- lift model_class ;;
  data <- read_file model_path ;;
  checkpoint <- lift (torch_load_buffer data) ;;
  match checkpoint_state checkpoint with
  | Some state => lift (load_state_dict model state)
  | None => raise (ValueError "Unexpected checkpoint format")
  end.

(** [initialize_model]: [_model] is the global before the call, the value
    returned the global after it. *)
Definition initialize_model (MODEL_PATH : string) (_model : option model) : io model :=
  match _model with
  | Some model => io_ret model
  | None =>
      present <- os_path_exists MODEL_PATH ;;
      model_path <-
        (if negb present then
           found <- (λ w, (Normal (first_existing alt_paths w), w)) ;;
           match found with
           | None => raise (Exn "FileNotFoundError" ("Model not found: " +:+ MODEL_PATH))
           | Some alt_path => io_ret alt_path
           end
         else io_ret MODEL_PATH) ;;
      load_model model_path
  end.

(** [generate_explanation] *)
Definition generate_explanation (predicted_class : string) (confidence : float)
    (conf_level : string) : string :=
  let explanation :=
    default ("Plant classified as " +:+ predicted_class +:+ ".")
            (dict_get predicted_class explanations) in
  let explanation :=
    explanation +:+ " Confidence level: " +:+ conf_level +:+ " ("
    +:+ format_percent (PrimFloat.mul confidence 100) +:+ "%)." in
  if String.eqb conf_level "Low"
  then explanation +:+ " Manual inspection recommended for confirmation."
  else explanation.

(** The part of [predict] after the forward pass. *)
Definition classification (probabilities : list float) : res json :=
  predicted_idx ← argmax probabilities;
  predicted_class ← match classes !! predicted_idx with
                     | Some c => Ok c
                     | None => Raise (Exn "IndexError" "list index out of range")
                     end;
  let confidence := default 0%float (probabilities !! predicted_idx) in
  let '(category, subtype) := parse_class_name predicted_class in
  let confidence_level := get_confidence_level confidence in
  all_probs ← all_probabilities f32_times100 probabilities;
  let explanation := generate_explanation predicted_class confidence confidence_level in
  Ok (JObj [ ("predicted_class", JStr predicted_class);
             ("category", JStr category);
             ("subtype", match subtype with Some s => JStr s | None => JNull end);
             ("confidence", JFloat confidence);
             ("confidence_percentage", JFloat (PrimFloat.mul confidence 100));
             ("confidence_level", JStr confidence_level);
             ("all_probabilities", JArr (entry_json <$> all_probs));
             ("explanation", JStr explanation);
             ("model_version", JStr "v1.0.0");
             ("model_name", JStr "efficientnet_b2") ]).

End Script.
End Inference.

Lemma first_existing_spec (before after : list string) (p : string) (w : world) :
  Forall (λ q, OsPath.exists_ q w = false) before →
  OsPath.exists_ p w = true →
  Inference.first_existing (before ++ p :: after) w = Some p.
Proof.
  intros Hb Hp. induction Hb as [|q before Hq _ IH]; simpl; [by rewrite Hp | by rewrite Hq].
Qed.

Lemma first_existing_none (paths : list string) (w : world) :
  Forall (λ q, OsPath.exists_ q w = false) paths → Inference.first_existing paths w = None.
Proof. intros Hp. induction Hp as [|q paths Hq _ IH]; simpl; [done | by rewrite Hq]. Qed.

Section InferenceFacts.
Context `{Libraries} `{!Runtime}.

(** X15: where the standalone script looks for the model.  With nothing
    cached, [initialize_model] loads the first path that exists among
    [MODEL_PATH] and the three fallback paths, in that order, and does not
    go on to a later one when the load fails; when none exists it raises
    [FileNotFoundError] naming [MODEL_PATH] only and changes nothing.
    With a model cached it returns that model and does not look at the
    disk. *)
Theorem initialize_model_path_search (MODEL_PATH : string) (w : world) :
  (∀ before p after,
     MODEL_PATH :: Inference.alt_paths = before ++ p :: after →
     Forall (λ q, OsPath.exists_ q w = false) before →
     OsPath.exists_ p w = true →
     Inference.initialize_model MODEL_PATH None w = Inference.load_model p w)
  ∧ (Forall (λ q, OsPath.exists_ q w = false) (MODEL_PATH :: Inference.alt_paths) →
     Inference.initialize_model MODEL_PATH None w
     = (Raised (Exn "FileNotFoundError" ("Model not found: " +:+ MODEL_PATH)), w))
  ∧ (∀ cached, Inference.initialize_model MODEL_PATH (Some cached) w = (Normal cached, w)).
Proof.
  split; [|split].
  - intros before p after Hsplit Hbefore Hp.
    unfold Inference.initialize_model, io_bind, os_path_exists.
    destruct before as [|q before]; simpl in Hsplit.
    + injection Hsplit as <- _. by rewrite Hp.
    + injection Hsplit as <- Halt. apply Forall_cons in Hbefore as [Hq Hbefore].
      pose proof (first_existing_spec before after p w Hbefore Hp) as Hfound.
      rewrite <- Halt in Hfound.
      rewrite Hq. cbn [negb]. cbv beta iota. by rewrite Hfound.
  - intros Hnone. apply Forall_cons in Hnone as [Hq Halt].
    unfold Inference.initialize_model, io_bind, os_path_exists.
    rewrite Hq. cbn [negb]. cbv beta iota. by rewrite (first_existing_none _ w Halt).
  - done.
Qed.

(** X16: the standalone script and the worker build the same model.  For
    a checkpoint file and a container that decrypts to the bytes of that
    file, [load_model] of [inference.py] on the file and
    [load_encrypted_model] on the container return the same model when
    the checkpoint can be loaded, and both raise when it cannot; neither
    changes anything. *)
Theorem plain_and_secure_loading_agree (loader : SecureModelLoader)
    (model_path encrypted_path : string) (w : world) (checkpoint_file : file) :
  w_files w !! model_path = Some checkpoint_file →
  decrypt_model (encryptor loader) encrypted_path w = (Normal (f_data checkpoint_file), w) →
  match construct_model (f_data checkpoint_file) with
  | Ok model =>
      Inference.load_model model_path w = (Normal model, w)
      ∧ load_encrypted_model loader encrypted_path w = (Normal model, w)
  | Raise _ =>
      (∃ e, Inference.load_model model_path w = (Raised e, w))
      ∧ (∃ e, load_encrypted_model loader encrypted_path w = (Raised e, w))
  end.
Proof.
  intros Hfile Hdec.
  unfold Inference.load_model, load_encrypted_model, construct_model.
  erewrite (io_bind_Normal (decrypt_model _ _)); [| exact Hdec]. cbv beta.
  unfold io_bind, read_file.
  destruct model_class as [m|e2]; simpl; rewrite ?Hfile;
    destruct (torch_load_buffer (f_data checkpoint_file)) as [ck|e1]; simpl; eauto.
  destruct (checkpoint_state ck) as [state|]; simpl; [|eauto].
  destruct (load_state_dict m state) as [m'|e3]; simpl; eauto.
Qed.

(** X17: the two scripts report the same prediction.  From the same
    probability vector, [predict] of [inference.py] and [predict] of
    [inference_server.py] fail together, with the same exception, or
    succeed together; the standalone result then has the keys of the
    worker's result without [recommendations], in the same order, and
    the same value under every key but [explanation]. *)
Theorem scripts_report_the_same_prediction (probabilities : list float) :
  match Inference.classification probabilities, classification probabilities with
  | Ok standalone, Ok worker =>
      (∀ k, k ≠ "explanation" → k ≠ "recommendations" →
            result_field k standalone = result_field k worker)
      ∧ result_field "recommendations" standalone = None
      ∧ match standalone, worker with
        | JObj fields, JObj fields' =>
            fields.*1 = filter (λ k, k ≠ "recommendations") fields'.*1
        | _, _ => False
        end
  | Raise e, Raise e' => e = e'
  | _, _ => False
  end.
Proof.
  unfold Inference.classification, classification.
  destruct (argmax probabilities) as [i|e]; simpl; [|done].
  destruct (classes !! i) as [c|]; simpl; [|done].
  destruct (parse_class_name c) as [category subtype].
  destruct (all_probabilities f32_times100 probabilities) as [ranked|e]; simpl; [|done].
  split; [|split; [reflexivity | by vm_compute]].
  intros k He%String.eqb_neq Hr%String.eqb_neq. by rewrite He, Hr.
Qed.

End InferenceFacts.

(** ** What encryption changes *)

Section EncryptFrame.
Context `{Libraries}.

(** X18: [encrypt_model] touches one file.  Whatever the paths and the
    state of the disk, the only file [encrypt_model] can change is the one
    at [encrypted_path]; it creates no directory and writes nothing to the
    diagnostic channel.  When it raises, no file has changed at all; and
    it raises, before writing anything, when there is no file at
    [model_path]. *)
Theorem encrypt_model_touches_one_file (self : ModelEncryption) (r : bytes)
    (model_path encrypted_path : string) (w : world) :
  (∀ p, p ≠ encrypted_path →
        w_files (encrypt_model self r model_path encrypted_path w).2 !! p = w_files w !! p)
  ∧ w_dirs (encrypt_model self r model_path encrypted_path w).2 = w_dirs w
  ∧ w_stderr (encrypt_model self r model_path encrypted_path w).2 = w_stderr w
  ∧ (∀ e, (encrypt_model self r model_path encrypted_path w).1 = Raised e →
          w_files (encrypt_model self r model_path encrypted_path w).2 = w_files w)
  ∧ (w_files w !! model_path = None →
     (encrypt_model self r model_path encrypted_path w).1
     = Raised (if OsPath.isdir model_path w then IsADirectoryError model_path
               else FileNotFoundError model_path)).
Proof.
  unfold encrypt_model, io_bind, stdout_write, read_file, write_file. simpl.
  destruct (w_files w !! model_path) as [f|] eqn:Hm; simpl.
  - destruct (OsPath.isdir encrypted_path _) eqn:Hd; simpl.
    { by repeat split. }
    destruct (negb _ && negb _) eqn:Hp; simpl.
    { by repeat split. }
    repeat split; try done. intros p Hp'. by rewrite lookup_insert_ne.
  - change (OsPath.isdir model_path (add_stdout _ w)) with (OsPath.isdir model_path w).
    destruct (OsPath.isdir model_path w); by repeat split.
Qed.

End EncryptFrame.

(** ** The further properties on the sample machine *)

Lemma single_shot_answers_once_witness :
  ∃ response,
    w_stdout (run_process SampleWorker.cfg [] ["leaf.jpg"] [] (SampleWorker.server_world None)).2
    = w_stdout (SampleWorker.server_world None) ++ [json_dumps response]
    ∧ (((run_process SampleWorker.cfg [] ["leaf.jpg"] [] (SampleWorker.server_world None)).1
        = 0%Z ∧ ∃ data, response = success_response data)
       ∨ ((run_process SampleWorker.cfg [] ["leaf.jpg"] [] (SampleWorker.server_world None)).1
          = 1%Z ∧ ∃ e, response = error_response e))
    ∧ (["leaf.jpg"] = [] → response = error_response (ValueError "No image path provided"))
    ∧ (∀ p rest, ["leaf.jpg"] = p :: rest →
         OsPath.exists_ p (SampleWorker.server_world None) = false →
         response = error_response (Exn "FileNotFoundError" ("Image not found: " +:+ p))
         ∧ w_files (run_process SampleWorker.cfg [] ["leaf.jpg"] []
                      (SampleWorker.server_world None)).2
           = w_files (SampleWorker.server_world None)
         ∧ w_dirs (run_process SampleWorker.cfg [] ["leaf.jpg"] []
                     (SampleWorker.server_world None)).2
           = w_dirs (SampleWorker.server_world None)
         ∧ w_stderr (run_process SampleWorker.cfg [] ["leaf.jpg"] []
                       (SampleWorker.server_world None)).2
           = w_stderr (SampleWorker.server_world None)).
Proof.
  apply (single_shot_answers_once SampleWorker.cfg [] ["leaf.jpg"] []
           (SampleWorker.server_world None)); reflexivity.
Defined.

(** A vector whose largest probability occurs twice, and the result the
    sample worker builds from it. *)
Definition tied_vector : list float :=
  [0.125; 0.25; 0.125; 0.25; 0.0625; 0.0625; 0.125; 0]%float.

Definition tied_result : json :=
  match classification tied_vector with
  | Ok result => result
  | Raise _ => JNull
  end.

Lemma predicted_class_tops_ranking_witness :
  ∃ top rest,
    result_field "all_probabilities" tied_result = Some (JArr (entry_json top :: rest))
    ∧ result_field "predicted_class" tied_result = Some (JStr (pe_class top))
    ∧ result_field "confidence" tied_result = Some (JFloat (pe_confidence top)).
Proof.
  apply (predicted_class_tops_ranking tied_vector tied_result).
  - repeat constructor.
  - reflexivity.
Defined.

Lemma result_fields_are_consistent_witness :
  ∃ c confidence text tail advice,
    c ∈ classes
    ∧ result_field "predicted_class" tied_result = Some (JStr c)
    ∧ result_field "confidence" tied_result = Some (JFloat confidence)
    ∧ result_field "confidence_percentage" tied_result
      = Some (JFloat (PrimFloat.mul confidence 100))
    ∧ result_field "category" tied_result = Some (JStr (parse_class_name_spec c).1)
    ∧ result_field "subtype" tied_result
      = Some (match (parse_class_name_spec c).2 with Some s => JStr s | None => JNull end)
    ∧ result_field "confidence_level" tied_result
      = Some (JStr (band_label (band_of confidence)))
    ∧ dict_get c explanations = Some text
    ∧ result_field "explanation" tied_result = Some (JStr (text +:+ tail))
    ∧ dict_get c recommendations = Some advice ∧ advice ≠ []
    ∧ result_field "recommendations" tied_result = Some (JArr (JStr <$> advice))
    ∧ match tied_result with
      | JObj fields =>
          fields.*1 = [ "predicted_class"; "category"; "subtype"; "confidence";
                        "confidence_percentage"; "confidence_level"; "all_probabilities";
                        "explanation"; "recommendations"; "model_version"; "model_name" ]
      | _ => False
      end.
Proof.
  apply (result_fields_are_consistent tied_vector tied_result). reflexivity.
Defined.

Lemma odd_requests_are_answered_witness :
  ∃ w',
    try_except (request_body SampleWorker.cfg SampleWorker.the_model "{}")
               (request_handler SampleWorker.cfg) (SampleWorker.ready_world None)
    = (Normal (), w')
    ∧ w_stdout w'
      = w_stdout (SampleWorker.ready_world None)
        ++ [json_dumps match request_result SampleWorker.the_model
                                (SampleWorker.ready_world None) "{}" with
                       | Ok data => success_response data
                       | Raise e => error_response e
                       end]
    ∧ ((∀ fields, JObj [] ≠ JObj fields) →
       request_result SampleWorker.the_model (SampleWorker.ready_world None) "{}"
       = Raise (Exn "AttributeError"
                    ("'" +:+ type_name (JObj []) +:+ "' object has no attribute 'get'")))
    ∧ (∀ fields, JObj [] = JObj fields →
       truthy (default JNull (dict_get "imagePath" fields)) = false →
       request_result SampleWorker.the_model (SampleWorker.ready_world None) "{}"
       = Raise (ValueError "No imagePath provided"))
    ∧ (∀ fields p, JObj [] = JObj fields → dict_get "imagePath" fields = Some p →
       truthy p = true →
       match p with JFloat _ | JArr _ | JObj _ => True | _ => False end →
       request_result SampleWorker.the_model (SampleWorker.ready_world None) "{}"
       = Raise (Exn "TypeError"
                    ("stat: path should be string, bytes, os.PathLike or integer, not "
                     +:+ type_name p))).
Proof.
  apply (odd_requests_are_answered SampleWorker.cfg SampleWorker.the_model "{}"
           (SampleWorker.ready_world None) (JObj [])).
  - vm_compute; reflexivity.
  - reflexivity.
Defined.

(** The sample machine with the checkpoint beside its container. *)
Definition both_world : world :=
  set_file "./saved_models/best_model.pth" (File SampleRun.model_bytes 420)
           (SampleWorker.server_world None).

Lemma plain_and_secure_loading_agree_witness :
  match construct_model (f_data (File SampleRun.model_bytes 420)) with
  | Ok model =>
      Inference.load_model "./saved_models/best_model.pth" both_world = (Normal model, both_world)
      ∧ load_encrypted_model (Build_SecureModelLoader SampleRun.loader)
          "./saved_models/best_model.encrypted" both_world
        = (Normal model, both_world)
  | Raise _ =>
      (∃ e, Inference.load_model "./saved_models/best_model.pth" both_world
            = (Raised e, both_world))
      ∧ (∃ e, load_encrypted_model (Build_SecureModelLoader SampleRun.loader)
                "./saved_models/best_model.encrypted" both_world
              = (Raised e, both_world))
  end.
Proof.
  apply (plain_and_secure_loading_agree (Build_SecureModelLoader SampleRun.loader)
           "./saved_models/best_model.pth" "./saved_models/best_model.encrypted"
           both_world (File SampleRun.model_bytes 420)).
  - reflexivity.
  - vm_compute; reflexivity.
Defined.

(** ** The code export script ([frontend/backend.py])

    [get_code_files] walks a directory tree and collects the JavaScript
    sources for the export.  The tree is what [os.walk] sees: for every
    directory its regular files, each with what [readlines] returns or
    the exception [open] raises, and its subdirectories, in the order
    [os.walk] lists them.  Symbolic links and directories that cannot be
    listed are outside the model. *)

Module CodeExport.

(** [needle in s] *)
Fixpoint contains (needle s : string) : bool :=
  PyStr.startswith needle s
  || match s with
     | EmptyString => false
     | String _ rest => contains needle rest
     end.

(** [s.split('/')] *)
Fixpoint split (s : string) : list string :=
  match s with
  | EmptyString => [EmptyString]
  | String c rest =>
      if Ascii.eqb c "/"%char then EmptyString :: split rest
      else match split rest with
           | first :: others => String c first :: others
           | [] => [String c EmptyString]
           end
  end.

(** [s.rfind(c)], [None] for -1 *)
Fixpoint rfind (c : ascii) (s : string) : option nat :=
  match s with
  | EmptyString => None
  | String a rest =>
      match rfind c rest with
      | Some k => Some (S k)
      | None => if Ascii.eqb a c then Some 0%nat else None
      end
  end.

Fixpoint all_dots (s : string) : bool :=
  match s with
  | EmptyString => true
  | String c rest => Ascii.eqb c "."%char && all_dots rest
  end.

(** [os.path.splitext]: the extension starts at the last dot of the last
    component, unless only dots stand before it there. *)
Definition splitext (p : string) : string * string :=
  match rfind "."%char p with
  | None => (p, EmptyString)
  | Some dotIndex =>
      let filenameIndex :=
        match rfind "/"%char p with
        | Some sepIndex => S sepIndex
        | None => 0%nat
        end in
      if (filenameIndex <=? dotIndex)%nat
         && negb (all_dots (String.substring filenameIndex (dotIndex - filenameIndex) p))
      then (String.substring 0 dotIndex p, PyStr.drop dotIndex p)
      else (p, EmptyString)
  end.

(** [s.lower()], on the letters A to Z; no other character has one of
    the letters of ".js" and ".jsx" as its lower case. *)
Definition lower_char (c : ascii) : ascii :=
  let n := Ascii.nat_of_ascii c in
  if (65 <=? n)%nat && (n <=? 90)%nat then Ascii.ascii_of_nat (n + 32) else c.

Fixpoint lower (s : string) : string :=
  match s with
  | EmptyString => EmptyString
  | String c rest => String (lower_char c) (lower rest)
  end.

Fixpoint endswith_sep (s : string) : bool :=
  match s with
  | EmptyString => false
  | String c EmptyString => Ascii.eqb c "/"%char
  | String _ rest => endswith_sep rest
  end.

(** [os.path.join(a, b)] *)
Definition os_path_join (a b : string) : string :=
  if PyStr.startswith "/" b then b
  else if String.eqb a "" || endswith_sep a then a +:+ b
  else a +:+ "/" +:+ b.

(** A directory as [os.walk] lists it. *)
Inductive tree : Type :=
| Tree (files : list (string * res (list string))) (dirs : list (string * tree)).

(** The two dictionaries the function returns, and what it prints. *)
Record found := Found {
  backend_files : gmap string (list string);
  frontend_files : gmap string (list string);
  printed : list string
}.

Definition default_excluded_files : list string :=
  [ "package-lock.json"; "yarn.lock"; "pnpm-lock.yaml"; ".DS_Store"; "Thumbs.db";
    "Desktop.ini"; ".env"; ".env.development"; ".env.production"; ".env.local";
    ".env.staging"; ".env.test"; ".env.example"; "generate-cookie-secret.js" ].

Definition default_excluded_dirs : list string :=
  [ "node_modules"; ".git"; "__pycache__"; "build"; "dist"; ".next"; "coverage";
    ".nyc_output"; "logs"; "uploads"; "images"; "HackStack"; "public" ].

Definition js_extensions : list string := [".js"; ".jsx"].

Section Scan.
(** The two sets, of which only membership is used. *)
Variable excluded_files excluded_dirs : list string.

(** [backend_files[file_path] = content] or [frontend_files[file_path] =
    content], by the path. *)
Definition categorize (file_path : string) (content : list string) (acc : found) : found :=
  if contains "backend/" file_path
  then Found (<[file_path := content]> (backend_files acc)) (frontend_files acc) (printed acc)
  else Found (backend_files acc) (<[file_path := content]> (frontend_files acc)) (printed acc).

(** The body of [for file in files]. *)
Definition visit_file (root : string) (acc : found) (entry : string * res (list string))
    : found :=
  let '(file, readlines) := entry in
  if bool_decide (file ∈ excluded_files) then acc
  else if contains ".env" file then acc
  else
    let file_path := os_path_join root file in
    let ext := (splitext file).2 in
    if bool_decide (lower ext ∈ js_extensions) then
      match readlines with
      | Ok content => categorize file_path content acc
      | Raise e =>
          categorize file_path ["[Error reading file: " +:+ exn_msg e +:+ "]"]
            (Found (backend_files acc) (frontend_files acc)
                   (printed acc ++ ["❌ Error reading " +:+ file_path +:+ ": " +:+ exn_msg e]))
      end
    else acc.

(** [for root, dirs, files in os.walk(directory)]: the body for [root],
    then the subdirectories left in [dirs], each walked in turn. *)
Fixpoint walk (root : string) (t : tree) (acc : found) : found :=
  match t with
  | Tree files dirs =>
      let acc :=
        if existsb (λ excluded_dir, bool_decide (excluded_dir ∈ split root)) excluded_dirs
        then acc
        else foldl (visit_file root) acc files in
      (fix descend (dirs : list (string * tree)) (acc : found) : found :=
         match dirs with
         | [] => acc
         | (d, sub) :: rest =>
             if bool_decide (d ∈ excluded_dirs) then descend rest acc
             else descend rest (walk (os_path_join root d) sub acc)
         end) dirs acc
  end.

End Scan.

(** [get_code_files]; [None] for an argument left out. *)
Definition get_code_files (directory : string) (excluded_files excluded_dirs : option (list string))
    (t : tree) : found :=
  walk (default default_excluded_files excluded_files)
       (default default_excluded_dirs excluded_dirs)
       directory t (Found ∅ ∅ []).

(** The names [os.walk] can list: not empty, without a separator. *)
Fixpoint valid_names (t : tree) : bool :=
  match t with
  | Tree files dirs =>
      forallb (λ entry, negb (String.eqb entry.1 "") && negb (contains "/" entry.1)) files
      && (fix all (dirs : list (string * tree)) : bool :=
            match dirs with
            | [] => true
            | (d, sub) :: rest =>
                negb (String.eqb d "") && negb (contains "/" d) && valid_names sub && all rest
            end) dirs
  end.

(** The directories [os.walk] can come to: [subdirectory t names sub] when
    [sub] is the directory found in [t] by going down the directory names
    [names], one level each. *)
Inductive subdirectory : tree → list string → tree → Prop :=
| subdirectory_here (t : tree) : subdirectory t [] t
| subdirectory_below (files : list (string * res (list string)))
    (dirs : list (string * tree)) (d : string) (child : tree)
    (names : list string) (sub : tree) :
    (d, child) ∈ dirs → subdirectory child names sub →
    subdirectory (Tree files dirs) (d :: names) sub.

End CodeExport.

Module CodeExportFacts.
Import CodeExport.

(** Induction on a tree, with the hypothesis for every subdirectory. *)
Fixpoint tree_induction (P : tree → Prop)
    (step : ∀ files dirs, Forall (λ d, P d.2) dirs → P (Tree files dirs)) (t : tree) : P t :=
  match t with
  | Tree files dirs =>
      step files dirs
        ((fix all (dirs : list (string * tree)) : Forall (λ d, P d.2) dirs :=
            match dirs return Forall (λ d, P d.2) dirs with
            | [] => List.Forall_nil (λ d, P d.2)
            | d :: rest =>
                @List.Forall_cons _ (λ d, P d.2) d rest (tree_induction P step d.2) (all rest)
            end) dirs)
  end.

(** The walk, one step at a time. *)
Section WalkEquations.
Variable excluded_files excluded_dirs : list string.

Lemma walk_files_first (root : string) (files : list (string * res (list string)))
    (dirs : list (string * tree)) (acc : found) :
  walk excluded_files excluded_dirs root (Tree files dirs) acc
  = walk excluded_files excluded_dirs root (Tree [] dirs)
      (if existsb (λ excluded_dir, bool_decide (excluded_dir ∈ split root)) excluded_dirs
       then acc
       else foldl (visit_file excluded_files root) acc files).
Proof. simpl. by destruct (existsb _ excluded_dirs). Qed.

Lemma walk_nil (root : string) (acc : found) :
  walk excluded_files excluded_dirs root (Tree [] []) acc = acc.
Proof. simpl. by destruct (existsb _ excluded_dirs). Qed.

Lemma walk_cons (root d : string) (sub : tree) (rest : list (string * tree)) (acc : found) :
  walk excluded_files excluded_dirs root (Tree [] ((d, sub) :: rest)) acc
  = walk excluded_files excluded_dirs root (Tree [] rest)
      (if bool_decide (d ∈ excluded_dirs) then acc
       else walk excluded_files excluded_dirs (os_path_join root d) sub acc).
Proof. simpl. destruct (existsb _ excluded_dirs); by destruct (bool_decide (d ∈ excluded_dirs)). Qed.

Lemma excluded_root_spec (root : string) :
  existsb (λ excluded_dir, bool_decide (excluded_dir ∈ split root)) excluded_dirs = false
  ↔ ∀ d, d ∈ excluded_dirs → d ∉ split root.
Proof.
  split.
  - intros Hx d Hd Hin.
    assert (existsb (λ excluded_dir, bool_decide (excluded_dir ∈ split root)) excluded_dirs
            = true); [|congruence].
    apply existsb_exists. exists d.
    split; [by apply list_elem_of_In | by apply bool_decide_eq_true].
  - intros Hroot.
    destruct (existsb _ excluded_dirs) eqn:Hx; [|done].
    apply existsb_exists in Hx as (d & Hd & Hin).
    apply list_elem_of_In in Hd. apply bool_decide_eq_true in Hin. by destruct (Hroot d).
Qed.

End WalkEquations.

Lemma subdirectory_snoc (t : tree) (names : list string)
    (files : list (string * res (list string))) (dirs : list (string * tree))
    (d : string) (child : tree) :
  subdirectory t names (Tree files dirs) → (d, child) ∈ dirs →
  subdirectory t (names ++ [d]) child.
Proof.
  intros Hsub Hd. remember (Tree files dirs) as sub eqn:Heq.
  induction Hsub as [t|fs ds d' child' names sub Hin Hsub IH]; simpl.
  - subst t. eapply subdirectory_below; [done | constructor].
  - eapply subdirectory_below; [done | by apply IH].
Qed.

Section Screen.
Variable excluded_files excluded_dirs : list string.
Variable directory : string.
Variable t : tree.

(** The files the scan is to collect: [file] is listed in a directory of
    the tree that is reached from [directory] through directory names
    that are not excluded, the path of that directory has no excluded
    component, and the name passes the three tests on file names. *)
Definition collected (file_path : string) : Prop :=
  ∃ names files dirs file readlines,
    subdirectory t names (Tree files dirs)
    ∧ (file, readlines) ∈ files
    ∧ file_path = os_path_join (foldl os_path_join directory names) file
    ∧ Forall (λ d, d ∉ excluded_dirs) names
    ∧ (∀ d, d ∈ excluded_dirs → d ∉ split (foldl os_path_join directory names))
    ∧ (file ∉ excluded_files)
    ∧ contains ".env" file = false
    ∧ lower (splitext file).2 ∈ js_extensions.

Definition sound (acc : found) : Prop :=
  (∀ file_path, is_Some (backend_files acc !! file_path) →
     collected file_path ∧ contains "backend/" file_path = true)
  ∧ (∀ file_path, is_Some (frontend_files acc !! file_path) →
       collected file_path ∧ contains "backend/" file_path = false).

Lemma categorize_sound (file_path : string) (content : list string) (acc : found) :
  collected file_path → sound acc → sound (categorize file_path content acc).
Proof.
  intros Hs [Hb Hf]. unfold categorize.
  destruct (contains "backend/" file_path) eqn:Hc; split; simpl; intros p Hp.
  - destruct (decide (p = file_path)) as [-> | Hne]; [done|].
    rewrite lookup_insert_ne in Hp by done. by apply Hb.
  - by apply Hf.
  - by apply Hb.
  - destruct (decide (p = file_path)) as [-> | Hne]; [done|].
    rewrite lookup_insert_ne in Hp by done. by apply Hf.
Qed.

Section Directory.
Variable names : list string.
Variable files : list (string * res (list string)).
Variable dirs : list (string * tree).
Hypothesis reached : subdirectory t names (Tree files dirs).
Hypothesis descended : Forall (λ d, d ∉ excluded_dirs) names.
Hypothesis clean :
  ∀ d, d ∈ excluded_dirs → d ∉ split (foldl os_path_join directory names).

Lemma visit_file_sound (acc : found) (entry : string * res (list string)) :
  entry ∈ files →
  sound acc → sound (visit_file excluded_files (foldl os_path_join directory names) acc entry).
Proof.
  intros Hentry Hacc. destruct entry as [file readlines]. unfold visit_file.
  destruct (bool_decide (file ∈ excluded_files)) eqn:Hx; [done|].
  destruct (contains ".env" file) eqn:Henv; [done|].
  cbv zeta.
  destruct (bool_decide (lower (splitext file).2 ∈ js_extensions)) eqn:Hext; [|done].
  apply bool_decide_eq_false in Hx. apply bool_decide_eq_true in Hext.
  assert (Hs : collected (os_path_join (foldl os_path_join directory names) file)).
  { exists names, files, dirs, file, readlines. done. }
  destruct readlines as [content|e]; apply categorize_sound; done.
Qed.

Lemma visit_files_sound (entries : list (string * res (list string))) (acc : found) :
  (∀ entry, entry ∈ entries → entry ∈ files) →
  sound acc →
  sound (foldl (visit_file excluded_files (foldl os_path_join directory names)) acc entries).
Proof.
  revert acc. induction entries as [|entry entries IH]; intros acc Hentries Hacc; simpl.
  - done.
  - apply IH; [set_solver|]. apply visit_file_sound; [set_solver | done].
Qed.

End Directory.

Lemma walk_sound (sub : tree) :
  ∀ names acc,
    subdirectory t names sub → Forall (λ d, d ∉ excluded_dirs) names →
    sound acc →
    sound (walk excluded_files excluded_dirs (foldl os_path_join directory names) sub acc).
Proof.
  induction sub as [files dirs IH] using tree_induction.
  intros names acc Hsub Hnames Hacc. rewrite walk_files_first.
  set (root := foldl os_path_join directory names).
  match goal with |- sound (walk _ _ _ _ ?acc1) => set (start := acc1) end.
  assert (Hstart : sound start).
  { subst start.
    destruct (existsb _ excluded_dirs) eqn:Hx; [done|].
    apply (visit_files_sound names files dirs); [done | done | | done | done].
    by apply excluded_root_spec. }
  clearbody start.
  assert (Hgen : ∀ below, (∀ entry, entry ∈ below → entry ∈ dirs) →
            ∀ start, sound start →
              sound (walk excluded_files excluded_dirs root (Tree [] below) start));
    [|by apply Hgen].
  clear start Hstart.
  induction below as [|[d child] rest IHrest]; intros Hbelow start Hstart.
  - by rewrite walk_nil.
  - rewrite walk_cons. apply IHrest; [set_solver|].
    destruct (bool_decide (d ∈ excluded_dirs)) eqn:Hd; [done|].
    apply bool_decide_eq_false in Hd.
    assert (Hin : (d, child) ∈ dirs) by set_solver.
    rewrite Forall_forall in IH. specialize (IH _ Hin (names ++ [d]) start). simpl in IH.
    rewrite foldl_app in IH. simpl in IH. apply IH; [| apply Forall_app; split; [done | by apply Forall_singleton] | done].
    by apply (subdirectory_snoc t names files dirs).
Qed.

(** Where a path is kept, by what it contains. *)
Definition holds (acc : found) (file_path : string) : Prop :=
  if contains "backend/" file_path
  then is_Some (backend_files acc !! file_path)
  else is_Some (frontend_files acc !! file_path).

Lemma categorize_adds (file_path : string) (content : list string) (acc : found) :
  holds (categorize file_path content acc) file_path.
Proof.
  unfold holds, categorize. destruct (contains "backend/" file_path); simpl;
    by rewrite lookup_insert_eq.
Qed.

Lemma categorize_keeps (other file_path : string) (content : list string) (acc : found) :
  holds acc file_path → holds (categorize other content acc) file_path.
Proof.
  unfold holds, categorize.
  destruct (contains "backend/" file_path), (contains "backend/" other); simpl; try done;
    intros Hp; apply lookup_insert_is_Some;
    destruct (decide (other = file_path)); auto.
Qed.

Lemma visit_file_keeps (root file_path : string) (acc : found)
    (entry : string * res (list string)) :
  holds acc file_path → holds (visit_file excluded_files root acc entry) file_path.
Proof.
  intros Hacc. destruct entry as [file readlines]. unfold visit_file.
  repeat case_match; try done; by apply categorize_keeps.
Qed.

Lemma visit_files_keeps (root file_path : string) (entries : list (string * res (list string)))
    (acc : found) :
  holds acc file_path → holds (foldl (visit_file excluded_files root) acc entries) file_path.
Proof.
  revert acc. induction entries as [|entry entries IH]; intros acc Hacc; simpl; [done|].
  by apply IH, visit_file_keeps.
Qed.

Lemma walk_keeps (file_path : string) (sub : tree) :
  ∀ root acc, holds acc file_path →
    holds (walk excluded_files excluded_dirs root sub acc) file_path.
Proof.
  induction sub as [files dirs IH] using tree_induction.
  intros root acc Hacc. rewrite walk_files_first.
  match goal with |- holds (walk _ _ _ _ ?acc1) _ => set (start := acc1) end.
  assert (Hstart : holds start file_path).
  { subst start. destruct (existsb _ excluded_dirs); [done|]. by apply visit_files_keeps. }
  clearbody start. revert start Hstart.
  induction IH as [|[d child] rest Hchild _ IHrest]; intros start Hstart.
  - by rewrite walk_nil.
  - rewrite walk_cons. apply IHrest.
    destruct (bool_decide (d ∈ excluded_dirs)); [done|]. by apply Hchild.
Qed.

Lemma visit_files_hit (root file : string) (readlines : res (list string))
    (entries : list (string * res (list string))) (acc : found) :
  (file, readlines) ∈ entries →
  file ∉ excluded_files → contains ".env" file = false →
  lower (splitext file).2 ∈ js_extensions →
  holds (foldl (visit_file excluded_files root) acc entries) (os_path_join root file).
Proof.
  intros Hin Hfile Henv Hext. revert acc.
  induction entries as [|entry entries IH]; intros acc; [by apply elem_of_nil in Hin|].
  apply elem_of_cons in Hin as [<- | Hin]; simpl.
  - apply visit_files_keeps. unfold visit_file.
    rewrite bool_decide_eq_false_2 by done. rewrite Henv. cbv zeta.
    rewrite bool_decide_eq_true_2 by done.
    destruct readlines; apply categorize_adds.
  - by apply IH.
Qed.

Lemma walk_reaches (start names : list string) (sub : tree)
    (files : list (string * res (list string))) (dirs : list (string * tree))
    (file : string) (readlines : res (list string)) :
  subdirectory sub names (Tree files dirs) →
  (file, readlines) ∈ files →
  Forall (λ d, d ∉ excluded_dirs) names →
  (∀ d, d ∈ excluded_dirs → d ∉ split (foldl os_path_join directory (start ++ names))) →
  file ∉ excluded_files → contains ".env" file = false →
  lower (splitext file).2 ∈ js_extensions →
  ∀ acc,
    holds (walk excluded_files excluded_dirs (foldl os_path_join directory start) sub acc)
          (os_path_join (foldl os_path_join directory (start ++ names)) file).
Proof.
  intros Hsub Hin Hnames Hclean Hfile Henv Hext.
  remember (Tree files dirs) as target eqn:Htarget. revert start Hclean.
  induction Hsub as [sub|fs ds d child names sub Hd Hsub IH]; intros start Hclean acc.
  - subst sub. rewrite app_nil_r in *. rewrite walk_files_first.
    apply walk_keeps. apply excluded_root_spec in Hclean. rewrite Hclean.
    by apply (visit_files_hit _ _ readlines).
  - apply Forall_cons in Hnames as [Hdname Hnames].
    rewrite walk_files_first.
    match goal with |- holds (walk _ _ _ _ ?acc1) _ => generalize acc1 end.
    clear acc. induction ds as [|[d' child'] rest IHrest]; intros acc;
      [by apply elem_of_nil in Hd|].
    rewrite walk_cons. apply elem_of_cons in Hd as [Heq | Hd].
    + injection Heq as <- <-. apply walk_keeps.
      rewrite bool_decide_eq_false_2 by done.
      specialize (IH Htarget Hnames (start ++ [d])).
      rewrite <- app_assoc in IH. simpl in IH.
      rewrite (foldl_app _ start [d]) in IH. simpl in IH. by apply IH.
    + by apply IHrest.
Qed.

Lemma walk_complete (file_path : string) (acc : found) :
  collected file_path →
  holds (walk excluded_files excluded_dirs directory t acc) file_path.
Proof.
  intros (names & files & dirs & file & readlines & Hsub & Hin & -> & Hnames & Hclean
          & Hfile & Henv & Hext).
  by apply (walk_reaches [] names t files dirs file readlines).
Qed.

End Screen.

(** A component of a path is a component of every path under it. *)
Lemma split_nonempty (s : string) : split s ≠ [].
Proof. destruct s as [|c rest]; simpl; [done|]. by repeat case_match. Qed.

Lemma split_app_sep (a b : string) : split (a +:+ "/" +:+ b) = split a ++ split b.
Proof.
  induction a as [|c a IH]; [done|].
  change (split (String c (a +:+ "/" +:+ b)) = split (String c a) ++ split b).
  simpl. rewrite IH. destruct (Ascii.eqb c "/"); [done|].
  pose proof (split_nonempty a). by destruct (split a).
Qed.

Lemma endswith_sep_spec (a : string) : endswith_sep a = true → ∃ a', a = a' +:+ "/".
Proof.
  induction a as [|c a IH]; [done|]. simpl.
  destruct a as [|c' a].
  - intros ->%Ascii.eqb_eq. by exists "".
  - intros [a' ->]%IH. by exists (String c a').
Qed.

Lemma split_join (root name d : string) :
  PyStr.startswith "/" name = false → d ≠ "" →
  d ∈ split root → d ∈ split (os_path_join root name).
Proof.
  intros Hname Hd Hin. unfold os_path_join. rewrite Hname.
  destruct (String.eqb root "") eqn:Hroot; simpl.
  { apply String.eqb_eq in Hroot as ->. simpl in Hin. set_solver. }
  destruct (endswith_sep root) eqn:Hend.
  - apply endswith_sep_spec in Hend as [a' ->].
    assert (Hs : split (a' +:+ "/") = split a' ++ [""]) by apply (split_app_sep a' "").
    rewrite Hs in Hin.
    change ((a' +:+ "/") +:+ name) with ((a' +:+ "/") +:+ name).
    rewrite append_assoc. change ("/" +:+ name) with ("/" +:+ name).
    rewrite split_app_sep. set_solver.
  - rewrite split_app_sep. set_solver.
Qed.

Lemma contains_startswith (needle s : string) :
  contains needle s = false → PyStr.startswith needle s = false.
Proof. destruct s; simpl; by intros [? ?]%orb_false_elim. Qed.

(** Under a root with an excluded component nothing is visited. *)
Lemma walk_excluded_root (excluded_files excluded_dirs : list string) (d : string) (t : tree) :
  d ∈ excluded_dirs → d ≠ "" →
  ∀ root acc, valid_names t = true → d ∈ split root →
    walk excluded_files excluded_dirs root t acc = acc.
Proof.
  intros Hd Hne. induction t as [files dirs IH] using tree_induction.
  intros root acc Hvalid Hroot. simpl.
  assert (Hx : existsb (λ excluded_dir, bool_decide (excluded_dir ∈ split root)) excluded_dirs
               = true).
  { apply existsb_exists. exists d.
    split; [by apply list_elem_of_In | by apply bool_decide_eq_true]. }
  rewrite Hx. simpl in Hvalid. apply andb_true_iff in Hvalid as [_ Hdirs].
  clear Hx. revert acc Hdirs.
  induction IH as [|[name sub] rest Hsub _ IHrest]; intros acc Hdirs; [done|].
  apply andb_true_iff in Hdirs as [Hdirs Hrest].
  apply andb_true_iff in Hdirs as [Hdirs Hvsub].
  apply andb_true_iff in Hdirs as [_ Hslash]. apply negb_true_iff in Hslash.
  destruct (bool_decide (name ∈ excluded_dirs)); [by apply IHrest|].
  simpl in Hsub. rewrite Hsub; [by apply IHrest | done |].
  apply split_join; [by apply contains_startswith | done | done].
Qed.

End CodeExportFacts.

Section ExportFacts.
Import CodeExport CodeExportFacts.

(** X19: what the export collects, exactly.  Whatever the tree and the two
    exclusion sets, a path is a key of one of the two dictionaries
    [get_code_files] returns exactly when it is [os.path.join(root, file)]
    for a name [file] that [os.walk] lists among the files of a directory
    of the tree, where that directory is reached from [directory] by going
    down directory names none of which is excluded, its path [root] has no
    excluded component, and [file] is not an excluded name, does not
    contain ".env" and has the extension ".js" or ".jsx" in some mix of
    cases.  So a file under an excluded directory of the tree, a file with
    an excluded name and a file whose name contains ".env" are never
    collected.  The path is in [backend_files] when it contains "backend/"
    and in [frontend_files] when it does not, so no path is in both. *)
Theorem export_is_screened (directory : string) (excluded_files excluded_dirs : option (list string))
    (t : tree) (file_path : string) :
  (is_Some (backend_files (get_code_files directory excluded_files excluded_dirs t) !! file_path)
   ↔ collected (default default_excluded_files excluded_files)
               (default default_excluded_dirs excluded_dirs) directory t file_path
     ∧ contains "backend/" file_path = true)
  ∧ (is_Some (frontend_files (get_code_files directory excluded_files excluded_dirs t)
              !! file_path)
     ↔ collected (default default_excluded_files excluded_files)
                 (default default_excluded_dirs excluded_dirs) directory t file_path
       ∧ contains "backend/" file_path = false).
Proof.
  unfold get_code_files.
  set (ef := default default_excluded_files excluded_files).
  set (ed := default default_excluded_dirs excluded_dirs).
  destruct (walk_sound ef ed directory t t [] (Found ∅ ∅ [])) as [Hb Hf].
  { constructor. }
  { constructor. }
  { split; simpl; intros p Hp; rewrite lookup_empty in Hp; by destruct Hp. }
  simpl in Hb, Hf.
  split; (split; [by auto|]); intros [Hc Hside];
    pose proof (walk_complete ef ed directory t file_path (Found ∅ ∅ []) Hc) as Hhold;
    unfold holds in Hhold; by rewrite Hside in Hhold.
Qed.

(** X20: a scan started under an excluded name finds nothing.  When a
    component of [directory] itself is one of the excluded directory
    names (the project lies under a directory called build, dist, logs,
    public, ...), [get_code_files] skips every directory of the tree: both
    dictionaries are empty and nothing is printed, whatever the tree
    holds. *)
Theorem excluded_root_exports_nothing (directory : string)
    (excluded_files excluded_dirs : option (list string)) (t : tree) (d : string) :
  valid_names t = true →
  d ∈ default default_excluded_dirs excluded_dirs → d ≠ "" →
  d ∈ split directory →
  get_code_files directory excluded_files excluded_dirs t = Found ∅ ∅ [].
Proof.
  intros Hvalid Hd Hne Hin. unfold get_code_files.
  by apply (walk_excluded_root _ _ d).
Qed.

End ExportFacts.

(** A small project: sources, a style sheet, a secret, a dependency. *)
Definition sample_project : CodeExport.tree :=
  CodeExport.Tree
    [ ("generate-cookie-secret.js", Ok ["g"]) ]
    [ (".env.d", CodeExport.Tree [ ("conf.js", Ok ["f"]) ] []);
      ("backend",
       CodeExport.Tree [] [ ("routes", CodeExport.Tree [ ("api.js", Ok ["d"]) ] []) ]);
      ("node_modules",
       CodeExport.Tree [] [ ("x", CodeExport.Tree [ ("i.js", Ok ["e"]) ] []) ]);
      ("src",
       CodeExport.Tree [ ("index.js", Ok ["a"]); ("App.JSX", Ok ["b"]); (".env.js", Ok ["c"]);
                         ("style.css", Ok ["h"]); (".js", Ok ["i"]);
                         ("locked.js", Raise (Exn "PermissionError" "[Errno 13] Permission denied: 'app/src/locked.js'")) ]
                       []) ].

Example sample_project_export :
  (map_to_list (CodeExport.backend_files (CodeExport.get_code_files "app" None None sample_project))).*1
  = ["app/backend/routes/api.js"]
  ∧ (map_to_list (CodeExport.frontend_files
                    (CodeExport.get_code_files "app" None None sample_project))).*1
    ≡ₚ ["app/.env.d/conf.js"; "app/src/App.JSX"; "app/src/index.js"; "app/src/locked.js"]
  ∧ CodeExport.get_code_files "build/app" None None sample_project
    = CodeExport.Found ∅ ∅ [].
Proof.
  split; [vm_compute; reflexivity|]. split; [|vm_compute; reflexivity].
  apply (bool_decide_unpack _). vm_compute. exact I.
Qed.

Lemma export_is_screened_witness :
  (CodeExportFacts.collected CodeExport.default_excluded_files CodeExport.default_excluded_dirs
     "app" sample_project "app/src/App.JSX"
   ∧ is_Some (CodeExport.frontend_files
                (CodeExport.get_code_files "app" None None sample_project)
              !! "app/src/App.JSX"))
  ∧ ¬ CodeExportFacts.collected CodeExport.default_excluded_files
        CodeExport.default_excluded_dirs "app" sample_project "app/node_modules/x/i.js"
  ∧ ¬ CodeExportFacts.collected CodeExport.default_excluded_files
        CodeExport.default_excluded_dirs "app" sample_project "app/generate-cookie-secret.js".
Proof.
  assert (Hc : CodeExportFacts.collected CodeExport.default_excluded_files
                 CodeExport.default_excluded_dirs "app" sample_project "app/src/App.JSX").
  { exists ["src"], [ ("index.js", Ok ["a"]); ("App.JSX", Ok ["b"]); (".env.js", Ok ["c"]);
                      ("style.css", Ok ["h"]); (".js", Ok ["i"]);
                      ("locked.js", Raise (Exn "PermissionError" "[Errno 13] Permission denied: 'app/src/locked.js'")) ],
           [], "App.JSX", (Ok ["b"]).
    split.
    { eapply CodeExport.subdirectory_below; [|apply CodeExport.subdirectory_here].
      repeat constructor. }
    split; [repeat constructor|].
    split; [reflexivity|].
    split; [repeat constructor; apply (bool_decide_unpack _); vm_compute; exact I|].
    split.
    { intros d Hd. apply (bool_decide_unpack _).
      repeat (apply elem_of_cons in Hd as [-> | Hd]; [vm_compute; exact I|]).
      by apply elem_of_nil in Hd. }
    split; [apply (bool_decide_unpack _); vm_compute; exact I|].
    split; [reflexivity|].
    apply (bool_decide_unpack _). vm_compute. exact I. }
  split; [split; [exact Hc|]|split].
  - apply (export_is_screened "app" None None sample_project "app/src/App.JSX").
    split; [exact Hc | reflexivity].
  - intros Hn.
    assert (Hs : is_Some (CodeExport.frontend_files
                            (CodeExport.get_code_files "app" None None sample_project)
                          !! "app/node_modules/x/i.js")).
    { apply (export_is_screened "app" None None sample_project "app/node_modules/x/i.js").
      split; [exact Hn | reflexivity]. }
    vm_compute in Hs. destruct Hs as [x Hx]. discriminate Hx.
  - intros Hn.
    assert (Hs : is_Some (CodeExport.frontend_files
                            (CodeExport.get_code_files "app" None None sample_project)
                          !! "app/generate-cookie-secret.js")).
    { apply (export_is_screened "app" None None sample_project "app/generate-cookie-secret.js").
      split; [exact Hn | reflexivity]. }
    vm_compute in Hs. destruct Hs as [x Hx]. discriminate Hx.
Defined.

Lemma excluded_root_exports_nothing_witness :
  CodeExport.get_code_files "/home/dev/build/app" None None sample_project
  = CodeExport.Found ∅ ∅ [].
Proof.
  apply (excluded_root_exports_nothing "/home/dev/build/app" None None
           sample_project "build").
  - reflexivity.
  - simpl. set_solver.
  - discriminate.
  - simpl. set_solver.
Defined.
